(** * rhiza: the [inject] command (src/rhiza/commands/inject.py)

    A shallow embedding of [inject(target, branch, force)]: the one-shot copy
    of the paths named in [.github/template.yml] from a sparse checkout of the
    template repository into a target repository.

    The file system is one global map from absolute paths to entries; the
    command is a computation in a state-and-exception monad over that map and
    the sequence of observable events (logger lines, subprocess calls).
    YAML (de)serialisation, [tempfile.mkdtemp] and the [git] executable are
    collaborators outside the repository and are taken from an [env] record.

    Outside the model: symbolic links and [..] resolution, permissions and
    the metadata [shutil.copy2] preserves, and manifests that are not a
    mapping of the documented shape (the run is cut at the load for those).
    The operating system resolves a [..] component against the directories
    that exist at the time of each call; the map below looks every path up
    component by component as written.  The two agree on paths without
    [..], so every statement about where entries end up is made for include
    entries that are [plain]. *)

From Stdlib Require Import List String Ascii Bool Arith Lia.
Set Warnings "-register-all".
Import ListNotations.
Open Scope string_scope.
Open Scope list_scope.

(** String concatenation, kept apart from list append. *)
Infix "+++" := String.append (right associativity, at level 60).

(* ================================================================== *)
(** ** Paths (pathlib.PurePosixPath)                                   *)
(* ================================================================== *)

(** An absolute, resolved path is the list of its components below the root:
    [/home/u/proj] is [["home"; "u"; "proj"]] and [/] is [[]]. *)
Definition path := list string.

(** [strip_prefix p q] is [Some r] exactly when [q = p ++ r]. *)
Fixpoint strip_prefix (p q : path) : option path :=
  match p, q with
  | [], _ => Some q
  | a :: p', b :: q' => if String.eqb a b then strip_prefix p' q' else None
  | _ :: _, [] => None
  end.

Definition is_prefix (p q : path) : bool :=
  match strip_prefix p q with Some _ => true | None => false end.

Definition path_eqb (p q : path) : bool :=
  match strip_prefix p q with Some [] => true | _ => false end.

(** [Path.parent]; the parent of the root is the root. *)
Definition parent (p : path) : path := removelast p.

(** Splitting a path string at ["/"]. *)
Fixpoint split_slash (s cur : string) : list string :=
  match s with
  | EmptyString => [cur]
  | String c s' =>
      if Ascii.eqb c "/" then cur :: split_slash s' ""
      else split_slash s' (cur +++ String c "")
  end.

Definition real_component (c : string) : bool :=
  negb (String.eqb c "" || String.eqb c ".").

(** [PurePosixPath(s).parts] without the root: empty and ["."] components are
    dropped.  A [".."] component is kept as pathlib keeps it; the file system
    below does not resolve it (nor symbolic links). *)
Definition parts (s : string) : path := filter real_component (split_slash s "").

Definition is_absolute (s : string) : bool :=
  match s with
  | String c _ => Ascii.eqb c "/"
  | EmptyString => false
  end.

(** [base / s]: pathlib's join.  An absolute right operand replaces the left
    one: [Path("/tmp/x") / "/Makefile"] is [Path("/Makefile")]. *)
Definition joinpath (base : path) (s : string) : path :=
  if is_absolute s then parts s else base ++ parts s.

(** An include entry without a [..] component: for these, looking the
    path up as written is what the operating system does. *)
Definition plain (s : string) : bool :=
  negb (existsb (String.eqb "..") (parts s)).

(** [str(path)]. *)
Definition path_str (p : path) : string :=
  match p with
  | [] => "/"
  | _ => String.concat "" (map (fun c => "/" +++ c) p)
  end.

(* ================================================================== *)
(** ** File system                                                     *)
(* ================================================================== *)

Inductive entry : Type :=
| File (data : string)
| Dir.

Definition fs := path -> option entry.

Definition is_dir_at (f : fs) (p : path) : bool :=
  match f p with Some Dir => true | _ => false end.

Definition exists_at (f : fs) (p : path) : bool :=
  match f p with Some _ => true | None => false end.

(** Point update. *)
Definition upd (p : path) (e : option entry) (f : fs) : fs :=
  fun q => if path_eqb p q then e else f q.

(** Everything at or below [p] disappears. *)
Definition remove_tree (p : path) (f : fs) : fs :=
  fun q => if is_prefix p q then None else f q.

(** The entries of [f] at and below [p], re-rooted at [p]. *)
Definition subtree (f : fs) (p : path) : fs := fun r => f (p ++ r).

(** [graft dst t f]: [f] with the re-rooted tree [t] put at [dst]. *)
Definition graft (dst : path) (t : fs) (f : fs) : fs :=
  fun q => match strip_prefix dst q with
           | Some r => t r
           | None => f q
           end.

(** A real file system: whatever exists lives in a directory. *)
Definition wf (f : fs) : Prop :=
  forall p c, f (p ++ [c]) <> None -> f p = Some Dir.

(** Finite directory trees, used for what [git] leaves in the scratch
    workspace and for writing down concrete file systems. *)
Inductive tree : Type :=
| Leaf (data : string)
| Node (children : list (string * tree)).

Fixpoint child {A : Type} (c : string) (l : list (string * A)) : option A :=
  match l with
  | [] => None
  | (k, v) :: l' => if String.eqb c k then Some v else child c l'
  end.

Fixpoint tree_lookup (t : tree) (p : path) : option entry :=
  match p with
  | [] => Some (match t with Leaf d => File d | Node _ => Dir end)
  | c :: p' =>
      match t with
      | Leaf _ => None
      | Node ch =>
          match child c ch with
          | Some t' => tree_lookup t' p'
          | None => None
          end
      end
  end.

(** The file system whose root directory holds [ch]. *)
Definition fs_of (ch : list (string * tree)) : fs := tree_lookup (Node ch).

(* ================================================================== *)
(** ** Events, exceptions and the monad                                *)
(* ================================================================== *)

(** What an observer of a run sees: loguru lines by level, the
    [subprocess.run] calls with their [cwd], and the scratch directory handed
    out by [tempfile.mkdtemp]. *)
Inductive event : Type :=
| Info (msg : string)
| Warning (msg : string)
| Success (msg : string)
| Error (msg : string)
| Exec (argv : list string) (cwd : option path)
| Mkdtemp (p : path).

Inductive exn : Type :=
| SystemExit (code : nat)
| FileExistsError
| FileNotFoundError
| NotADirectoryError
| IsADirectoryError
| CalledProcessError
| LoadError.

Inductive result (A : Type) : Type :=
| Ok (a : A)
| Raise (e : exn).
Arguments Ok {A} a.
Arguments Raise {A} e.

Record state : Type := mkState { files : fs; log : list event }.

Definition M (A : Type) : Type := state -> result A * state.

Definition ret {A} (a : A) : M A := fun s => (Ok a, s).

Definition bind {A B} (m : M A) (k : A -> M B) : M B :=
  fun s => match m s with
           | (Ok a, s') => k a s'
           | (Raise e, s') => (Raise e, s')
           end.

Definition raise {A} (e : exn) : M A := fun s => (Raise e, s).

Notation "x <- m ;; k" := (bind m (fun x => k))
  (at level 61, m at next level, right associativity).
Notation "m ;; k" := (bind m (fun _ => k))
  (at level 61, right associativity).

(** [try: body finally: fin].  The finaliser runs in whatever state the body
    left; an exception of the finaliser replaces the body's outcome. *)
Definition try_finally {A} (body : M A) (fin : M unit) : M A :=
  fun s => match body s with
           | (r, s') =>
               match fin s' with
               | (Ok _, s'') => (r, s'')
               | (Raise e, s'') => (Raise e, s'')
               end
           end.

(** [for x in xs: body x]. *)
Fixpoint for_each {A} (xs : list A) (body : A -> M unit) : M unit :=
  match xs with
  | [] => ret tt
  | x :: xs' => body x ;; for_each xs' body
  end.

Definition emit (e : event) : M unit :=
  fun s => (Ok tt, mkState (files s) (log s ++ [e])).

Definition get_fs : M fs := fun s => (Ok (files s), s).

Definition put_fs (f : fs) : M unit := fun s => (Ok tt, mkState f (log s)).

Definition init (f : fs) : state := mkState f [].

(* ================================================================== *)
(** ** Library calls on the file system                                *)
(* ================================================================== *)

(** [Path.exists()] and [Path.is_dir()]. *)
Definition path_exists (p : path) : M bool :=
  f <- get_fs ;; ret (exists_at f p).

Definition path_is_dir (p : path) : M bool :=
  f <- get_fs ;; ret (is_dir_at f p).

(** [Path.mkdir(parents=True, exist_ok=True)], on the reversed path: try
    [os.mkdir]; an existing directory is accepted, an existing file is not;
    when the parent is missing it is made first, recursively. *)
Fixpoint mkdir_rev (rp : list string) (f : fs) : result fs :=
  match f (rev rp) with
  | Some Dir => Ok f
  | Some (File _) => Raise FileExistsError
  | None =>
      match rp with
      | [] => Raise FileNotFoundError
      | _ :: rp' =>
          match f (rev rp') with
          | Some Dir => Ok (upd (rev rp) (Some Dir) f)
          | Some (File _) => Raise NotADirectoryError
          | None =>
              match mkdir_rev rp' f with
              | Ok f' => Ok (upd (rev rp) (Some Dir) f')
              | Raise e => Raise e
              end
          end
      end
  end.

Definition mkdir_parents (p : path) : M unit :=
  f <- get_fs ;;
  match mkdir_rev (rev p) f with
  | Ok f' => put_fs f'
  | Raise e => raise e
  end.

(** [open(p, "w")] followed by a write of [data]. *)
Definition write_text (p : path) (data : string) : M unit :=
  f <- get_fs ;;
  match f p with
  | Some Dir => raise IsADirectoryError
  | _ => if is_dir_at f (parent p) then put_fs (upd p (Some (File data)) f)
         else raise FileNotFoundError
  end.

(** [open(p)] followed by a read. *)
Definition read_text (p : path) : M string :=
  f <- get_fs ;;
  match f p with
  | Some (File d) => ret d
  | Some Dir => raise IsADirectoryError
  | None => raise FileNotFoundError
  end.

(** [shutil.rmtree(p)]. *)
Definition rmtree (p : path) : M unit :=
  f <- get_fs ;;
  match f p with
  | Some Dir => put_fs (remove_tree p f)
  | Some (File _) => raise NotADirectoryError
  | None => raise FileNotFoundError
  end.

(** [Path.unlink()]. *)
Definition unlink (p : path) : M unit :=
  f <- get_fs ;;
  match f p with
  | Some (File _) => put_fs (upd p None f)
  | Some Dir => raise IsADirectoryError
  | None => raise FileNotFoundError
  end.

(** [shutil.copytree(src, dst)]: [dst] must not exist; it receives the tree
    found at [src]. *)
Definition copytree (src dst : path) : M unit :=
  f <- get_fs ;;
  match f src with
  | Some Dir =>
      match f dst with
      | Some _ => raise FileExistsError
      | None =>
          if is_dir_at f (parent dst) then put_fs (graft dst (subtree f src) f)
          else raise FileNotFoundError
      end
  | Some (File _) => raise NotADirectoryError
  | None => raise FileNotFoundError
  end.

(** [shutil.copy2(src, dst)]: a file copy; onto a directory it copies into
    it under the source's name. *)
Definition copy2 (src dst : path) : M unit :=
  f <- get_fs ;;
  match f src with
  | Some (File d) =>
      match f dst with
      | Some Dir => write_text (dst ++ [last src ""]) d
      | _ => write_text dst d
      end
  | Some Dir => raise IsADirectoryError
  | None => raise FileNotFoundError
  end.

(* ================================================================== *)
(** ** The manifest and the collaborators                              *)
(* ================================================================== *)

(** The mapping [yaml.safe_load] returns for [.github/template.yml], within
    the schema of the manifest: a field is [None] when its key is absent. *)
Record manifest : Type := mkManifest {
  template_repository : option string;
  template_branch : option string;
  include : option (list string)
}.

(** What a [git] command leaves in the scratch directory. *)
Definition worktree := list (string * tree).

(** The collaborators of one run.  [yaml_safe_load] is [None] on a document
    that does not parse or is not a manifest mapping.  [scratch] is the name
    [tempfile.mkdtemp] settles on.  A [git] command is a function of its
    arguments and of the work tree its predecessor left behind; it returns
    whether it exited with status 0 and the work tree it leaves. *)
Record env : Type := mkEnv {
  yaml_dump : manifest -> string;
  yaml_safe_load : string -> option manifest;
  scratch : path;
  git_clone : string -> string -> bool * worktree;
  git_sparse_checkout_init : worktree -> bool * worktree;
  git_sparse_checkout_set : list string -> worktree -> bool * worktree
}.

Definition default_include : list string :=
  [".github"; "/.editorconfig"; "/.gitignore"; "/.pre-commit-config.yaml";
   "/Makefile"; "/pytest.ini"].

(** [template_content] of lines 44-55. *)
Definition default_manifest (branch : string) : manifest :=
  mkManifest (Some "jebel-quant/rhiza") (Some branch) (Some default_include).

(** An f-string field holding an optional string: [None] prints as "None". *)
Definition py_str (o : option string) : string :=
  match o with Some s => s | None => "None" end.

(** [config.get("template-branch", branch)] and [config.get("include", [])]. *)
Definition manifest_branch (config : manifest) (branch : string) : string :=
  match template_branch config with Some b => b | None => branch end.

Definition manifest_include (config : manifest) : list string :=
  match include config with Some l => l | None => [] end.

Definition template_path (target : path) : path :=
  target ++ [".github"; "template.yml"].

Definition skip_missing (p : string) : event :=
  Warning (p +++ " not found in rhiza — skipping").

Definition skip_existing (p : string) : event :=
  Warning (p +++ " already exists — use --force to overwrite").

Definition added (p : string) : event := Success ("[ADD] " +++ p).

Definition dquote : string := String (Ascii.ascii_of_nat 34) EmptyString.

Definition next_steps : string := "
Next steps:
  1. Review changes:
       git status
       git diff

  2. Commit:
       git add .
       git commit -m " +++ dquote +++ "chore: import rhiza templates" +++ dquote +++ "

This is a one-shot snapshot.
Re-run this script to update templates explicitly.
".

Definition clone_url (rhiza_repo : option string) : string :=
  "https://github.com/" +++ py_str rhiza_repo +++ ".git".

Definition clone_argv (rhiza_repo : option string) (rhiza_branch : string)
    (tmp_dir : path) : list string :=
  ["git"; "clone"; "--depth"; "1"; "--filter=blob:none"; "--sparse";
   "--branch"; rhiza_branch; clone_url rhiza_repo; path_str tmp_dir].

(* ================================================================== *)
(** ** inject                                                          *)
(* ================================================================== *)

Section Inject.

Variable E : env.

(** [tempfile.mkdtemp()]: the directory is made afresh; the call fails when
    no free name is found. *)
Definition mkdtemp : M path :=
  f <- get_fs ;;
  match f (scratch E) with
  | Some _ => raise FileExistsError
  | None =>
      if is_dir_at f (parent (scratch E)) then
        put_fs (upd (scratch E) (Some Dir) f) ;;
        emit (Mkdtemp (scratch E)) ;;
        ret (scratch E)
      else raise FileNotFoundError
  end.

(** [subprocess.run(argv, cwd=cwd, check=True)] for a [git] command that
    leaves [snd res] in [tmp_dir] and exits with status 0 iff [fst res]. *)
Definition run_git (argv : list string) (cwd : option path) (tmp_dir : path)
    (res : bool * worktree) : M worktree :=
  emit (Exec argv cwd) ;;
  f <- get_fs ;;
  put_fs (graft tmp_dir (fs_of (snd res)) f) ;;
  if fst res then ret (snd res) else raise CalledProcessError.

(** Lines 26-78: validate the target, ensure and load the manifest.  Returns
    [(rhiza_repo, rhiza_branch, include_paths)]. *)
Definition load_config (target : path) (branch : string)
    : M (option string * string * list string) :=
  git_dir <- path_is_dir (target ++ [".git"]) ;;
  if negb git_dir then
    emit (Error ("Target directory is not a git repository: " +++ path_str target)) ;;
    raise (SystemExit 1)
  else
    emit (Info ("Target repository: " +++ path_str target)) ;;
    emit (Info ("Rhiza branch: " +++ branch)) ;;
    let template_file := template_path target in
    mkdir_parents (parent template_file) ;;
    present <- path_exists template_file ;;
    (if negb present then
       emit (Info "Creating default .github/template.yml") ;;
       write_text template_file (yaml_dump E (default_manifest branch)) ;;
       emit (Success ".github/template.yml created")
     else
       emit (Info "Using existing .github/template.yml")) ;;
    text <- read_text template_file ;;
    match yaml_safe_load E text with
    | None => raise LoadError
    | Some config =>
        let rhiza_repo := template_repository config in
        let rhiza_branch := manifest_branch config branch in
        let include_paths := manifest_include config in
        match include_paths with
        | [] =>
            emit (Error "No include paths found in template.yml") ;;
            raise (SystemExit 1)
        | _ :: _ =>
            emit (Info "Include paths:") ;;
            for_each include_paths (fun p => emit (Info ("  - " +++ p))) ;;
            ret (rhiza_repo, rhiza_branch, include_paths)
        end
    end.

(** Lines 111-134: the body of the copy loop for one include path. *)
Definition copy_path (tmp_dir target : path) (force : bool) (p : string) : M unit :=
  let src := joinpath tmp_dir p in
  let dst := joinpath target p in
  src_exists <- path_exists src ;;
  if negb src_exists then emit (skip_missing p)
  else
    dst_exists <- path_exists dst ;;
    if dst_exists && negb force then emit (skip_existing p)
    else
      dst_exists' <- path_exists dst ;;
      (if dst_exists' then
         dst_is_dir <- path_is_dir dst ;;
         if dst_is_dir then rmtree dst else unlink dst
       else ret tt) ;;
      mkdir_parents (parent dst) ;;
      src_is_dir <- path_is_dir src ;;
      (if src_is_dir then copytree src dst else copy2 src dst) ;;
      emit (added p).

(** Lines 87-134: the body of the [try]. *)
Definition fetch_and_copy (tmp_dir target : path) (force : bool)
    (rhiza_repo : option string) (rhiza_branch : string)
    (include_paths : list string) : M unit :=
  w1 <- run_git (clone_argv rhiza_repo rhiza_branch tmp_dir) None tmp_dir
          (git_clone E rhiza_branch (clone_url rhiza_repo)) ;;
  w2 <- run_git ["git"; "sparse-checkout"; "init"] (Some tmp_dir) tmp_dir
          (git_sparse_checkout_init E w1) ;;
  _ <- run_git (["git"; "sparse-checkout"; "set"; "--skip-checks"] ++ include_paths)
          (Some tmp_dir) tmp_dir
          (git_sparse_checkout_set E include_paths w2) ;;
  for_each include_paths (copy_path tmp_dir target force).

(** Lines 83-137: scratch workspace, [try] ... [finally: shutil.rmtree]. *)
Definition materialize (target : path) (force : bool)
    (cfg : option string * string * list string) : M unit :=
  let '(rhiza_repo, rhiza_branch, include_paths) := cfg in
  tmp_dir <- mkdtemp ;;
  emit (Info ("Cloning " +++ py_str rhiza_repo +++ "@" +++ rhiza_branch
              +++ " into temporary directory")) ;;
  try_finally
    (fetch_and_copy tmp_dir target force rhiza_repo rhiza_branch include_paths)
    (rmtree tmp_dir).

(** [inject(target, branch, force)], with [target] already resolved. *)
Definition inject (target : path) (branch : string) (force : bool) : M unit :=
  cfg <- load_config target branch ;;
  materialize target force cfg ;;
  emit (Success "Rhiza templates materialized successfully") ;;
  emit (Info next_steps).

End Inject.

(* ================================================================== *)
(** ** Notions used in the statements                                  *)
(* ================================================================== *)

(** Lines 122-126: an existing destination is removed. *)
Definition cleared (dst : path) (f : fs) : fs :=
  match f dst with
  | Some Dir => remove_tree dst f
  | Some (File _) => upd dst None f
  | None => f
  end.

(** The outcomes of one iteration [copy_path tmp_dir target force p] from a
    state [s], case by case. *)
Inductive copy_step (tmp_dir target : path) (force : bool) (p : string)
    (s : state) : result unit -> state -> Prop :=
| step_missing :
    files s (joinpath tmp_dir p) = None ->
    copy_step tmp_dir target force p s (Ok tt)
      (mkState (files s) (log s ++ [skip_missing p]))
| step_existing :
    files s (joinpath tmp_dir p) <> None ->
    files s (joinpath target p) <> None -> force = false ->
    copy_step tmp_dir target force p s (Ok tt)
      (mkState (files s) (log s ++ [skip_existing p]))
| step_mkdir_fails e :
    files s (joinpath tmp_dir p) <> None ->
    (files s (joinpath target p) = None \/ force = true) ->
    mkdir_rev (rev (parent (joinpath target p)))
      (cleared (joinpath target p) (files s)) = Raise e ->
    copy_step tmp_dir target force p s (Raise e)
      (mkState (cleared (joinpath target p) (files s)) (log s))
| step_source_gone f2 :
    files s (joinpath tmp_dir p) <> None ->
    (files s (joinpath target p) = None \/ force = true) ->
    mkdir_rev (rev (parent (joinpath target p)))
      (cleared (joinpath target p) (files s)) = Ok f2 ->
    f2 (joinpath tmp_dir p) = None -> f2 (joinpath target p) = None ->
    copy_step tmp_dir target force p s (Raise FileNotFoundError)
      (mkState f2 (log s))
| step_copy_tree f2 :
    files s (joinpath tmp_dir p) <> None ->
    (files s (joinpath target p) = None \/ force = true) ->
    mkdir_rev (rev (parent (joinpath target p)))
      (cleared (joinpath target p) (files s)) = Ok f2 ->
    f2 (joinpath tmp_dir p) = Some Dir -> f2 (joinpath target p) = None ->
    copy_step tmp_dir target force p s (Ok tt)
      (mkState (graft (joinpath target p) (subtree f2 (joinpath tmp_dir p)) f2)
               (log s ++ [added p]))
| step_copy_file f2 d :
    files s (joinpath tmp_dir p) <> None ->
    (files s (joinpath target p) = None \/ force = true) ->
    mkdir_rev (rev (parent (joinpath target p)))
      (cleared (joinpath target p) (files s)) = Ok f2 ->
    f2 (joinpath tmp_dir p) = Some (File d) -> f2 (joinpath target p) = None ->
    copy_step tmp_dir target force p s (Ok tt)
      (mkState (upd (joinpath target p) (Some (File d)) f2)
               (log s ++ [added p])).

(** The logger lines of the manifest stage. *)
Definition intro_log (target : path) (branch : string) : list event :=
  [Info ("Target repository: " +++ path_str target);
   Info ("Rhiza branch: " +++ branch)].

Definition include_log (include_paths : list string) : list event :=
  Info "Include paths:" :: map (fun p => Info ("  - " +++ p)) include_paths.

Definition not_a_repository (target : path) : event :=
  Error ("Target directory is not a git repository: " +++ path_str target).

Definition empty_manifest : event :=
  Error "No include paths found in template.yml".

(** The file system after lines 39-58, from the one [mkdir] left. *)
Definition ensured (E : env) (target : path) (branch : string) (f1 : fs) : fs :=
  match f1 (template_path target) with
  | None =>
      upd (template_path target)
        (Some (File (yaml_dump E (default_manifest branch)))) f1
  | Some _ => f1
  end.

Definition ensure_log (target : path) (f1 : fs) : list event :=
  match f1 (template_path target) with
  | None => [Info "Creating default .github/template.yml";
             Success ".github/template.yml created"]
  | Some _ => [Info "Using existing .github/template.yml"]
  end.

Definition cloning (rhiza_repo : option string) (rhiza_branch : string) : event :=
  Info ("Cloning " +++ py_str rhiza_repo +++ "@" +++ rhiza_branch
        +++ " into temporary directory").

(** The three [git] results, each fed the work tree of its predecessor. *)
Definition cloned (E : env) (rhiza_repo : option string)
    (rhiza_branch : string) : bool * worktree :=
  git_clone E rhiza_branch (clone_url rhiza_repo).

Definition sparse_ready (E : env) (rhiza_repo : option string)
    (rhiza_branch : string) : bool * worktree :=
  git_sparse_checkout_init E (snd (cloned E rhiza_repo rhiza_branch)).

Definition checked_out (E : env) (rhiza_repo : option string)
    (rhiza_branch : string) (include_paths : list string) : bool * worktree :=
  git_sparse_checkout_set E include_paths
    (snd (sparse_ready E rhiza_repo rhiza_branch)).

Definition clone_call (E : env) (rhiza_repo : option string)
    (rhiza_branch : string) : event :=
  Exec (clone_argv rhiza_repo rhiza_branch (scratch E)) None.

Definition init_call (E : env) : event :=
  Exec ["git"; "sparse-checkout"; "init"] (Some (scratch E)).

Definition set_call (E : env) (include_paths : list string) : event :=
  Exec (["git"; "sparse-checkout"; "set"; "--skip-checks"] ++ include_paths)
       (Some (scratch E)).

(** The file system once the scratch directory holds the checkout. *)
Definition fetched (E : env) (rhiza_repo : option string)
    (rhiza_branch : string) (include_paths : list string) (f : fs) : fs :=
  graft (scratch E)
    (fs_of (snd (checked_out E rhiza_repo rhiza_branch include_paths)))
    (graft (scratch E) (fs_of (snd (sparse_ready E rhiza_repo rhiza_branch)))
       (graft (scratch E) (fs_of (snd (cloned E rhiza_repo rhiza_branch))) f)).

(** The log only grows. *)
Definition extends (s s' : state) : Prop := exists t, log s' = log s ++ t.

(** Nothing that exists is removed or changed. *)
Definition grows (f f' : fs) : Prop := forall q e, f q = Some e -> f' q = Some e.

(** Logger lines, as opposed to subprocess calls and scratch creation. *)
Definition logger_line (e : event) : Prop :=
  match e with
  | Exec _ _ | Mkdtemp _ => False
  | _ => True
  end.

(** The invariant of the [try] block. *)
Definition scratch_state (tmp_dir : path) (s : state) : Prop :=
  wf (files s) /\ forall d, files s tmp_dir <> Some (File d).

(** The scratch directory holds the checkout [T], entry for entry. *)
Definition scratch_intact (tmp_dir : path) (T f : fs) : Prop :=
  forall r, f (tmp_dir ++ r) = T r.

(** Every path of [xs] that the checkout has is, in [f], a copy of it. *)
Definition copied (target : path) (T : fs) (xs : list string) (f : fs) : Prop :=
  forall p, In p xs -> T (parts p) <> None ->
  forall r, f (target ++ parts p ++ r) = T (parts p ++ r).

Definition forced_inv (tmp_dir target : path) (T : fs) (xs : list string)
    (f : fs) : Prop :=
  wf f /\ scratch_intact tmp_dir T f /\ copied target T xs f.

(* ================================================================== *)
(** ** A concrete world                                                *)
(* ================================================================== *)

Definition demo_target : path := ["home"; "u"; "proj"].

Definition demo_manifest (incl : list string) : manifest :=
  mkManifest (Some "acme/templates") None (Some incl).

(** The documents the demo YAML reader understands, by their text. *)
Definition demo_documents : list (string * manifest) :=
  [("default:main", default_manifest "main");
   ("nested", demo_manifest ["a"; "a/b"]);
   ("github", demo_manifest [".github"]);
   ("github+makefile", demo_manifest [".github"; "Makefile"]);
   ("plain", demo_manifest ["Makefile"; "a"; "docs/missing.md"]);
   ("slash", demo_manifest ["/Makefile"]);
   ("gone", demo_manifest ["nonexistent/path"]);
   ("empty", demo_manifest []);
   ("norepo", mkManifest None None (Some ["Makefile"]));
   ("inside", demo_manifest ["/home/u/proj/a"; "a"])].

(** What the template repository holds. *)
Definition demo_upstream : worktree :=
  [(".git", Node []);
   ("Makefile", Leaf "all: upstream");
   (".github", Node [("template.yml", Leaf "github+makefile");
                     ("workflows", Node [("ci.yml", Leaf "ci")])]);
   ("a", Node [("b", Leaf "new")])].

Definition demo_env : env :=
  mkEnv
    (fun m => "default:" +++ py_str (template_branch m))
    (fun text => child text demo_documents)
    ["tmp"; "rhiza"]
    (fun branch url =>
       if String.eqb url "https://github.com/None.git"
       then (false, [])
       else (true, [(".git", Node [])]))
    (fun w => (true, w))
    (fun incl w => (true, demo_upstream)).

(** A machine with [/tmp] and the repository [/home/u/proj] holding
    [entries] next to its [.git]. *)
Definition demo_fs (entries : list (string * tree)) : fs :=
  fs_of [("tmp", Node []);
         ("home", Node [("u", Node [("proj",
            Node ((".git", Node []) :: entries))])])].

Definition with_manifest (text : string) (entries : list (string * tree))
    : list (string * tree) :=
  (".github", Node [("template.yml", Leaf text)]) :: entries.

(** The scenarios used below. *)
Definition fs_not_a_repo : fs :=
  fs_of [("home", Node [("u", Node [("proj", Node [])])])].

Definition fs_empty_manifest : fs := demo_fs (with_manifest "empty" []).

Definition fs_fresh : fs := demo_fs [].

Definition fs_no_repository_field : fs := demo_fs (with_manifest "norepo" []).


Definition fs_nested : fs :=
  demo_fs (with_manifest "nested" [("a", Node [("x", Leaf "mine")])]).

Definition fs_github : fs := demo_fs (with_manifest "github" []).

Definition fs_plain : fs :=
  demo_fs (with_manifest "plain" [("Makefile", Leaf "local")]).

Definition fs_local_makefile : fs := demo_fs [("Makefile", Leaf "local")].

Definition fs_root_makefile : fs :=
  fs_of [("Makefile", Leaf "root file");
         ("tmp", Node []);
         ("home", Node [("u", Node [("proj",
            Node ((".git", Node [])
                    :: with_manifest "slash" [("Makefile", Leaf "local")]))])])].


(* ================================================================== *)
(** ** Notions for the further properties                              *)
(* ================================================================== *)

(** The [subprocess.run] calls among the events of a run. *)
Definition is_exec (e : event) : bool :=
  match e with Exec _ _ => true | _ => false end.

Definition execs (l : list event) : list event := filter is_exec l.

(** The three [git] command lines of lines 87-105, in program order. *)
Definition git_calls (E : env) (rhiza_repo : option string)
    (rhiza_branch : string) (include_paths : list string) : list event :=
  [clone_call E rhiza_repo rhiza_branch; init_call E; set_call E include_paths].

(** How many of them are started when one fails: [check=True] stops the
    run at the first non-zero exit. *)
Definition failing_call (E : env) (rhiza_repo : option string)
    (rhiza_branch : string) (include_paths : list string) : nat :=
  if fst (cloned E rhiza_repo rhiza_branch) then
    if fst (sparse_ready E rhiza_repo rhiza_branch) then 3 else 2
  else 1.

(** The line one iteration of the copy loop logs for [p] when it returns. *)
Definition path_line (force : bool) (p : string) (e : event) : Prop :=
  e = skip_missing p \/ (force = false /\ e = skip_existing p) \/ e = added p.

(** The line of an iteration that copies nothing. *)
Definition skipped (p : string) (e : event) : Prop :=
  e = skip_missing p \/ e = skip_existing p.

(** The iteration for [p] stops at [dst.parent.mkdir]: the checkout has
    [p], the destination is absent and its parent cannot be made. *)
Definition stuck (target : path) (T : fs) (p : string) (F : fs) : Prop :=
  T (parts p) <> None /\ F (target ++ parts p) = None /\
  exists e, mkdir_rev (rev (parent (target ++ parts p))) F = Raise e.

(** The destination of [p0] is still absent, or holds the checkout's [p0]. *)
Definition pending (target : path) (T : fs) (p0 : string) (f : fs) : Prop :=
  f (target ++ parts p0) = None \/
  forall x, f (target ++ parts p0 ++ x) = T (parts p0 ++ x).

(** [sys.exit], as opposed to an exception of a library call. *)
Definition is_exit (e : exn) : bool :=
  match e with SystemExit _ => true | _ => false end.

(** A manifest that names [a] twice, once by its absolute path in the
    target. *)
Definition fs_inside : fs := demo_fs (with_manifest "inside" []).

(** A repository with its own [.github] directory and no manifest. *)
Definition fs_github_dir : fs :=
  demo_fs [(".github", Node [("workflows", Node [])])].

(** Two more machines: [.github] is a regular file; the manifest path is a
    directory. *)
Definition fs_github_is_file : fs := demo_fs [(".github", Leaf "oops")].

Definition fs_manifest_is_dir : fs :=
  demo_fs [(".github", Node [("template.yml", Node [])])].

(* ================================================================== *)
(** ** Paths: prefixes                                                 *)
(* ================================================================== *)

Lemma strip_prefix_app (p r : path) : strip_prefix p (p ++ r) = Some r.
Proof.
  induction p as [|a p IH]; simpl; [reflexivity|].
  now rewrite String.eqb_refl.
Qed.

Lemma strip_prefix_Some (p q r : path) :
  strip_prefix p q = Some r -> q = p ++ r.
Proof.
  revert q; induction p as [|a p IH]; intros q H; simpl in *.
  - now inversion H.
  - destruct q as [|b q]; [discriminate|].
    destruct (String.eqb_spec a b) as [->|]; [|discriminate].
    f_equal; auto.
Qed.

Lemma strip_prefix_None (p q : path) :
  strip_prefix p q = None -> forall r, q <> p ++ r.
Proof.
  intros H r ->. rewrite strip_prefix_app in H. discriminate.
Qed.

Lemma strip_prefix_nil (p : path) : strip_prefix p p = Some [].
Proof. rewrite <- (app_nil_r p) at 2. apply strip_prefix_app. Qed.

Lemma is_prefix_app (p r : path) : is_prefix p (p ++ r) = true.
Proof. unfold is_prefix. now rewrite strip_prefix_app. Qed.

Lemma is_prefix_refl (p : path) : is_prefix p p = true.
Proof. unfold is_prefix. now rewrite strip_prefix_nil. Qed.

Lemma is_prefix_true (p q : path) :
  is_prefix p q = true -> exists r, q = p ++ r.
Proof.
  unfold is_prefix. destruct (strip_prefix p q) eqn:H; [|discriminate].
  intros _. eexists. eauto using strip_prefix_Some.
Qed.

Lemma is_prefix_false (p q : path) :
  is_prefix p q = false -> forall r, q <> p ++ r.
Proof.
  unfold is_prefix. destruct (strip_prefix p q) eqn:H; [discriminate|].
  intros _. now apply strip_prefix_None.
Qed.

Lemma path_eqb_eq (p q : path) : path_eqb p q = true <-> p = q.
Proof.
  unfold path_eqb. split.
  - destruct (strip_prefix p q) as [[|]|] eqn:H; try discriminate.
    intros _. apply strip_prefix_Some in H. now rewrite app_nil_r in H.
  - intros ->. now rewrite strip_prefix_nil.
Qed.

Lemma path_eqb_refl (p : path) : path_eqb p p = true.
Proof. now apply path_eqb_eq. Qed.

Lemma path_eqb_neq (p q : path) : p <> q -> path_eqb p q = false.
Proof.
  intros H. destruct (path_eqb p q) eqn:E; [|reflexivity].
  now apply path_eqb_eq in E.
Qed.

Lemma path_eqb_spec (p q : path) : reflect (p = q) (path_eqb p q).
Proof.
  destruct (path_eqb p q) eqn:E; constructor.
  - now apply path_eqb_eq.
  - intros ->. now rewrite path_eqb_refl in E.
Qed.

Lemma app_snoc_inv (A : Type) (p r q : list A) (c : A) :
  p ++ r = q ++ [c] ->
  (r = [] /\ p = q ++ [c]) \/ exists r', r = r' ++ [c] /\ q = p ++ r'.
Proof.
  intros H. induction r as [|c' r' _] using rev_ind.
  - left. rewrite app_nil_r in H. auto.
  - right. rewrite app_assoc in H. apply app_inj_tail in H as [<- ->].
    exists r'. auto.
Qed.

Lemma strip_prefix_snoc (dst q r : path) (c : string) :
  strip_prefix dst (q ++ [c]) = Some r ->
  (r = [] /\ dst = q ++ [c]) \/
  exists r', r = r' ++ [c] /\ strip_prefix dst q = Some r'.
Proof.
  intros H. apply strip_prefix_Some in H. symmetry in H.
  apply app_snoc_inv in H as [[-> ->]|[r' [-> ->]]]; [left | right]; auto.
  exists r'. split; [reflexivity | apply strip_prefix_app].
Qed.

Lemma strip_prefix_snoc_None (dst q : path) (c : string) :
  strip_prefix dst (q ++ [c]) = None -> strip_prefix dst q = None.
Proof.
  intros H. destruct (strip_prefix dst q) eqn:E; [|reflexivity].
  apply strip_prefix_Some in E. subst.
  rewrite <- app_assoc, strip_prefix_app in H. discriminate.
Qed.

Lemma is_prefix_snoc (p q : path) (c : string) :
  is_prefix p q = true -> is_prefix p (q ++ [c]) = true.
Proof.
  intros H. apply is_prefix_true in H as [r ->].
  rewrite <- app_assoc. apply is_prefix_app.
Qed.

Lemma is_prefix_trans (p q r : path) :
  is_prefix p q = true -> is_prefix q r = true -> is_prefix p r = true.
Proof.
  intros [a ->]%is_prefix_true [b ->]%is_prefix_true.
  rewrite <- app_assoc. apply is_prefix_app.
Qed.

Lemma snoc_neq (A : Type) (q : list A) (c : A) : q ++ [c] <> q.
Proof.
  intros H. apply (f_equal (@List.length A)) in H.
  rewrite length_app in H. simpl in H. lia.
Qed.

Lemma app_neq_self (A : Type) (q r : list A) : r <> [] -> q ++ r <> q.
Proof.
  intros N H. apply (f_equal (@List.length A)) in H.
  rewrite length_app in H. destruct r; [congruence | simpl in H; lia].
Qed.

(* ================================================================== *)
(** ** Well-formed file systems                                        *)
(* ================================================================== *)

Lemma wf_ancestor (f : fs) (p r : path) :
  wf f -> f (p ++ r) <> None -> r <> [] -> f p = Some Dir.
Proof.
  intros W. induction r as [|c r IH] using rev_ind; intros H N; [congruence|].
  rewrite app_assoc in H. apply W in H.
  destruct r as [|y r'].
  - now rewrite app_nil_r in H.
  - apply IH; [congruence | discriminate].
Qed.

Lemma wf_below (f : fs) (p r : path) :
  wf f -> f p <> Some Dir -> r <> [] -> f (p ++ r) = None.
Proof.
  intros W H N. destruct (f (p ++ r)) eqn:E; [|reflexivity].
  exfalso. apply H. apply (@wf_ancestor f p r); [assumption | congruence | assumption].
Qed.

Lemma wf_parent (f : fs) (p : path) :
  wf f -> f p <> None -> p <> [] -> f (parent p) = Some Dir.
Proof.
  intros W H N. unfold parent.
  destruct (exists_last N) as [q [c ->]].
  rewrite removelast_last. now apply (W q c).
Qed.

Lemma tree_lookup_wf (t : tree) : wf (tree_lookup t).
Proof.
  intros p. revert t. induction p as [|a p IH]; intros t c H; simpl in *.
  - destruct t; [contradiction H; reflexivity | reflexivity].
  - destruct t as [d|ch]; [contradiction H; reflexivity|].
    destruct (child a ch) as [t'|]; [eauto | contradiction H; reflexivity].
Qed.

Lemma fs_of_wf (ch : worktree) : wf (fs_of ch).
Proof. apply tree_lookup_wf. Qed.

Lemma upd_same (p : path) (e : option entry) (f : fs) : upd p e f p = e.
Proof. unfold upd. now rewrite path_eqb_refl. Qed.

Lemma upd_other (p q : path) (e : option entry) (f : fs) :
  p <> q -> upd p e f q = f q.
Proof. intros H. unfold upd. now rewrite path_eqb_neq. Qed.

Lemma wf_upd_some (p : path) (x : entry) (f : fs) :
  wf f ->
  (forall q c, p = q ++ [c] -> f q = Some Dir) ->
  x = Dir \/ f p <> Some Dir ->
  wf (upd p (Some x) f).
Proof.
  intros W P X q c H. unfold upd in *.
  destruct (path_eqb_spec p (q ++ [c])) as [->|N].
  - rewrite path_eqb_neq by apply snoc_neq. eauto.
  - apply W in H. destruct (path_eqb_spec p q) as [->|]; [|assumption].
    destruct X as [->|X]; [reflexivity | contradiction].
Qed.

Lemma wf_upd_none (p : path) (f : fs) :
  wf f -> f p <> Some Dir -> wf (upd p None f).
Proof.
  intros W P q c H. unfold upd in *.
  destruct (path_eqb_spec p (q ++ [c])); [congruence|].
  apply W in H. destruct (path_eqb_spec p q); congruence.
Qed.

Lemma wf_remove_tree (p : path) (f : fs) : wf f -> wf (remove_tree p f).
Proof.
  intros W q c H. unfold remove_tree in *.
  destruct (is_prefix p (q ++ [c])) eqn:E; [congruence|].
  destruct (is_prefix p q) eqn:E'.
  - apply is_prefix_snoc with (c := c) in E'. congruence.
  - exact (W q c H).
Qed.

Lemma wf_subtree (f : fs) (p : path) : wf f -> wf (subtree f p).
Proof.
  intros W q c H. unfold subtree in *. rewrite app_assoc in H.
  exact (W _ _ H).
Qed.

Lemma wf_graft (dst : path) (t f : fs) :
  wf f -> wf t ->
  (t [] <> None -> forall q c, dst = q ++ [c] -> f q = Some Dir) ->
  wf (graft dst t f).
Proof.
  intros W T P q c H. unfold graft in *.
  destruct (strip_prefix dst (q ++ [c])) as [r|] eqn:E.
  - apply strip_prefix_snoc in E as [[-> ->]|[r' [-> E]]].
    + destruct (strip_prefix (q ++ [c]) q) eqn:E'; [|exact (P H q c eq_refl)].
      apply strip_prefix_Some in E'. rewrite <- app_assoc in E'.
      symmetry in E'. now apply app_neq_self in E'.
    + rewrite E. exact (T _ _ H).
  - apply strip_prefix_snoc_None in E. rewrite E. exact (W _ _ H).
Qed.

(** [mkdir -p]: the target ends up a directory; entries are only added, as
    directories, along the path. *)
Lemma mkdir_rev_spec (rp : list string) (f f' : fs) :
  mkdir_rev rp f = Ok f' ->
  f' (rev rp) = Some Dir /\
  (forall q, f' q = f q \/
             (f q = None /\ f' q = Some Dir /\ is_prefix q (rev rp) = true)) /\
  (wf f -> wf f').
Proof.
  revert f'. induction rp as [|a rp IH]; intros f' H; simpl in H.
  - destruct (f []) as [[d|]|] eqn:E; try discriminate.
    inversion H; subst. simpl. auto.
  - destruct (f (rev rp ++ [a])) as [[d|]|] eqn:E; try discriminate.
    { inversion H; subst. simpl. auto. }
    destruct (f (rev rp)) as [[d|]|] eqn:Ep; try discriminate.
    + inversion H; subst; clear H. simpl. rewrite upd_same.
      split; [reflexivity|]. split.
      * intros q. destruct (path_eqb_spec (rev rp ++ [a]) q) as [<-|N].
        -- right. rewrite upd_same, is_prefix_refl. auto.
        -- left. now apply upd_other.
      * intros W. apply wf_upd_some; auto.
        intros q c Hq. apply app_inj_tail in Hq as [<- _]. assumption.
    + destruct (mkdir_rev rp f) as [f1|e] eqn:E1; [|discriminate].
      inversion H; subst; clear H. simpl. rewrite upd_same.
      destruct (IH f1 eq_refl) as (D & C & W1).
      split; [reflexivity|]. split.
      * intros q. destruct (path_eqb_spec (rev rp ++ [a]) q) as [<-|N].
        -- right. rewrite upd_same, is_prefix_refl. auto.
        -- rewrite upd_other by assumption.
           destruct (C q) as [->|(? & ? & ?)]; [now left | right].
           repeat split; auto. now apply is_prefix_snoc.
      * intros W. apply wf_upd_some; auto.
        intros q c Hq. apply app_inj_tail in Hq as [<- _]. assumption.
Qed.

(* ================================================================== *)
(** ** Running the monad                                               *)
(* ================================================================== *)

Ltac run_monad :=
  repeat progress
    cbv beta iota delta
      [bind ret raise emit get_fs put_fs path_exists path_is_dir rmtree unlink
       mkdir_parents copytree copy2 write_text read_text try_finally
       exists_at is_dir_at files log fst snd andb negb] in *.

Lemma bind_unfold (A B : Type) (m : M A) (k : A -> M B) (s : state) :
  bind m k s =
  match m s with
  | (Ok a, s') => k a s'
  | (Raise e, s') => (Raise e, s')
  end.
Proof. reflexivity. Qed.

Lemma bind_inv (A B : Type) (m : M A) (k : A -> M B) (s s' : state)
    (r : result B) :
  bind m k s = (r, s') ->
  (exists a s1, m s = (Ok a, s1) /\ k a s1 = (r, s')) \/
  (exists e, m s = (Raise e, s') /\ r = Raise e).
Proof.
  unfold bind. destruct (m s) as [[a|e] s1]; intros H.
  - left. eauto.
  - right. inversion H; subst. eauto.
Qed.

Lemma run_path_exists (p : path) (s : state) :
  path_exists p s = (Ok (exists_at (files s) p), s).
Proof. reflexivity. Qed.

Lemma run_path_is_dir (p : path) (s : state) :
  path_is_dir p s = (Ok (is_dir_at (files s) p), s).
Proof. reflexivity. Qed.

Lemma run_emit (e : event) (s : state) :
  emit e s = (Ok tt, mkState (files s) (log s ++ [e])).
Proof. reflexivity. Qed.

Lemma run_mkdir_parents (p : path) (s : state) :
  mkdir_parents p s =
  match mkdir_rev (rev p) (files s) with
  | Ok f' => (Ok tt, mkState f' (log s))
  | Raise e => (Raise e, s)
  end.
Proof.
  destruct s as [f l]. run_monad. now destruct (mkdir_rev (rev p) f).
Qed.

(* ================================================================== *)
(** ** One iteration of the copy loop, case by case                    *)
(* ================================================================== *)

Lemma cleared_dst (dst : path) (f : fs) : cleared dst f dst = None.
Proof.
  unfold cleared. destruct (f dst) as [[d|]|] eqn:E.
  - apply upd_same.
  - unfold remove_tree. now rewrite is_prefix_refl.
  - assumption.
Qed.

Lemma run_clear (dst : path) (s : state) :
  (if exists_at (files s) dst then
     dst_is_dir <- path_is_dir dst ;;
     if dst_is_dir then rmtree dst else unlink dst
   else ret tt) s
  = (Ok tt, mkState (cleared dst (files s)) (log s)).
Proof.
  destruct s as [f l]. unfold cleared. run_monad.
  destruct (f dst) as [[d|]|] eqn:E; run_monad; rewrite ?E; reflexivity.
Qed.

Lemma run_copy (src dst : path) (s : state) :
  files s dst = None -> files s (parent dst) = Some Dir ->
  (if is_dir_at (files s) src then copytree src dst else copy2 src dst) s
  = match files s src with
    | Some Dir =>
        (Ok tt, mkState (graft dst (subtree (files s) src) (files s)) (log s))
    | Some (File d) =>
        (Ok tt, mkState (upd dst (Some (File d)) (files s)) (log s))
    | None => (Raise FileNotFoundError, s)
    end.
Proof.
  destruct s as [f l]. cbn [files log]. intros Hd Hp. run_monad.
  destruct (f src) as [[d|]|] eqn:E; run_monad;
    rewrite ?E, ?Hd; run_monad; rewrite ?Hd, ?Hp; reflexivity.
Qed.

(** [mkdir -p] of the parent cannot create the destination itself. *)
Lemma mkdir_parent_keeps (dst : path) (f f2 : fs) :
  f dst = None -> mkdir_rev (rev (parent dst)) f = Ok f2 -> f2 dst = None.
Proof.
  intros Hd H. unfold parent in H.
  induction dst as [|a dst' _] using rev_ind.
  - simpl in H. rewrite Hd in H. discriminate.
  - rewrite removelast_last in H.
    apply mkdir_rev_spec in H as (_ & C & _). rewrite rev_involutive in C.
    destruct (C (dst' ++ [a])) as [->|(_ & _ & P)]; [assumption|].
    exfalso. apply is_prefix_true in P as [r P].
    rewrite <- app_assoc in P.
    symmetry in P. apply app_neq_self in P; [assumption | discriminate].
Qed.

Section CopyStep.

Variables (tmp_dir target : path) (force : bool) (p : string).

Let src := joinpath tmp_dir p.
Let dst := joinpath target p.

Lemma copy_path_step (s : state) (r : result unit) (s' : state) :
  copy_path tmp_dir target force p s = (r, s') ->
  copy_step tmp_dir target force p s r s'.
Proof.
  unfold copy_path. fold src dst.
  rewrite bind_unfold, run_path_exists.
  destruct (exists_at (files s) src) eqn:Hs; cbn [negb].
  2:{ rewrite run_emit. intros [= <- <-]. apply step_missing. fold src.
      unfold exists_at in Hs. now destruct (files s src). }
  assert (Hs' : files s src <> None).
  { unfold exists_at in Hs. now destruct (files s src). }
  rewrite bind_unfold, run_path_exists.
  destruct (exists_at (files s) dst && negb force) eqn:Hd.
  { rewrite run_emit. intros [= <- <-].
    apply andb_true_iff in Hd as [Hd Hf]. apply negb_true_iff in Hf.
    apply step_existing; fold src dst; auto.
    unfold exists_at in Hd. now destruct (files s dst). }
  assert (Hd' : files s dst = None \/ force = true).
  { apply andb_false_iff in Hd as [Hd|Hf].
    - left. unfold exists_at in Hd. now destruct (files s dst).
    - right. now apply negb_false_iff in Hf. }
  cbv iota. rewrite bind_unfold, run_path_exists.
  cbv iota. rewrite bind_unfold, run_clear.
  rewrite bind_unfold, run_mkdir_parents. cbn [files log].
  destruct (mkdir_rev (rev (parent dst)) (cleared dst (files s))) as [f2|e] eqn:Hm.
  2:{ intros [= <- <-]. apply step_mkdir_fails; fold src dst; assumption. }
  assert (H2 : f2 dst = None).
  { eapply mkdir_parent_keeps; [apply cleared_dst | exact Hm]. }
  assert (Hp : f2 (parent dst) = Some Dir).
  { apply mkdir_rev_spec in Hm as (D & _). now rewrite rev_involutive in D. }
  rewrite bind_unfold, run_path_is_dir. cbv iota.
  rewrite bind_unfold, run_copy by assumption. cbn [files log].
  destruct (f2 src) as [[d|]|] eqn:E2.
  - rewrite run_emit. intros [= <- <-]. apply step_copy_file; fold src dst; assumption.
  - rewrite run_emit. intros [= <- <-]. apply step_copy_tree; fold src dst; assumption.
  - intros [= <- <-]. apply step_source_gone; fold src dst; assumption.
Qed.

End CopyStep.

(* ================================================================== *)
(** ** The manifest stage, in closed form                              *)
(* ================================================================== *)

Lemma run_write_text (p : path) (data : string) (s : state) :
  write_text p data s =
  match files s p with
  | Some Dir => (Raise IsADirectoryError, s)
  | _ => if is_dir_at (files s) (parent p)
         then (Ok tt, mkState (upd p (Some (File data)) (files s)) (log s))
         else (Raise FileNotFoundError, s)
  end.
Proof.
  destruct s as [f l]. run_monad.
  destruct (f p) as [[d|]|]; try reflexivity;
    destruct (f (parent p)) as [[d'|]|]; reflexivity.
Qed.

Lemma run_read_text (p : path) (s : state) :
  read_text p s =
  match files s p with
  | Some (File d) => (Ok d, s)
  | Some Dir => (Raise IsADirectoryError, s)
  | None => (Raise FileNotFoundError, s)
  end.
Proof.
  destruct s as [f l]. run_monad. now destruct (f p) as [[d|]|].
Qed.

Lemma run_for_each_emit (A : Type) (g : A -> event) (xs : list A) (s : state) :
  for_each xs (fun x => emit (g x)) s
  = (Ok tt, mkState (files s) (log s ++ map g xs)).
Proof.
  revert s. induction xs as [|x xs IH]; intros [f l]; simpl.
  - now rewrite app_nil_r.
  - rewrite bind_unfold, run_emit, IH. cbn [files log].
    now rewrite <- app_assoc.
Qed.

Lemma parent_template_path (target : path) :
  parent (template_path target) = target ++ [".github"].
Proof.
  unfold parent, template_path.
  change [".github"; "template.yml"] with ([".github"] ++ ["template.yml"]).
  now rewrite app_assoc, removelast_last.
Qed.

Section LoadConfig.

Variable E : env.
Variables (target : path) (branch : string).

Let tf := template_path target.
Let default_text := yaml_dump E (default_manifest branch).

Lemma load_config_eq (f : fs) (l : list event) :
  load_config E target branch (mkState f l) =
  if is_dir_at f (target ++ [".git"]) then
    match mkdir_rev (rev (target ++ [".github"])) f with
    | Raise e => (Raise e, mkState f (l ++ intro_log target branch))
    | Ok f1 =>
        let f2 := ensured E target branch f1 in
        let l2 := l ++ intro_log target branch ++ ensure_log target f1 in
        match f2 tf with
        | None => (Raise FileNotFoundError, mkState f2 l2)
        | Some Dir => (Raise IsADirectoryError, mkState f2 l2)
        | Some (File text) =>
            match yaml_safe_load E text with
            | None => (Raise LoadError, mkState f2 l2)
            | Some config =>
                match manifest_include config with
                | [] => (Raise (SystemExit 1), mkState f2 (l2 ++ [empty_manifest]))
                | p :: ps =>
                    (Ok (template_repository config,
                         manifest_branch config branch, p :: ps),
                     mkState f2 (l2 ++ include_log (p :: ps)))
                end
            end
        end
    end
  else (Raise (SystemExit 1), mkState f (l ++ [not_a_repository target])).
Proof.
  unfold load_config. cbv zeta. fold tf.
  rewrite bind_unfold, run_path_is_dir. cbn [files].
  destruct (is_dir_at f (target ++ [".git"])) eqn:Hg; cbn [negb]; cbv iota.
  2:{ rewrite bind_unfold, run_emit. reflexivity. }
  rewrite bind_unfold, run_emit. rewrite bind_unfold, run_emit.
  cbn [files log]. rewrite <- app_assoc. cbn [app].
  unfold tf at 1. rewrite parent_template_path.
  rewrite bind_unfold, run_mkdir_parents. cbn [files log].
  destruct (mkdir_rev (rev (target ++ [".github"])) f) as [f1|e] eqn:Hm;
    [|reflexivity].
  assert (Hp : is_dir_at f1 (parent tf) = true).
  { unfold tf. rewrite parent_template_path. unfold is_dir_at.
    apply mkdir_rev_spec in Hm as (D & _). rewrite rev_involutive in D.
    now rewrite D. }
  rewrite bind_unfold, run_path_exists. cbn [files].
  unfold ensured, ensure_log, exists_at, intro_log. fold tf default_text.
  destruct (f1 tf) as [e1|] eqn:H1; cbn [negb]; cbv iota.
  - rewrite bind_unfold, run_emit. cbn [files log].
    rewrite bind_unfold, run_read_text. cbn [files log]. rewrite H1.
    rewrite <- !app_assoc. cbn [app].
    destruct e1 as [text|]; [|reflexivity].
    destruct (yaml_safe_load E text) as [config|]; [|reflexivity].
    destruct (manifest_include config) as [|p ps] eqn:Hi.
    + rewrite bind_unfold, run_emit. cbn [files log].
      rewrite <- !app_assoc. reflexivity.
    + rewrite bind_unfold, run_emit. cbn [files log].
      rewrite bind_unfold, run_for_each_emit. cbn [files log].
      rewrite <- !app_assoc. reflexivity.
  - rewrite bind_unfold, bind_unfold, run_emit. cbn [files log].
    rewrite bind_unfold, run_write_text. cbn [files log]. rewrite H1, Hp.
    rewrite run_emit. cbn [files log].
    rewrite bind_unfold, run_read_text. cbn [files log]. fold default_text.
    rewrite !upd_same. rewrite <- !app_assoc. cbn [app].
    destruct (yaml_safe_load E default_text) as [config|]; [|reflexivity].
    destruct (manifest_include config) as [|p ps] eqn:Hi.
    + rewrite bind_unfold, run_emit. cbn [files log].
      rewrite <- !app_assoc. reflexivity.
    + rewrite bind_unfold, run_emit. cbn [files log].
      rewrite bind_unfold, run_for_each_emit. cbn [files log].
      rewrite <- !app_assoc. reflexivity.
Qed.

End LoadConfig.

(* ================================================================== *)
(** ** The fetch stage, in closed form                                 *)
(* ================================================================== *)

Lemma run_rmtree (p : path) (s : state) :
  rmtree p s =
  match files s p with
  | Some Dir => (Ok tt, mkState (remove_tree p (files s)) (log s))
  | Some (File _) => (Raise NotADirectoryError, s)
  | None => (Raise FileNotFoundError, s)
  end.
Proof.
  destruct s as [f l]. run_monad. now destruct (f p) as [[d|]|].
Qed.

Lemma run_run_git (argv : list string) (cwd : option path) (tmp_dir : path)
    (res : bool * worktree) (s : state) :
  run_git argv cwd tmp_dir res s =
  (if fst res then Ok (snd res) else Raise CalledProcessError,
   mkState (graft tmp_dir (fs_of (snd res)) (files s)) (log s ++ [Exec argv cwd])).
Proof.
  destruct s as [f l]. unfold run_git. run_monad. now destruct res as [[|] w].
Qed.

Section Fetch.

Variable E : env.
Variables (target : path) (force : bool).
Variables (rhiza_repo : option string) (rhiza_branch : string)
          (include_paths : list string).

Let tmp_dir := scratch E.

Lemma fetch_and_copy_eq (f : fs) (l : list event) :
  fetch_and_copy E tmp_dir target force rhiza_repo rhiza_branch include_paths
    (mkState f l) =
  let c1 := cloned E rhiza_repo rhiza_branch in
  let c2 := sparse_ready E rhiza_repo rhiza_branch in
  let c3 := checked_out E rhiza_repo rhiza_branch include_paths in
  let f1 := graft tmp_dir (fs_of (snd c1)) f in
  let f2 := graft tmp_dir (fs_of (snd c2)) f1 in
  let f3 := fetched E rhiza_repo rhiza_branch include_paths f in
  let l1 := l ++ [clone_call E rhiza_repo rhiza_branch] in
  let l2 := l ++ [clone_call E rhiza_repo rhiza_branch; init_call E] in
  let l3 := l ++ [clone_call E rhiza_repo rhiza_branch; init_call E;
                  set_call E include_paths] in
  if fst c1 then
    if fst c2 then
      if fst c3 then
        for_each include_paths (copy_path tmp_dir target force) (mkState f3 l3)
      else (Raise CalledProcessError, mkState f3 l3)
    else (Raise CalledProcessError, mkState f2 l2)
  else (Raise CalledProcessError, mkState f1 l1).
Proof.
  unfold fetch_and_copy, fetched, clone_call, init_call, set_call.
  fold tmp_dir. cbv zeta.
  rewrite bind_unfold, run_run_git. cbn [files log].
  fold (cloned E rhiza_repo rhiza_branch).
  destruct (fst (cloned E rhiza_repo rhiza_branch)); [|reflexivity].
  rewrite bind_unfold, run_run_git. cbn [files log].
  fold (sparse_ready E rhiza_repo rhiza_branch).
  rewrite <- app_assoc. cbn [app].
  destruct (fst (sparse_ready E rhiza_repo rhiza_branch)); [|reflexivity].
  rewrite bind_unfold, run_run_git. cbn [files log].
  fold (checked_out E rhiza_repo rhiza_branch include_paths).
  rewrite <- app_assoc. cbn [app].
  destruct (fst (checked_out E rhiza_repo rhiza_branch include_paths));
    reflexivity.
Qed.

Lemma materialize_eq (f : fs) (l : list event) :
  materialize E target force (rhiza_repo, rhiza_branch, include_paths)
    (mkState f l) =
  match f tmp_dir with
  | Some _ => (Raise FileExistsError, mkState f l)
  | None =>
      if is_dir_at f (parent tmp_dir) then
        try_finally
          (fetch_and_copy E tmp_dir target force rhiza_repo rhiza_branch
             include_paths)
          (rmtree tmp_dir)
          (mkState (upd tmp_dir (Some Dir) f)
             (l ++ [Mkdtemp tmp_dir; cloning rhiza_repo rhiza_branch]))
      else (Raise FileNotFoundError, mkState f l)
  end.
Proof.
  unfold materialize, mkdtemp. fold tmp_dir.
  run_monad. destruct (f tmp_dir) as [e|]; [reflexivity|].
  destruct (f (parent tmp_dir)) as [[d|]|]; try reflexivity.
  run_monad. unfold cloning. rewrite <- app_assoc. reflexivity.
Qed.

End Fetch.

Lemma inject_eq (E : env) (target : path) (branch : string) (force : bool)
    (s : state) :
  inject E target branch force s =
  match load_config E target branch s with
  | (Ok cfg, s1) =>
      match materialize E target force cfg s1 with
      | (Ok _, s2) =>
          (Ok tt,
           mkState (files s2)
             (log s2 ++ [Success "Rhiza templates materialized successfully";
                         Info next_steps]))
      | (Raise e, s2) => (Raise e, s2)
      end
  | (Raise e, s1) => (Raise e, s1)
  end.
Proof.
  unfold inject. rewrite bind_unfold.
  destruct (load_config E target branch s) as [[cfg|e] s1]; [|reflexivity].
  rewrite bind_unfold.
  destruct (materialize E target force cfg s1) as [[[]|e] s2]; [|reflexivity].
  rewrite bind_unfold, run_emit, run_emit. cbn [files log].
  now rewrite <- app_assoc.
Qed.

(* ================================================================== *)
(** ** Claims about the manifest stage                                 *)
(* ================================================================== *)

(** C5.  When [target/.git] is not a directory, [inject] exits with status 1
    after logging the error; the file system is exactly the one it started
    from, so neither [.github] nor the manifest is created. *)
Theorem not_a_repository_aborts (E : env) (target : path) (branch : string)
    (force : bool) (f : fs) (l : list event) :
  is_dir_at f (target ++ [".git"]) = false ->
  inject E target branch force (mkState f l)
  = (Raise (SystemExit 1), mkState f (l ++ [not_a_repository target])).
Proof.
  intros H. now rewrite inject_eq, load_config_eq, H.
Qed.

Lemma mkdir_rev_existing (p : path) (f : fs) :
  f p = Some Dir -> mkdir_rev (rev p) f = Ok f.
Proof.
  intros H. destruct (rev p) as [|a rp] eqn:Hr; simpl.
  - apply (f_equal (@rev string)) in Hr. rewrite rev_involutive in Hr.
    simpl in Hr. subst. now rewrite H.
  - apply (f_equal (@rev string)) in Hr. rewrite rev_involutive in Hr.
    simpl in Hr. rewrite <- Hr, H. reflexivity.
Qed.

Lemma template_dir_exists (target : path) (f : fs) :
  wf f -> f (template_path target) <> None ->
  f (target ++ [".github"]) = Some Dir.
Proof.
  intros W H. rewrite <- parent_template_path.
  apply wf_parent; auto. unfold template_path. now destruct target.
Qed.

(** C4.  A manifest whose [include] is absent or the empty sequence makes
    [inject] exit with status 1 right after the manifest is read: the events
    of the run hold no scratch directory and no [git] call, and the file
    system is untouched. *)
Theorem empty_manifest_aborts (E : env) (target : path) (branch : string)
    (force : bool) (f : fs) (l : list event) (text : string)
    (config : manifest) :
  wf f ->
  is_dir_at f (target ++ [".git"]) = true ->
  f (template_path target) = Some (File text) ->
  yaml_safe_load E text = Some config ->
  include config = None \/ include config = Some [] ->
  inject E target branch force (mkState f l)
  = (Raise (SystemExit 1),
     mkState f (l ++ intro_log target branch
                  ++ [Info "Using existing .github/template.yml";
                      empty_manifest])).
Proof.
  intros W Hg Ht Hl Hi.
  assert (Hd : f (target ++ [".github"]) = Some Dir).
  { apply template_dir_exists; [assumption | congruence]. }
  assert (He : manifest_include config = []).
  { unfold manifest_include. now destruct Hi as [-> | ->]. }
  rewrite inject_eq, load_config_eq, Hg, (mkdir_rev_existing _ _ Hd).
  cbv zeta. unfold ensured, ensure_log. rewrite Ht. cbv iota.
  rewrite Ht, Hl, He.
  now rewrite <- !app_assoc.
Qed.

Lemma mkdir_rev_child (p : path) (c : string) (f : fs) :
  f p = Some Dir -> f (p ++ [c]) = None ->
  mkdir_rev (rev (p ++ [c])) f = Ok (upd (p ++ [c]) (Some Dir) f).
Proof.
  intros Hp Hc. rewrite rev_unit. simpl. rewrite rev_involutive.
  now rewrite Hc, Hp.
Qed.

Lemma template_path_neq (target : path) :
  target ++ [".github"] <> template_path target.
Proof.
  unfold template_path.
  change [".github"; "template.yml"] with ([".github"] ++ ["template.yml"]).
  rewrite app_assoc. intros H. symmetry in H. now apply snoc_neq in H.
Qed.

(** C8 (as amended).  In a repository without [.github/template.yml] and
    whose [.github], if present, is a directory, the manifest stage writes the
    default manifest - [jebel-quant/rhiza], the caller's branch, the fixed
    six-entry include list - reads it back and hands exactly these values to
    the fetch stage; nothing else in the file system changes, and the
    empty-manifest exit is not taken.  The YAML library is assumed to read
    back the default manifest it wrote. *)
Theorem default_manifest_created (E : env) (target : path) (branch : string)
    (force : bool) (f : fs) (l : list event) :
  wf f ->
  is_dir_at f (target ++ [".git"]) = true ->
  f (template_path target) = None ->
  (forall d, f (target ++ [".github"]) <> Some (File d)) ->
  yaml_safe_load E (yaml_dump E (default_manifest branch))
    = Some (default_manifest branch) ->
  exists f1,
    let s1 := mkState f1
      (l ++ intro_log target branch
         ++ [Info "Creating default .github/template.yml";
             Success ".github/template.yml created"]
         ++ include_log default_include) in
    load_config E target branch (mkState f l)
      = (Ok (Some "jebel-quant/rhiza", branch, default_include), s1)
    /\ f1 (template_path target)
       = Some (File (yaml_dump E (default_manifest branch)))
    /\ f1 (target ++ [".github"]) = Some Dir
    /\ (forall q, q <> template_path target -> q <> target ++ [".github"] ->
                  f1 q = f q)
    /\ inject E target branch force (mkState f l)
       = (materialize E target force
            (Some "jebel-quant/rhiza", branch, default_include) ;;
          emit (Success "Rhiza templates materialized successfully") ;;
          emit (Info next_steps)) s1.
Proof.
  intros W Hg Ht Hd Hl.
  assert (Htar : f target = Some Dir).
  { apply (W target ".git"). unfold is_dir_at in Hg.
    destruct (f (target ++ [".git"])); [discriminate | discriminate]. }
  set (gh := target ++ [".github"]) in *.
  set (f0 := match f gh with None => upd gh (Some Dir) f | Some _ => f end).
  assert (Hm : mkdir_rev (rev gh) f = Ok f0).
  { unfold f0. destruct (f gh) as [[d|]|] eqn:Eg.
    - now elim (Hd d).
    - now apply mkdir_rev_existing.
    - now apply mkdir_rev_child. }
  assert (H0 : forall q, q <> gh -> f0 q = f q).
  { intros q Hq. unfold f0. destruct (f gh); [reflexivity|].
    apply upd_other. congruence. }
  assert (Hgh : f0 gh = Some Dir).
  { unfold f0. destruct (f gh) as [[d|]|] eqn:Eg.
    - now elim (Hd d).
    - assumption.
    - apply upd_same. }
  assert (Ht0 : f0 (template_path target) = None).
  { rewrite H0; [assumption|]. intros H. symmetry in H.
    now apply template_path_neq in H. }
  exists (ensured E target branch f0). cbv zeta.
  assert (Hload : load_config E target branch (mkState f l)
    = (Ok (Some "jebel-quant/rhiza", branch, default_include),
       mkState (ensured E target branch f0)
         (l ++ intro_log target branch
            ++ [Info "Creating default .github/template.yml";
                Success ".github/template.yml created"]
            ++ include_log default_include))).
  { rewrite load_config_eq, Hg. fold gh. rewrite Hm. cbv zeta.
    unfold ensured, ensure_log. rewrite Ht0. rewrite upd_same, Hl.
    cbn [manifest_include default_manifest include default_include
         template_repository manifest_branch template_branch].
    now rewrite <- !app_assoc. }
  split; [exact Hload|].
  unfold ensured. rewrite Ht0.
  split; [apply upd_same|].
  split; [rewrite upd_other; [assumption | apply not_eq_sym, template_path_neq]|].
  split.
  - intros q Hq1 Hq2. rewrite upd_other by congruence. now apply H0.
  - unfold inject. rewrite bind_unfold, Hload. unfold ensured.
    now rewrite Ht0.
Qed.

(* ================================================================== *)
(** ** Invariants of the copy loop                                     *)
(* ================================================================== *)

Lemma for_each_inv (A : Type) (I : state -> Prop) (body : A -> M unit)
    (xs : list A) :
  (forall x s r s', In x xs -> I s -> body x s = (r, s') -> I s') ->
  forall s r s', I s -> for_each xs body s = (r, s') -> I s'.
Proof.
  induction xs as [|x xs IH]; intros Hb s r s' Hs H; simpl in H.
  - inversion H; subst. assumption.
  - apply bind_inv in H as [(a & s1 & H1 & H2)|(e & H1 & _)].
    + apply (IH (fun y t u t' Hy => Hb y t u t' (or_intror Hy)) s1 r s');
        [|assumption].
      eapply Hb; [left; reflexivity | exact Hs | exact H1].
    + eapply Hb; [left; reflexivity | exact Hs | exact H1].
Qed.

Lemma extends_refl (s : state) : extends s s.
Proof. exists []. now rewrite app_nil_r. Qed.

Lemma extends_trans (s1 s2 s3 : state) :
  extends s1 s2 -> extends s2 s3 -> extends s1 s3.
Proof.
  intros [t1 H1] [t2 H2]. exists (t1 ++ t2). now rewrite H2, H1, app_assoc.
Qed.

(** [src] and [dst] of one iteration: the same absolute path, or the same
    relative path below the scratch directory and below the target. *)
Lemma joinpath_cases (tmp_dir target : path) (p : string) :
  (is_absolute p = true /\ joinpath tmp_dir p = parts p
                       /\ joinpath target p = parts p) \/
  (is_absolute p = false /\ joinpath tmp_dir p = tmp_dir ++ parts p
                        /\ joinpath target p = target ++ parts p).
Proof.
  unfold joinpath. destruct (is_absolute p); [left | right]; auto.
Qed.

Lemma cleared_cases (dst : path) (f : fs) (q : path) :
  cleared dst f q = f q \/
  (cleared dst f q = None /\ is_prefix dst q = true).
Proof.
  unfold cleared. destruct (f dst) as [[d|]|] eqn:E; auto.
  - unfold upd. destruct (path_eqb_spec dst q) as [->|]; auto.
    right. split; [reflexivity | apply is_prefix_refl].
  - unfold remove_tree. destruct (is_prefix dst q); auto.
Qed.

Lemma wf_cleared (dst : path) (f : fs) : wf f -> wf (cleared dst f).
Proof.
  intros W. unfold cleared. destruct (f dst) as [[d|]|] eqn:E; auto.
  - apply wf_upd_none; [assumption | congruence].
  - now apply wf_remove_tree.
Qed.

Section LoopInvariants.

Variables (tmp_dir target : path) (force : bool).

Lemma copy_step_extends (p : string) (s : state) (r : result unit) (s' : state) :
  copy_step tmp_dir target force p s r s' -> extends s s'.
Proof.
  intros H. destruct H; unfold extends; cbn [log];
    first [ eexists; reflexivity | exists []; now rewrite app_nil_r ].
Qed.

Lemma copy_step_wf (p : string) (s : state) (r : result unit) (s' : state) :
  wf (files s) -> copy_step tmp_dir target force p s r s' -> wf (files s').
Proof.
  intros W H. destruct H; cbn [files]; auto using wf_cleared.
  - apply mkdir_rev_spec in H1 as (_ & _ & W2). auto using wf_cleared.
  - pose proof H1 as Hm. apply mkdir_rev_spec in H1 as (D & _ & W2).
    rewrite rev_involutive in D.
    apply wf_graft; [auto using wf_cleared | apply wf_subtree; auto using wf_cleared|].
    intros _ q c Hq. rewrite Hq in D. unfold parent in D.
    now rewrite removelast_last in D.
  - apply mkdir_rev_spec in H1 as (D & _ & W2).
    rewrite rev_involutive in D.
    apply wf_upd_some; [auto using wf_cleared | | right; congruence].
    intros q c Hq. rewrite Hq in D. unfold parent in D.
    now rewrite removelast_last in D.
Qed.

(** The scratch directory never turns into a regular file. *)
Lemma copy_step_scratch (p : string) (s : state) (r : result unit) (s' : state) :
  wf (files s) -> (forall d, files s tmp_dir <> Some (File d)) ->
  copy_step tmp_dir target force p s r s' ->
  forall d, files s' tmp_dir <> Some (File d).
Proof.
  intros W K H.
  assert (Kc : forall d, cleared (joinpath target p) (files s) tmp_dir
                         <> Some (File d)).
  { intros d. destruct (cleared_cases (joinpath target p) (files s) tmp_dir)
      as [->|[-> _]]; [apply K | discriminate]. }
  assert (Km : forall f2, mkdir_rev (rev (parent (joinpath target p)))
                 (cleared (joinpath target p) (files s)) = Ok f2 ->
               forall d, f2 tmp_dir <> Some (File d)).
  { intros f2 Hm d. apply mkdir_rev_spec in Hm as (_ & C & _).
    destruct (C tmp_dir) as [->|(_ & -> & _)]; [apply Kc | discriminate]. }
  assert (Wm : forall f2, mkdir_rev (rev (parent (joinpath target p)))
                 (cleared (joinpath target p) (files s)) = Ok f2 -> wf f2).
  { intros f2 Hm. apply mkdir_rev_spec in Hm as (_ & _ & W2).
    auto using wf_cleared. }
  destruct H; cbn [files]; auto.
  - (* a directory is copied *)
    intros d. unfold graft, subtree.
    destruct (strip_prefix (joinpath target p) tmp_dir) as [r|] eqn:Es;
      [|now apply Km].
    apply strip_prefix_Some in Es.
    destruct r as [|c r]; [rewrite app_nil_r; congruence|].
    assert (Ht : f2 tmp_dir = None).
    { rewrite Es. apply wf_below; [auto | congruence | discriminate]. }
    intros Hf.
    destruct (joinpath_cases tmp_dir target p) as [(_ & Ea & Eb)|(_ & Ea & Eb)].
    + rewrite Ea, <- Eb in H2. congruence.
    + rewrite Ea in H2. destruct (parts p) as [|c' r'].
      * rewrite app_nil_r in H2. congruence.
      * assert (f2 tmp_dir = Some Dir); [|congruence].
        apply (wf_ancestor f2 tmp_dir (c' :: r'));
          [auto | congruence | discriminate].
  - (* a file is copied *)
    intros d'. unfold upd.
    destruct (path_eqb_spec (joinpath target p) tmp_dir) as [Ed|]; [|now apply Km].
    exfalso.
    destruct (joinpath_cases tmp_dir target p) as [(_ & Ea & Eb)|(_ & Ea & Eb)].
    + rewrite Ea, <- Eb in H2. congruence.
    + rewrite Ea, <- Ed in H2. destruct (parts p) as [|c' r'].
      * rewrite app_nil_r in H2. congruence.
      * rewrite wf_below in H2; [discriminate | auto | congruence | discriminate].
Qed.

End LoopInvariants.

(* ================================================================== *)
(** ** What the manifest stage does to the file system                 *)
(* ================================================================== *)

Lemma grows_refl (f : fs) : grows f f.
Proof. intros q e H. exact H. Qed.

Lemma grows_trans (f g h : fs) : grows f g -> grows g h -> grows f h.
Proof. intros A B q e H. apply B, A, H. Qed.

Lemma grows_upd (p : path) (e : option entry) (f : fs) :
  f p = None -> grows f (upd p e f).
Proof.
  intros H q x Hq. rewrite upd_other; [assumption | congruence].
Qed.

Lemma grows_mkdir (rp : list string) (f f' : fs) :
  mkdir_rev rp f = Ok f' -> grows f f'.
Proof.
  intros H q e Hq. apply mkdir_rev_spec in H as (_ & C & _).
  destruct (C q) as [->|(N & _)]; congruence.
Qed.

Lemma include_log_lines (l : list string) : Forall logger_line (include_log l).
Proof.
  unfold include_log. constructor; [exact I|].
  induction l; simpl; constructor; [exact I | assumption].
Qed.

Lemma wf_ensured (E : env) (target : path) (branch : string) (f f1 : fs) :
  wf f -> mkdir_rev (rev (target ++ [".github"])) f = Ok f1 ->
  wf (ensured E target branch f1).
Proof.
  intros W Hm. apply mkdir_rev_spec in Hm as (D & _ & W1).
  rewrite rev_involutive in D. unfold ensured.
  destruct (f1 (template_path target)) eqn:Et; [auto|].
  apply wf_upd_some; [auto | | right; congruence].
  intros q c Hq. rewrite <- parent_template_path in D.
  rewrite Hq in D. unfold parent in D. now rewrite removelast_last in D.
Qed.

Lemma grows_ensured (E : env) (target : path) (branch : string) (f1 : fs) :
  grows f1 (ensured E target branch f1).
Proof.
  unfold ensured. destruct (f1 (template_path target)) eqn:Et.
  - apply grows_refl.
  - now apply grows_upd.
Qed.

Lemma load_config_props (E : env) (target : path) (branch : string)
    (f : fs) (l : list event) r (s1 : state) :
  load_config E target branch (mkState f l) = (r, s1) ->
  (wf f -> wf (files s1)) /\
  grows f (files s1) /\
  exists t, log s1 = l ++ t /\ Forall logger_line t.
Proof.
  rewrite load_config_eq.
  destruct (is_dir_at f (target ++ [".git"])).
  2:{ intros [= <- <-]. cbn [files log]. repeat split; auto using grows_refl.
      eexists. split; [reflexivity|]. repeat constructor. }
  destruct (mkdir_rev (rev (target ++ [".github"])) f) as [f1|e] eqn:Hm.
  2:{ intros [= <- <-]. cbn [files log]. repeat split; auto using grows_refl.
      eexists. split; [reflexivity|]. repeat constructor. }
  cbv zeta. intros H.
  assert (Hl : Forall logger_line
                 (intro_log target branch ++ ensure_log target f1)).
  { apply Forall_app. split; [repeat constructor|].
    unfold ensure_log. destruct (f1 _); repeat constructor. }
  assert (Hf : (wf f -> wf (ensured E target branch f1)) /\
               grows f (ensured E target branch f1)).
  { split; [intros W; eapply wf_ensured; eauto|].
    eapply grows_trans; [eapply grows_mkdir; eauto | apply grows_ensured]. }
  destruct (ensured E target branch f1 (template_path target)) as [[text|]|].
  - destruct (yaml_safe_load E text) as [config|].
    + destruct (manifest_include config) as [|p ps].
      * inversion H; subst; clear H. cbn [files log].
        destruct Hf. repeat split; auto.
        exists ((intro_log target branch ++ ensure_log target f1)
                  ++ [empty_manifest]).
        split; [now rewrite <- !app_assoc|].
        apply Forall_app. split; [assumption | repeat constructor].
      * inversion H; subst; clear H. cbn [files log].
        destruct Hf. repeat split; auto.
        exists ((intro_log target branch ++ ensure_log target f1)
                  ++ include_log (p :: ps)).
        split; [now rewrite <- !app_assoc|].
        apply Forall_app. split; [assumption | apply include_log_lines].
    + inversion H; subst; clear H. cbn [files log].
      destruct Hf. repeat split; auto. eexists. split; [reflexivity | assumption].
  - inversion H; subst; clear H. cbn [files log].
    destruct Hf. repeat split; auto. eexists. split; [reflexivity | assumption].
  - inversion H; subst; clear H. cbn [files log].
    destruct Hf. repeat split; auto. eexists. split; [reflexivity | assumption].
Qed.

(* ================================================================== *)
(** ** The scratch workspace                                           *)
(* ================================================================== *)

Lemma graft_root (tmp_dir : path) (w : worktree) (f : fs) :
  graft tmp_dir (fs_of w) f tmp_dir = Some Dir.
Proof. unfold graft. now rewrite strip_prefix_nil. Qed.

Lemma wf_mount (tmp_dir : path) (w : worktree) (f : fs) :
  wf f -> f tmp_dir = Some Dir -> wf (graft tmp_dir (fs_of w) f).
Proof.
  intros W H. apply wf_graft; [assumption | apply fs_of_wf|].
  intros _ q c Hq. apply (W q c). rewrite <- Hq. congruence.
Qed.

Lemma copy_loop_scratch (tmp_dir target : path) (force : bool)
    (xs : list string) (s : state) r (s' : state) :
  scratch_state tmp_dir s ->
  for_each xs (copy_path tmp_dir target force) s = (r, s') ->
  scratch_state tmp_dir s'.
Proof.
  apply for_each_inv. clear. intros p s r s' _ [W K] H.
  apply copy_path_step in H. split.
  - eapply copy_step_wf; eauto.
  - eapply copy_step_scratch; eauto.
Qed.

Lemma fetch_and_copy_scratch (E : env) (target : path) (force : bool)
    (repo : option string) (br : string) (incl : list string)
    (f : fs) (l : list event) r (s' : state) :
  wf f -> f (scratch E) = Some Dir ->
  fetch_and_copy E (scratch E) target force repo br incl (mkState f l) = (r, s') ->
  scratch_state (scratch E) s'.
Proof.
  intros W D. rewrite fetch_and_copy_eq. cbv zeta.
  set (f1 := graft (scratch E) (fs_of (snd (cloned E repo br))) f).
  set (f2 := graft (scratch E) (fs_of (snd (sparse_ready E repo br))) f1).
  assert (W1 : wf f1) by now apply wf_mount.
  assert (D1 : f1 (scratch E) = Some Dir) by apply graft_root.
  assert (W2 : wf f2) by now apply wf_mount.
  assert (D2 : f2 (scratch E) = Some Dir) by apply graft_root.
  assert (W3 : wf (fetched E repo br incl f)) by now apply wf_mount.
  assert (D3 : fetched E repo br incl f (scratch E) = Some Dir)
    by apply graft_root.
  destruct (fst (cloned E repo br)).
  2:{ intros [= <- <-]. split; cbn [files]; [assumption | congruence]. }
  destruct (fst (sparse_ready E repo br)).
  2:{ intros [= <- <-]. split; cbn [files]; [assumption | congruence]. }
  destruct (fst (checked_out E repo br incl)).
  2:{ intros [= <- <-]. split; cbn [files]; [assumption | congruence]. }
  apply copy_loop_scratch. split; cbn [files]; [assumption | congruence].
Qed.

Lemma rmtree_scratch_gone (tmp_dir : path) (s : state) r (s' : state) :
  scratch_state tmp_dir s -> rmtree tmp_dir s = (r, s') ->
  forall q, is_prefix tmp_dir q = true -> files s' q = None.
Proof.
  intros [W K]. rewrite run_rmtree.
  destruct (files s tmp_dir) as [[d|]|] eqn:E.
  - now elim (K d).
  - intros [= <- <-] q Hq. cbn [files]. unfold remove_tree. now rewrite Hq.
  - intros [= <- <-] q Hq. apply is_prefix_true in Hq as [x ->].
    destruct x as [|c x]; [now rewrite app_nil_r|].
    apply wf_below; [assumption | congruence | discriminate].
Qed.

Lemma try_finally_inv (A : Type) (body : M A) (fin : M unit) (s : state)
    (r : result A) (s' : state) :
  try_finally body fin s = (r, s') ->
  exists rb sb rf, body s = (rb, sb) /\ fin sb = (rf, s') /\
    r = match rf with Ok _ => rb | Raise e => Raise e end.
Proof.
  unfold try_finally. destruct (body s) as [rb sb].
  destruct (fin sb) as [[[]|e] sf] eqn:Ef; intros [= <- <-];
    exists rb, sb; eauto.
Qed.

(** C3.  Whenever a run got as far as creating the scratch workspace, no
    entry at or below the scratch directory is left when [inject] returns or
    raises - whether the clone failed, a sparse-checkout command failed, a
    copy raised, or the run completed. *)
Theorem scratch_removed (E : env) (target : path) (branch : string)
    (force : bool) (f : fs) (r : result unit) (s' : state) :
  wf f ->
  inject E target branch force (init f) = (r, s') ->
  In (Mkdtemp (scratch E)) (log s') ->
  forall q, is_prefix (scratch E) q = true -> files s' q = None.
Proof.
  intros W. rewrite inject_eq. unfold init.
  destruct (load_config E target branch (mkState f [])) as [[cfg|e] [f1 l1]] eqn:Hl.
  2:{ intros [= <- <-] Hin. exfalso.
      apply load_config_props in Hl as (_ & _ & t & Ht & Hlines).
      cbn [log] in *. subst l1. simpl in Hin.
      rewrite Forall_forall in Hlines. exact (Hlines _ Hin). }
  apply load_config_props in Hl as (W1 & _ & t & Ht & Hlines).
  cbn [files log] in *. specialize (W1 W). simpl in Ht. subst l1.
  assert (Hno : ~ In (Mkdtemp (scratch E)) t).
  { intros Hin. rewrite Forall_forall in Hlines. exact (Hlines _ Hin). }
  destruct cfg as [[repo br] incl]. rewrite materialize_eq.
  destruct (f1 (scratch E)) as [e|] eqn:Es.
  { intros [= <- <-] Hin. contradiction. }
  destruct (is_dir_at f1 (parent (scratch E))) eqn:Ep.
  2:{ intros [= <- <-] Hin. contradiction. }
  destruct (try_finally _ _ _) as [rt st] eqn:Ht.
  apply try_finally_inv in Ht as (rb & sb & rf & Hb & Hf & _).
  apply fetch_and_copy_scratch in Hb.
  2:{ apply wf_upd_some; [assumption | | now left].
      intros q c Hq. unfold is_dir_at, parent in Ep. rewrite Hq in Ep.
      rewrite removelast_last in Ep.
      destruct (f1 q) as [[d|]|]; congruence. }
  2:{ apply upd_same. }
  pose proof (rmtree_scratch_gone _ _ _ _ Hb Hf) as G.
  destruct rt as [[]|e]; intros [= <- <-] _; exact G.
Qed.

(* ================================================================== *)
(** ** Claims about the fetch and the skipped paths                    *)
(* ================================================================== *)

Lemma graft_outside (dst : path) (t f : fs) (q : path) :
  is_prefix dst q = false -> graft dst t f q = f q.
Proof.
  unfold is_prefix, graft. now destruct (strip_prefix dst q).
Qed.

Lemma graft_inside (dst : path) (t f : fs) (r : path) :
  graft dst t f (dst ++ r) = t r.
Proof. unfold graft. now rewrite strip_prefix_app. Qed.

Lemma copy_loop_extends (tmp_dir target : path) (force : bool)
    (xs : list string) (s : state) r (s' : state) :
  for_each xs (copy_path tmp_dir target force) s = (r, s') -> extends s s'.
Proof.
  apply (for_each_inv string (extends s)); [|apply extends_refl].
  intros p s1 r1 s2 _ H1 H. apply copy_path_step, copy_step_extends in H.
  eapply extends_trans; eauto.
Qed.

Lemma fetch_and_copy_log (E : env) (target : path) (force : bool)
    (repo : option string) (br : string) (incl : list string)
    (f : fs) (l : list event) r (s' : state) :
  fetch_and_copy E (scratch E) target force repo br incl (mkState f l) = (r, s') ->
  exists t, log s' = l ++ clone_call E repo br :: t /\
    (fst (cloned E repo br) = false ->
       r = Raise CalledProcessError /\ t = [] /\
       files s' = graft (scratch E) (fs_of (snd (cloned E repo br))) f).
Proof.
  rewrite fetch_and_copy_eq. cbv zeta.
  destruct (fst (cloned E repo br)).
  2:{ intros [= <- <-]. exists []. cbn [files log]. auto. }
  destruct (fst (sparse_ready E repo br)).
  2:{ intros [= <- <-]. eexists. cbn [files log]. split; [reflexivity|].
      discriminate. }
  destruct (fst (checked_out E repo br incl)).
  2:{ intros [= <- <-]. eexists. cbn [files log]. split; [reflexivity|].
      discriminate. }
  intros H. apply copy_loop_extends in H as [t Ht]. cbn [log] in Ht.
  exists ([init_call E; set_call E incl] ++ t).
  split; [|discriminate]. rewrite Ht, <- app_assoc. reflexivity.
Qed.

(** C10.  A manifest without [template-repository] is not rejected: with a
    non-empty [include] the run creates the scratch directory and calls
    [git clone] on [https://github.com/None.git]; nothing before that call is
    an error.  When that clone exits non-zero the run ends in
    [CalledProcessError], with the scratch directory removed. *)
Theorem missing_repository_reaches_clone (E : env) (target : path)
    (branch : string) (force : bool) (f : fs) (text : string)
    (config : manifest) (p : string) (ps : list string) :
  wf f ->
  is_dir_at f (target ++ [".git"]) = true ->
  f (template_path target) = Some (File text) ->
  yaml_safe_load E text = Some config ->
  template_repository config = None ->
  manifest_include config = p :: ps ->
  f (scratch E) = None ->
  is_dir_at f (parent (scratch E)) = true ->
  let br := manifest_branch config branch in
  exists r s' tail,
    inject E target branch force (init f) = (r, s') /\
    log s' = intro_log target branch
             ++ [Info "Using existing .github/template.yml"]
             ++ include_log (p :: ps)
             ++ [Mkdtemp (scratch E);
                 Info ("Cloning None@" +++ br +++ " into temporary directory");
                 Exec ["git"; "clone"; "--depth"; "1"; "--filter=blob:none";
                       "--sparse"; "--branch"; br;
                       "https://github.com/None.git"; path_str (scratch E)]
                      None]
             ++ tail /\
    (fst (git_clone E br "https://github.com/None.git") = false ->
     r = Raise CalledProcessError /\ tail = [] /\
     forall q, is_prefix (scratch E) q = true -> files s' q = None).
Proof.
  intros W Hg Ht Hl Hr Hi Hs Hp br.
  assert (Hd : f (target ++ [".github"]) = Some Dir).
  { apply template_dir_exists; [assumption | congruence]. }
  rewrite inject_eq. unfold init.
  rewrite load_config_eq, Hg, (mkdir_rev_existing _ _ Hd).
  cbv zeta. unfold ensured, ensure_log. rewrite Ht. cbv iota.
  rewrite Ht, Hl, Hi, Hr. fold br.
  rewrite materialize_eq, Hs, Hp. unfold try_finally.
  destruct (fetch_and_copy _ _ _ _ _ _ _ _) as [rb sb] eqn:Hb.
  apply fetch_and_copy_log in Hb as (t & Hlog & Hfail).
  rewrite run_rmtree.
  assert (Hlog' : log sb = intro_log target branch
             ++ [Info "Using existing .github/template.yml"]
             ++ include_log (p :: ps)
             ++ [Mkdtemp (scratch E);
                 Info ("Cloning None@" +++ br +++ " into temporary directory");
                 Exec ["git"; "clone"; "--depth"; "1"; "--filter=blob:none";
                       "--sparse"; "--branch"; br;
                       "https://github.com/None.git"; path_str (scratch E)]
                      None]
             ++ t).
  { rewrite Hlog. cbn [app]. rewrite <- !app_assoc. reflexivity. }
  destruct (files sb (scratch E)) as [[d|]|] eqn:Ed.
  - exists (Raise NotADirectoryError), sb, t. split; [reflexivity|].
    split; [exact Hlog'|]. intros Hc. apply Hfail in Hc as (_ & _ & Hc).
    rewrite Hc, graft_root in Ed. discriminate.
  - destruct rb as [[]|e].
    + eexists _, _, (t ++ _). split; [reflexivity|]. cbn [log files].
      split; [rewrite Hlog'; rewrite <- !app_assoc; reflexivity|].
      intros Hc. apply Hfail in Hc as (Hc & _). discriminate.
    + exists (Raise e), (mkState (remove_tree (scratch E) (files sb)) (log sb)), t.
      split; [reflexivity|]. split; [exact Hlog'|].
      intros Hc. apply Hfail in Hc as (Hc & -> & _).
      split; [assumption|]. split; [reflexivity|].
      intros q Hq. cbn [files]. unfold remove_tree. now rewrite Hq.
  - exists (Raise FileNotFoundError), sb, t. split; [reflexivity|].
    split; [exact Hlog'|]. intros Hc. apply Hfail in Hc as (_ & _ & Hc).
    rewrite Hc, graft_root in Ed. discriminate.
Qed.

Lemma copy_path_missing (tmp_dir target : path) (force : bool) (p : string)
    (s : state) :
  files s (joinpath tmp_dir p) = None ->
  copy_path tmp_dir target force p s
  = (Ok tt, mkState (files s) (log s ++ [skip_missing p])).
Proof.
  intros H. unfold copy_path.
  rewrite bind_unfold, run_path_exists. unfold exists_at. rewrite H.
  cbn [negb]. apply run_emit.
Qed.



(* ================================================================== *)
(** ** Runs without [force]                                            *)
(* ================================================================== *)

Lemma not_under_missing (f : fs) (tmp_dir q : path) :
  wf f -> f tmp_dir = None -> f q <> None -> is_prefix tmp_dir q = false.
Proof.
  intros W H Hq. destruct (is_prefix tmp_dir q) eqn:E; [|reflexivity].
  exfalso. apply is_prefix_true in E as [r ->].
  destruct r as [|c r].
  - rewrite app_nil_r in Hq. contradiction.
  - apply Hq. apply wf_below; [assumption | congruence | discriminate].
Qed.

Lemma cleared_absent (dst : path) (f : fs) : f dst = None -> cleared dst f = f.
Proof. intros H. unfold cleared. now rewrite H. Qed.

Lemma grows_graft (dst : path) (t f : fs) :
  wf f -> f dst = None -> grows f (graft dst t f).
Proof.
  intros W H q e Hq. rewrite graft_outside; [assumption|].
  apply (not_under_missing f); [assumption | assumption | congruence].
Qed.

Section ScratchMount.

Variable E : env.
Variables (repo : option string) (br : string) (incl : list string).

Lemma wf_fetched (f : fs) :
  wf f -> f (scratch E) = Some Dir -> wf (fetched E repo br incl f).
Proof.
  intros W D. unfold fetched.
  apply wf_mount; [|apply graft_root].
  apply wf_mount; [|apply graft_root].
  now apply wf_mount.
Qed.

Lemma wf_mkdtemp (f : fs) :
  wf f -> is_dir_at f (parent (scratch E)) = true ->
  wf (upd (scratch E) (Some Dir) f).
Proof.
  intros W Ep. apply wf_upd_some; [assumption | | now left].
  intros q c Hq. unfold is_dir_at, parent in Ep. rewrite Hq in Ep.
  rewrite removelast_last in Ep. destruct (f q) as [[d|]|]; congruence.
Qed.

(** Outside the scratch directory the three [git] commands and [mkdtemp]
    change nothing. *)
Lemma mounts_outside (w : worktree) (f : fs) (q : path) :
  is_prefix (scratch E) q = false ->
  graft (scratch E) (fs_of w) f q = f q.
Proof. apply graft_outside. Qed.

Lemma fetched_outside (f : fs) (q : path) :
  is_prefix (scratch E) q = false ->
  fetched E repo br incl (upd (scratch E) (Some Dir) f) q = f q.
Proof.
  intros H. unfold fetched. rewrite !graft_outside by assumption.
  apply upd_other. intros <-. now rewrite is_prefix_refl in H.
Qed.

End ScratchMount.

Section ForceOff.

Variables (tmp_dir target : path).

Lemma copy_step_grows (p : string) (s : state) r (s' : state) :
  wf (files s) -> copy_step tmp_dir target false p s r s' ->
  grows (files s) (files s').
Proof.
  intros W H.
  destruct H as [ | | e ? [Hd|] Hm | f2 ? [Hd|] Hm | f2 ? [Hd|] Hm ? H2
                | f2 d ? [Hd|] Hm ? H2 ];
    cbn [files]; try discriminate; try apply grows_refl;
    rewrite (cleared_absent _ _ Hd) in *; try apply grows_refl.
  - eapply grows_mkdir; eauto.
  - eapply grows_trans; [eapply grows_mkdir; eauto|].
    apply grows_graft; [|assumption].
    apply mkdir_rev_spec in Hm as (_ & _ & W2). auto.
  - eapply grows_trans; [eapply grows_mkdir; eauto|].
    now apply grows_upd.
Qed.

Lemma copy_loop_grows (xs : list string) (s : state) r (s' : state) :
  wf (files s) ->
  for_each xs (copy_path tmp_dir target false) s = (r, s') ->
  wf (files s') /\ grows (files s) (files s').
Proof.
  intros W.
  apply (for_each_inv string
           (fun t => wf (files t) /\ grows (files s) (files t)));
    [|split; [assumption | apply grows_refl]].
  intros p s1 r1 s2 _ [W1 G1] H. apply copy_path_step in H. split.
  - eapply copy_step_wf; eauto.
  - eapply grows_trans; [exact G1|]. eapply copy_step_grows; eauto.
Qed.

(** A completed loop has reported every path that was present on both
    sides when the loop started. *)
Lemma copy_loop_reports (xs : list string) (s s' : state) :
  wf (files s) ->
  for_each xs (copy_path tmp_dir target false) s = (Ok tt, s') ->
  forall p, In p xs ->
    files s (joinpath tmp_dir p) <> None ->
    files s (joinpath target p) <> None ->
    In (skip_existing p) (log s').
Proof.
  revert s. induction xs as [|x xs IH]; intros s W H p Hin Hs Hd; [contradiction|].
  simpl in H. apply bind_inv in H as [(a & s1 & H1 & H2)|(e & _ & He)];
    [|discriminate].
  pose proof H1 as Hstep. apply copy_path_step in Hstep.
  destruct Hin as [->|Hin].
  - assert (In (skip_existing p) (log s1)).
    { inversion Hstep; subst; cbn [log];
        try (rewrite in_app_iff; right; now left); try contradiction;
        match goal with H : _ \/ false = true |- _ =>
          destruct H; [contradiction | discriminate] end. }
    apply copy_loop_extends in H2 as [t Ht]. rewrite Ht, in_app_iff. now left.
  - pose proof (copy_step_grows _ _ _ _ W Hstep) as G.
    apply (IH s1); auto.
    + eapply copy_step_wf; eauto.
    + destruct (files s (joinpath tmp_dir p)) eqn:Ex; [|contradiction].
      rewrite (G _ _ Ex). discriminate.
    + destruct (files s (joinpath target p)) eqn:Ex; [|contradiction].
      rewrite (G _ _ Ex). discriminate.
Qed.

End ForceOff.

Lemma remove_tree_outside (p : path) (f : fs) (q : path) :
  is_prefix p q = false -> remove_tree p f q = f q.
Proof. intros H. unfold remove_tree. now rewrite H. Qed.

Lemma rmtree_outside (p : path) (s : state) r (s' : state) (q : path) :
  rmtree p s = (r, s') -> is_prefix p q = false -> files s' q = files s q.
Proof.
  rewrite run_rmtree. destruct (files s p) as [[d|]|]; intros [= <- <-] H;
    cbn [files]; auto using remove_tree_outside.
Qed.

Lemma rmtree_log (p : path) (s : state) r (s' : state) :
  rmtree p s = (r, s') -> log s' = log s.
Proof.
  rewrite run_rmtree. destruct (files s p) as [[d|]|]; now intros [= <- <-].
Qed.

Lemma materialize_force_off (E : env) (target : path)
    (repo : option string) (br : string) (incl : list string)
    (f1 : fs) (l1 : list event) r (s' : state) :
  wf f1 ->
  materialize E target false (repo, br, incl) (mkState f1 l1) = (r, s') ->
  grows f1 (files s') /\
  (r = Ok tt -> forall p, In p incl ->
     fetched E repo br incl (upd (scratch E) (Some Dir) f1)
       (joinpath (scratch E) p) <> None ->
     f1 (joinpath target p) <> None ->
     In (skip_existing p) (log s')).
Proof.
  intros W. rewrite materialize_eq.
  destruct (f1 (scratch E)) as [e|] eqn:Es.
  { intros [= <- <-]. split; [apply grows_refl | discriminate]. }
  destruct (is_dir_at f1 (parent (scratch E))) eqn:Ep.
  2:{ intros [= <- <-]. split; [apply grows_refl | discriminate]. }
  assert (Hout : forall q e, f1 q = Some e -> is_prefix (scratch E) q = false).
  { intros q e Hq. apply (not_under_missing f1); [auto | auto | congruence]. }
  set (f0 := upd (scratch E) (Some Dir) f1).
  assert (W0 : wf f0) by now apply wf_mkdtemp.
  assert (D0 : f0 (scratch E) = Some Dir) by apply upd_same.
  intros H. apply try_finally_inv in H as (rb & sb & rf & Hb & Hf & Hr).
  rewrite fetch_and_copy_eq in Hb. cbv zeta in Hb. fold f0 in Hb.
  assert (G : grows f1 (files sb) /\
              (rb = Ok tt -> forall p, In p incl ->
                 fetched E repo br incl f0 (joinpath (scratch E) p) <> None ->
                 f1 (joinpath target p) <> None ->
                 In (skip_existing p) (log sb))).
  { destruct (fst (cloned E repo br)).
    2:{ inversion Hb; subst; clear Hb. cbn [files]. split; [|discriminate].
        intros q e Hq. rewrite graft_outside by eauto.
        unfold f0. rewrite upd_other; [assumption|].
        intros <-. congruence. }
    destruct (fst (sparse_ready E repo br)).
    2:{ inversion Hb; subst; clear Hb. cbn [files]. split; [|discriminate].
        intros q e Hq. rewrite !graft_outside by eauto.
        unfold f0. rewrite upd_other; [assumption|].
        intros <-. congruence. }
    assert (G0 : grows f1 (fetched E repo br incl f0)).
    { intros q e Hq. unfold f0. rewrite fetched_outside by eauto. assumption. }
    destruct (fst (checked_out E repo br incl)).
    2:{ inversion Hb; subst; clear Hb. cbn [files]. split; [assumption | discriminate]. }
    pose proof Hb as Hloop.
    apply copy_loop_grows in Hb as [Wb Gb]; [|now apply wf_fetched].
    cbn [files] in Gb. split; [eapply grows_trans; eauto|].
    intros -> p Hin Hs Hd.
    refine (copy_loop_reports _ _ _ _ _ _ Hloop p Hin _ _); cbn [files];
      [now apply wf_fetched | assumption |].
    destruct (f1 (joinpath target p)) eqn:Ex; [|contradiction].
    rewrite (G0 _ _ Ex). discriminate. }
  destruct G as [G1 G2]. split.
  - intros q e Hq. pose proof (Hout _ _ Hq) as Ho.
    rewrite (rmtree_outside _ _ _ _ q Hf Ho). now apply G1.
  - intros Hok p Hin Hs Hd. rewrite (rmtree_log _ _ _ _ Hf).
    apply G2; auto. subst r. destruct rf as [[]|e]; [assumption | discriminate].
Qed.

(** Without [force] a run removes and overwrites nothing. *)
Lemma inject_force_off_grows (E : env) (target : path) (branch : string)
    (f : fs) (r : result unit) (s' : state) :
  wf f -> inject E target branch false (init f) = (r, s') ->
  grows f (files s').
Proof.
  intros W. rewrite inject_eq. unfold init.
  destruct (load_config E target branch (mkState f [])) as [[cfg|e] [f1 l1]] eqn:Hl;
    apply load_config_props in Hl as (W1 & G & _); cbn [files] in *.
  2:{ now intros [= <- <-]. }
  destruct cfg as [[repo br] incl].
  destruct (materialize E target false (repo, br, incl) (mkState f1 l1))
    as [rm sm] eqn:Hm.
  apply materialize_force_off in Hm as [Gm _]; [|auto].
  destruct rm as [[]|e]; intros [= <- <-]; cbn [files];
    eapply grows_trans; eauto.
Qed.

(* ================================================================== *)
(** ** What a run keeps, with or without [force]                       *)
(* ================================================================== *)

(** An existing entry that is not at or below the destination of the
    iteration survives it. *)
Lemma copy_step_keeps (tmp_dir target : path) (force : bool) (p : string)
    (s : state) r (s' : state) (q : path) (e : entry) :
  copy_step tmp_dir target force p s r s' ->
  is_prefix (joinpath target p) q = false ->
  files s q = Some e -> files s' q = Some e.
Proof.
  intros H Hq He.
  assert (Hc : cleared (joinpath target p) (files s) q = Some e).
  { destruct (cleared_cases (joinpath target p) (files s) q) as [->|[_ Hp]];
      congruence. }
  assert (Hm : forall f2, mkdir_rev (rev (parent (joinpath target p)))
                 (cleared (joinpath target p) (files s)) = Ok f2 ->
               f2 q = Some e).
  { intros f2 Hm. eapply grows_mkdir; eauto. }
  destruct H; cbn [files]; auto.
  - rewrite graft_outside; auto.
  - rewrite upd_other; auto. intros <-. now rewrite is_prefix_refl in Hq.
Qed.

Lemma copy_loop_keeps (tmp_dir target : path) (force : bool)
    (xs : list string) (s : state) r (s' : state) (q : path) (e : entry) :
  (forall p, In p xs -> is_prefix (joinpath target p) q = false) ->
  files s q = Some e ->
  for_each xs (copy_path tmp_dir target force) s = (r, s') ->
  files s' q = Some e.
Proof.
  intros Hq. apply (for_each_inv string (fun t => files t q = Some e)).
  intros p s1 r1 s2 Hin H1 H. apply copy_path_step in H.
  eapply copy_step_keeps; eauto.
Qed.

Lemma materialize_keeps (E : env) (target : path) (force : bool)
    (repo : option string) (br : string) (incl : list string)
    (f1 : fs) (l1 : list event) r (s' : state) (q : path) (e : entry) :
  wf f1 -> f1 q = Some e ->
  (forall p, In p incl -> is_prefix (joinpath target p) q = false) ->
  materialize E target force (repo, br, incl) (mkState f1 l1) = (r, s') ->
  files s' q = Some e.
Proof.
  intros W Hq Hp. rewrite materialize_eq.
  destruct (f1 (scratch E)) as [x|] eqn:Es.
  { now intros [= <- <-]. }
  destruct (is_dir_at f1 (parent (scratch E))) eqn:Ep.
  2:{ now intros [= <- <-]. }
  assert (Ho : is_prefix (scratch E) q = false).
  { apply (not_under_missing f1); [auto | auto | congruence]. }
  set (f0 := upd (scratch E) (Some Dir) f1).
  assert (H0 : f0 q = Some e).
  { unfold f0. rewrite upd_other; [assumption|].
    intros <-. now rewrite is_prefix_refl in Ho. }
  intros H. apply try_finally_inv in H as (rb & sb & rf & Hb & Hf & _).
  rewrite (rmtree_outside _ _ _ _ q Hf Ho).
  rewrite fetch_and_copy_eq in Hb. cbv zeta in Hb. fold f0 in Hb.
  destruct (fst (cloned E repo br)).
  2:{ inversion Hb; subst. cbn [files]. now rewrite graft_outside. }
  destruct (fst (sparse_ready E repo br)).
  2:{ inversion Hb; subst. cbn [files]. now rewrite !graft_outside. }
  assert (HF : fetched E repo br incl f0 q = Some e).
  { unfold fetched. now rewrite !graft_outside. }
  destruct (fst (checked_out E repo br incl)).
  2:{ inversion Hb; subst. assumption. }
  refine (copy_loop_keeps _ _ _ _ _ _ _ q e Hp _ Hb). exact HF.
Qed.

(** An existing manifest is what the manifest stage reads, untouched. *)
Lemma load_config_existing (E : env) (target : path) (branch : string)
    (f : fs) (l : list event) (text : string) r (s1 : state) :
  wf f -> f (template_path target) = Some (File text) ->
  load_config E target branch (mkState f l) = (r, s1) ->
  files s1 = f /\
  forall cfg, r = Ok cfg ->
    exists config, yaml_safe_load E text = Some config /\
      cfg = (template_repository config, manifest_branch config branch,
             manifest_include config).
Proof.
  intros W Ht. rewrite load_config_eq.
  destruct (is_dir_at f (target ++ [".git"])).
  2:{ intros [= <- <-]. split; [reflexivity | discriminate]. }
  rewrite mkdir_rev_existing
    by (apply template_dir_exists; [assumption | congruence]).
  cbv zeta. unfold ensured. rewrite Ht. cbv iota. rewrite Ht.
  destruct (yaml_safe_load E text) as [config|].
  2:{ intros [= <- <-]. split; [reflexivity | discriminate]. }
  destruct (manifest_include config) as [|p ps] eqn:Hi.
  - intros [= <- <-]. split; [reflexivity | discriminate].
  - intros [= <- <-]. split; [reflexivity|].
    intros cfg [= <-]. exists config. rewrite Hi. auto.
Qed.


(* ================================================================== *)
(** ** Runs with [force]                                               *)
(* ================================================================== *)

Lemma prefix_comparable (a b q : path) :
  is_prefix a q = true -> is_prefix b q = true ->
  is_prefix a b = true \/ is_prefix b a = true.
Proof.
  intros [x Hx]%is_prefix_true [y Hy]%is_prefix_true. subst q.
  revert b Hy. induction a as [|c a IH]; intros b Hy.
  - left. reflexivity.
  - destruct b as [|c' b]; [right; reflexivity|].
    simpl in Hy. injection Hy as -> Hy.
    destruct (IH b Hy) as [H|H]; [left | right];
      unfold is_prefix in *; simpl; now rewrite String.eqb_refl.
Qed.

Lemma is_prefix_app_l (a x q : path) :
  is_prefix (a ++ x) q = true -> is_prefix a q = true.
Proof.
  intros [y ->]%is_prefix_true. rewrite <- app_assoc. apply is_prefix_app.
Qed.

Lemma is_prefix_parent (q dst : path) :
  is_prefix q (parent dst) = true -> is_prefix q dst = true.
Proof.
  unfold parent. induction dst as [|c d _] using rev_ind; [auto|].
  rewrite removelast_last. apply is_prefix_snoc.
Qed.

Lemma is_prefix_length (a b : path) :
  is_prefix a b = true -> List.length a <= List.length b.
Proof.
  intros [x ->]%is_prefix_true. rewrite length_app. lia.
Qed.

Lemma parent_length (p : path) : List.length (parent p) <= List.length p.
Proof.
  unfold parent. induction p as [|c d _] using rev_ind; [auto|].
  rewrite removelast_last, length_app. lia.
Qed.

Lemma cleared_below (dst : path) (f : fs) (r : path) :
  wf f -> cleared dst f (dst ++ r) = None.
Proof.
  intros W. destruct r as [|c r].
  - rewrite app_nil_r. apply cleared_dst.
  - unfold cleared. destruct (f dst) as [[d|]|] eqn:E.
    + rewrite upd_other by (apply not_eq_sym, app_neq_self; discriminate).
      apply wf_below; [assumption | congruence | discriminate].
    + unfold remove_tree. now rewrite is_prefix_app.
    + apply wf_below; [assumption | congruence | discriminate].
Qed.

Lemma cleared_outside (dst : path) (f : fs) (q : path) :
  is_prefix dst q = false -> cleared dst f q = f q.
Proof.
  intros H. destruct (cleared_cases dst f q) as [->|[_ Hp]]; congruence.
Qed.

Section Forced.

Variables (tmp_dir target : path).

(** The scratch directory and the target lie side by side. *)
Hypothesis target_outside : is_prefix tmp_dir target = false.
Hypothesis scratch_outside : is_prefix target tmp_dir = false.

(** The checkout, as a file system rooted at the scratch directory. *)
Variable T : fs.
Hypothesis wf_T : wf T.

Lemma apart (x r q : path) :
  is_prefix (target ++ x) q = true -> is_prefix (tmp_dir ++ r) q = true -> False.
Proof.
  intros H1%is_prefix_app_l H2%is_prefix_app_l.
  destruct (prefix_comparable _ _ _ H1 H2); congruence.
Qed.

Lemma scratch_not_under (x r : path) :
  is_prefix (target ++ x) (tmp_dir ++ r) = false.
Proof.
  destruct (is_prefix (target ++ x) (tmp_dir ++ r)) eqn:E; [|reflexivity].
  exfalso. eapply apart; [exact E | apply is_prefix_refl].
Qed.

Lemma scratch_not_above (x r : path) :
  is_prefix (tmp_dir ++ r) (target ++ x) = false.
Proof.
  destruct (is_prefix (tmp_dir ++ r) (target ++ x)) eqn:E; [|reflexivity].
  exfalso. eapply apart; [apply is_prefix_refl | exact E].
Qed.

(** One successful iteration under [force] for a relative path [p]. *)
Lemma forced_step (p : string) (s s' : state) :
  is_absolute p = false ->
  wf (files s) -> scratch_intact tmp_dir T (files s) ->
  copy_step tmp_dir target true p s (Ok tt) s' ->
  (T (parts p) = None /\ files s' = files s) \/
  (T (parts p) <> None /\
   (forall r, files s' (target ++ parts p ++ r) = T (parts p ++ r)) /\
   (forall q, is_prefix (target ++ parts p) q = false ->
      files s' q = files s q \/
      (files s q = None /\ files s' q = Some Dir /\
       is_prefix q (parent (target ++ parts p)) = true))).
Proof.
  intros Hrel W S H.
  assert (Es : joinpath tmp_dir p = tmp_dir ++ parts p).
  { unfold joinpath. now rewrite Hrel. }
  assert (Ed : joinpath target p = target ++ parts p).
  { unfold joinpath. now rewrite Hrel. }
  set (dst := target ++ parts p) in *.
  set (src := tmp_dir ++ parts p) in *.
  assert (HT : files s src = T (parts p)) by apply S.
  assert (Hmk : forall f2,
    mkdir_rev (rev (parent dst)) (cleared dst (files s)) = Ok f2 ->
    (forall r, f2 (tmp_dir ++ r) = T r) /\
    (forall r, r <> [] -> f2 (dst ++ r) = None) /\
    (forall q, is_prefix dst q = false ->
       f2 q = files s q \/
       (files s q = None /\ f2 q = Some Dir /\ is_prefix q (parent dst) = true))).
  { intros f2 Hm. apply mkdir_rev_spec in Hm as (_ & C & _).
    rewrite rev_involutive in C.
    assert (Q : forall q, is_prefix dst q = false ->
       f2 q = files s q \/
       (files s q = None /\ f2 q = Some Dir /\ is_prefix q (parent dst) = true)).
    { intros q Hq. destruct (C q) as [->|(N & D & P)].
      - left. now apply cleared_outside.
      - right. rewrite cleared_outside in N by assumption. auto. }
    split; [|split; [|exact Q]].
    - intros r. destruct (Q (tmp_dir ++ r)) as [->|(_ & _ & P)].
      + apply scratch_not_under.
      + apply S.
      + apply is_prefix_parent in P. unfold dst in P.
        now rewrite scratch_not_above in P.
    - intros r Hr. destruct (C (dst ++ r)) as [->|(_ & _ & P)].
      + now apply cleared_below.
      + exfalso. apply is_prefix_length in P.
        pose proof (parent_length dst) as L. rewrite length_app in P.
        destruct r; [congruence | simpl in P; lia]. }
  unfold src, dst in *. clear src dst.
  inversion H; subst; clear H; try discriminate; rewrite ?Es, ?Ed in *.
  - left. split; [congruence | reflexivity].
  - (* a directory *)
    right.
    match goal with Hm : mkdir_rev _ _ = Ok ?f2 |- _ =>
      destruct (Hmk f2 Hm) as (A & B & C) end.
    split; [congruence|]. cbn [files]. split.
    + intros r. rewrite app_assoc. rewrite graft_inside.
      unfold subtree. rewrite <- app_assoc. apply A.
    + intros q Hq. rewrite graft_outside by assumption. now apply C.
  - (* a file *)
    right.
    match goal with Hm : mkdir_rev _ _ = Ok ?f2 |- _ =>
      destruct (Hmk f2 Hm) as (A & B & C) end.
    assert (Hd : T (parts p) = Some (File d)).
    { rewrite <- (A (parts p)). assumption. }
    split; [congruence|]. cbn [files]. split.
    + intros r. rewrite app_assoc. destruct r as [|c r].
      * rewrite !app_nil_r, upd_same. congruence.
      * rewrite upd_other by (apply not_eq_sym, app_neq_self; discriminate).
        rewrite B by discriminate. symmetry.
        apply wf_below; [assumption | congruence | discriminate].
    + intros q Hq. rewrite upd_other; [now apply C|].
      intros <-. now rewrite is_prefix_refl in Hq.
Qed.

End Forced.

Section ForcedLoop.

Variables (tmp_dir target : path).
Hypothesis target_outside : is_prefix tmp_dir target = false.
Hypothesis scratch_outside : is_prefix target tmp_dir = false.
Variable T : fs.
Hypothesis wf_T : wf T.

Lemma forced_step_inv (done : list string) (p : string) (s s' : state) :
  is_absolute p = false ->
  forced_inv tmp_dir target T done (files s) ->
  copy_path tmp_dir target true p s = (Ok tt, s') ->
  forced_inv tmp_dir target T (done ++ [p]) (files s').
Proof.
  intros Hrel (W & S & C) H. apply copy_path_step in H.
  pose proof (copy_step_wf _ _ _ _ _ _ _ W H) as W'.
  destruct (forced_step tmp_dir target target_outside scratch_outside T wf_T
              p s s' Hrel W S H) as [[HT Hf]|(HT & Hin & Hout)].
  - rewrite Hf. repeat split; auto.
    intros p' [Hp|Hp]%in_app_iff HT'; [now apply C|].
    destruct Hp as [<-|[]]. contradiction.
  - split; [assumption|]. split.
    + intros r. destruct (Hout (tmp_dir ++ r)) as [->|(_ & _ & P)].
      * now apply scratch_not_under.
      * apply S.
      * apply is_prefix_parent in P.
        now rewrite scratch_not_above in P.
    + intros p' [Hp|Hp]%in_app_iff HT' r.
      2:{ destruct Hp as [<-|[]]. apply Hin. }
      destruct (is_prefix (target ++ parts p) (target ++ parts p' ++ r)) eqn:Ep.
      * apply is_prefix_true in Ep as [r' Er]. rewrite Er.
        rewrite <- app_assoc in Er. apply app_inv_head in Er.
        rewrite <- app_assoc, Hin. now rewrite Er.
      * destruct (Hout _ Ep) as [->|(N & _ & P)]; [now apply C|].
        exfalso. rewrite (C p' Hp HT' r) in N.
        apply is_prefix_parent, is_prefix_true in P as [z Hz].
        rewrite <- !app_assoc in Hz. apply app_inv_head in Hz.
        rewrite app_assoc in Hz. rewrite Hz in HT.
        destruct z as [|c z].
        -- rewrite app_nil_r in HT. contradiction.
        -- rewrite (wf_ancestor T _ (c :: z)) in N;
             [discriminate | assumption | assumption | discriminate].
Qed.

Lemma forced_loop (xs done : list string) (s s' : state) :
  (forall p, In p xs -> is_absolute p = false) ->
  forced_inv tmp_dir target T done (files s) ->
  for_each xs (copy_path tmp_dir target true) s = (Ok tt, s') ->
  forced_inv tmp_dir target T (done ++ xs) (files s').
Proof.
  revert done s. induction xs as [|x xs IH]; intros done s Hrel J H; simpl in H.
  - inversion H; subst. now rewrite app_nil_r.
  - apply bind_inv in H as [([] & s1 & H1 & H2)|(e & _ & He)]; [|discriminate].
    change (done ++ x :: xs) with (done ++ [x] ++ xs). rewrite app_assoc.
    apply (IH _ s1); [intros q Hq; apply Hrel; now right | | assumption].
    apply forced_step_inv with (s := s); auto. apply Hrel. now left.
Qed.

End ForcedLoop.

Lemma wf_ext (f g : fs) : (forall q, f q = g q) -> wf g -> wf f.
Proof. intros H W q c Hq. rewrite H in *. exact (W q c Hq). Qed.

Lemma fetched_scratch (E : env) (repo : option string) (br : string)
    (incl : list string) (f : fs) :
  scratch_intact (scratch E) (fs_of (snd (checked_out E repo br incl)))
    (fetched E repo br incl f).
Proof. intros r. unfold fetched. apply graft_inside. Qed.

(** A successful forced run, seen from the state the manifest stage left. *)
Lemma materialize_forced (E : env) (target : path)
    (repo : option string) (br : string) (incl : list string)
    (f1 : fs) (l1 : list event) (s' : state) :
  wf f1 -> f1 target <> None ->
  is_prefix target (scratch E) = false ->
  (forall p, In p incl -> is_absolute p = false) ->
  materialize E target true (repo, br, incl) (mkState f1 l1) = (Ok tt, s') ->
  is_prefix (scratch E) target = false /\
  fst (cloned E repo br) = true /\
  fst (sparse_ready E repo br) = true /\
  fst (checked_out E repo br incl) = true /\
  wf (files s') /\
  (forall q, is_prefix (scratch E) q = true -> files s' q = None) /\
  copied target (fs_of (snd (checked_out E repo br incl))) incl (files s').
Proof.
  intros W Ht Hout Hrel. rewrite materialize_eq.
  destruct (f1 (scratch E)) as [x|] eqn:Es; [discriminate|].
  destruct (is_dir_at f1 (parent (scratch E))) eqn:Ep; [|discriminate].
  assert (Hin : is_prefix (scratch E) target = false)
    by now apply (not_under_missing f1).
  set (f0 := upd (scratch E) (Some Dir) f1).
  assert (W0 : wf f0) by now apply wf_mkdtemp.
  assert (D0 : f0 (scratch E) = Some Dir) by apply upd_same.
  intros H. apply try_finally_inv in H as (rb & sb & rf & Hb & Hf & Hr).
  destruct rf as [[]|e]; [subst rb | discriminate].
  rewrite fetch_and_copy_eq in Hb. cbv zeta in Hb. fold f0 in Hb.
  destruct (fst (cloned E repo br)); [|discriminate].
  destruct (fst (sparse_ready E repo br)); [|discriminate].
  destruct (fst (checked_out E repo br incl)); [|discriminate].
  apply (forced_loop (scratch E) target Hin Hout
           (fs_of (snd (checked_out E repo br incl))) (fs_of_wf _)
           incl []) in Hb; [|assumption|].
  2:{ cbn [files]. split; [now apply wf_fetched|].
      split; [apply fetched_scratch | intros p []]. }
  simpl in Hb. destruct Hb as (Wb & Sb & Cb).
  rewrite run_rmtree in Hf.
  destruct (files sb (scratch E)) as [[d|]|]; try discriminate.
  inversion Hf; subst; clear Hf. cbn [files].
  repeat split; auto.
  - now apply wf_remove_tree.
  - intros q Hq. unfold remove_tree. now rewrite Hq.
  - intros p Hp HT r. rewrite remove_tree_outside; [now apply Cb|].
    rewrite <- (app_nil_r (scratch E)).
    now apply scratch_not_above.
Qed.

Section Again.

Variables (tmp_dir target : path).
Hypothesis target_outside : is_prefix tmp_dir target = false.
Hypothesis scratch_outside : is_prefix target tmp_dir = false.
Variable T : fs.
Hypothesis wf_T : wf T.

(** [F]: the target already holds the copies, the scratch directory the
    checkout. *)
Variable F : fs.
Hypothesis wf_F : wf F.
Hypothesis F_scratch : scratch_intact tmp_dir T F.

Lemma target_not_root : target <> [].
Proof. intros ->. discriminate scratch_outside. Qed.

(** On such a state a forced iteration changes no entry. *)
Lemma again_step (p : string) (s : state) r (s' : state) :
  is_absolute p = false ->
  (T (parts p) <> None ->
   forall x, F (target ++ parts p ++ x) = T (parts p ++ x)) ->
  (forall q, files s q = F q) ->
  copy_path tmp_dir target true p s = (r, s') ->
  forall q, files s' q = F q.
Proof.
  intros Hrel HC I H.
  assert (W : wf (files s)) by (eapply wf_ext; eauto).
  assert (S : scratch_intact tmp_dir T (files s)).
  { intros x. rewrite I. apply F_scratch. }
  assert (Es : joinpath tmp_dir p = tmp_dir ++ parts p).
  { unfold joinpath. now rewrite Hrel. }
  assert (Ed : joinpath target p = target ++ parts p).
  { unfold joinpath. now rewrite Hrel. }
  apply copy_path_step in H.
  assert (Hsrc : files s (joinpath tmp_dir p) <> None -> T (parts p) <> None).
  { rewrite Es, S. auto. }
  assert (Hdst : T (parts p) <> None -> F (target ++ parts p) <> None).
  { intros HT. specialize (HC HT []). rewrite !app_nil_r in HC. congruence. }
  assert (Hpar : T (parts p) <> None ->
            cleared (target ++ parts p) (files s) (parent (target ++ parts p))
            = Some Dir).
  { intros HT. rewrite cleared_outside.
    - rewrite I. apply wf_parent; auto.
      pose proof target_not_root. destruct target; [congruence | discriminate].
    - destruct (is_prefix (target ++ parts p) (parent (target ++ parts p))) eqn:E;
        [|reflexivity].
      exfalso. apply is_prefix_length in E. unfold parent in E.
      pose proof target_not_root.
      destruct (exists_last (l := target ++ parts p)) as (d & c & Hd).
      { destruct target; [congruence | discriminate]. }
      rewrite Hd, removelast_last, length_app in E. simpl in E. lia. }
  destruct r as [[]|e].
  - (* the iteration returns *)
    destruct (forced_step tmp_dir target target_outside scratch_outside T wf_T
                p s s' Hrel W S H) as [[_ ->]|(HT & Hin & Hout)]; [exact I|].
    intros q. destruct (is_prefix (target ++ parts p) q) eqn:Eq.
    + apply is_prefix_true in Eq as [x ->]. rewrite <- app_assoc.
      rewrite Hin. symmetry. now apply HC.
    + destruct (Hout q Eq) as [->|(N & _ & P)]; [apply I|].
      exfalso. rewrite I in N.
      apply is_prefix_true in P as [y Hy].
      assert (Hd : target ++ parts p <> []).
      { pose proof target_not_root. destruct target; [congruence | discriminate]. }
      destruct (exists_last Hd) as (d & c & Hdc).
      rewrite Hdc in Hy. unfold parent in Hy. rewrite removelast_last in Hy.
      assert (F q = Some Dir); [|congruence].
      apply (wf_ancestor F q (y ++ [c])); auto.
      * rewrite app_assoc, <- Hy, <- Hdc. now apply Hdst.
      * now destruct y.
  - (* the iteration cannot raise *)
    exfalso.
    inversion H; subst; clear H;
      match goal with X : files s (joinpath tmp_dir p) <> None |- _ =>
        pose proof (Hsrc X) as HT end;
      match goal with X : mkdir_rev _ _ = _ |- _ =>
        rewrite Ed in X;
        rewrite (mkdir_rev_existing _ _ (Hpar HT)) in X end; try discriminate.
    match goal with X : Ok _ = Ok _ |- _ => injection X as <- end.
    match goal with X : cleared _ _ (joinpath tmp_dir p) = None |- _ =>
      rewrite Es, cleared_outside, S in X
        by (apply scratch_not_under; assumption) end.
    contradiction.
Qed.

Lemma again_loop (xs : list string) (s : state) r (s' : state) :
  (forall p, In p xs -> is_absolute p = false) ->
  copied target T xs F ->
  (forall q, files s q = F q) ->
  for_each xs (copy_path tmp_dir target true) s = (r, s') ->
  forall q, files s' q = F q.
Proof.
  intros Hrel HC.
  apply (for_each_inv string (fun t => forall q, files t q = F q)).
  intros p s1 r1 s2 Hin I H. eapply again_step; eauto.
Qed.

End Again.

Lemma load_config_ok (E : env) (target : path) (branch : string)
    (f : fs) (l : list event) cfg (s1 : state) :
  load_config E target branch (mkState f l) = (Ok cfg, s1) ->
  is_dir_at f (target ++ [".git"]) = true /\
  exists text config,
    files s1 (template_path target) = Some (File text) /\
    yaml_safe_load E text = Some config /\
    cfg = (template_repository config, manifest_branch config branch,
           manifest_include config).
Proof.
  rewrite load_config_eq.
  destruct (is_dir_at f (target ++ [".git"])); [|discriminate].
  destruct (mkdir_rev (rev (target ++ [".github"])) f) as [f1|e]; [|discriminate].
  cbv zeta.
  destruct (ensured E target branch f1 (template_path target))
    as [[text|]|] eqn:Et; try discriminate.
  destruct (yaml_safe_load E text) as [config|] eqn:Ey; [|discriminate].
  destruct (manifest_include config) as [|p ps] eqn:Ei; [discriminate|].
  intros [= <- <-]. split; [reflexivity|]. exists text, config.
  cbn [files]. rewrite Ei. auto.
Qed.

(* ================================================================== *)
(** ** Include entries with a leading slash                            *)
(* ================================================================== *)

(** X9.  Under [force], a run that completes and whose include entries are
    relative and have no [..] component leaves at every include path found
    in the checkout exactly the checkout's entries. *)
Theorem forced_copy_matches_upstream (E : env) (target : path)
    (branch : string) (f : fs) (repo : option string) (br : string)
    (incl : list string) (sl s1 : state) :
  wf f ->
  load_config E target branch (init f) = (Ok (repo, br, incl), sl) ->
  (forall p, In p incl -> is_absolute p = false /\ plain p = true) ->
  is_prefix target (scratch E) = false ->
  inject E target branch true (init f) = (Ok tt, s1) ->
  forall p, In p incl ->
    fs_of (snd (checked_out E repo br incl)) (parts p) <> None ->
    forall x, files s1 (target ++ parts p ++ x)
              = fs_of (snd (checked_out E repo br incl)) (parts p ++ x).
Proof.
  intros W Hl Hrel' Hout H1.
  assert (Hrel : forall p, In p incl -> is_absolute p = false).
  { intros p Hp. now destruct (Hrel' p Hp). }
  destruct sl as [fl ll]. unfold init in *.
  pose proof Hl as Hp. apply load_config_props in Hp as (Wl & Gl & _).
  cbn [files] in *. specialize (Wl W).
  pose proof Hl as Hk. apply load_config_ok in Hk as (Hgit & _).
  assert (Htar : fl target <> None).
  { assert (f target = Some Dir) as Hd.
    { apply (W target ".git"). unfold is_dir_at in Hgit.
      destruct (f (target ++ [".git"])); [discriminate | discriminate]. }
    rewrite (Gl _ _ Hd). discriminate. }
  rewrite inject_eq, Hl in H1.
  destruct (materialize E target true (repo, br, incl) (mkState fl ll))
    as [[[]|e] sm] eqn:Hm; [|discriminate].
  inversion H1; subst s1; clear H1. cbn [files].
  apply materialize_forced in Hm as (_ & _ & _ & _ & _ & _ & HC); auto.
Qed.

(** C2 (the code at the failing input).  The default manifest the tool
    writes lists [/Makefile].  Upstream has a [Makefile], the target has its
    own, [force] is on - and the run completes with the target's [Makefile]
    untouched and the entry reported "not found in rhiza": [tmp_dir / path]
    with an absolute [path] is [path] itself, so the entry is looked up at
    the root of the file system instead of in the checkout. *)
Theorem leading_slash_entry_is_not_copied :
  let run := inject demo_env demo_target "main" true (init fs_local_makefile) in
  In "/Makefile" default_include /\
  joinpath (scratch demo_env) "/Makefile" = ["Makefile"] /\
  fs_of demo_upstream ["Makefile"] = Some (File "all: upstream") /\
  fs_local_makefile (demo_target ++ ["Makefile"]) = Some (File "local") /\
  fst run = Ok tt /\
  In (skip_missing "/Makefile") (log (snd run)) /\
  files (snd run) (demo_target ++ ["Makefile"]) = Some (File "local").
Proof.
  cbv zeta.
  split; [simpl; tauto|].
  split; [vm_compute; reflexivity|].
  split; [vm_compute; reflexivity|].
  split; [vm_compute; reflexivity|].
  split; [vm_compute; reflexivity|].
  split; [vm_compute; tauto | vm_compute; reflexivity].
Qed.

(** The same slip when something does exist at the absolute path: source and
    destination are one path, the forced removal deletes it, and the copy
    then fails. *)
Lemma absolute_entry_is_removed :
  let run := inject demo_env demo_target "main" true (init fs_root_makefile) in
  fs_root_makefile ["Makefile"] = Some (File "root file") /\
  fst run = Raise FileNotFoundError /\
  files (snd run) ["Makefile"] = None /\
  files (snd run) (demo_target ++ ["Makefile"]) = Some (File "local").
Proof.
  cbv zeta.
  split; [vm_compute; reflexivity|].
  split; [vm_compute; reflexivity|].
  split; vm_compute; reflexivity.
Qed.

(* ================================================================== *)
(** ** Counterexamples                                                 *)
(* ================================================================== *)

(** C1 as stated fails, in two ways.  With [include: [a, a/b]] and no
    [force], the directory [a] exists on both sides and is reported as
    skipped, yet after the run it holds the new file [a/b] copied for the
    second entry.  And in a repository that has a [.github] directory but no
    manifest, the run writes the default manifest - which lists [.github] -
    into that directory before skipping it. *)
Lemma skipped_destination_changes :
  let run := inject demo_env demo_target "main" false (init fs_nested) in
  let dst := joinpath demo_target "a" in
  let run' := inject demo_env demo_target "main" false (init fs_github_dir) in
  let dst' := joinpath demo_target ".github" in
  (fst run = Ok tt /\
   fs_of demo_upstream (parts "a") <> None /\
   fs_nested dst <> None /\
   In (skip_existing "a") (log (snd run)) /\
   ~ (forall x, files (snd run) (dst ++ x) = fs_nested (dst ++ x))) /\
  (fst run' = Ok tt /\
   In ".github" default_include /\
   fs_of demo_upstream (parts ".github") <> None /\
   fs_github_dir dst' <> None /\
   In (skip_existing ".github") (log (snd run')) /\
   ~ (forall x, files (snd run') (dst' ++ x) = fs_github_dir (dst' ++ x))).
Proof.
  cbv zeta. split.
  - split; [vm_compute; reflexivity|].
    split; [vm_compute; discriminate|].
    split; [vm_compute; discriminate|].
    split; [vm_compute; tauto|].
    intros H. specialize (H ["b"]). vm_compute in H. discriminate.
  - split; [vm_compute; reflexivity|].
    split; [simpl; tauto|].
    split; [vm_compute; discriminate|].
    split; [vm_compute; discriminate|].
    split; [vm_compute; tauto|].
    intros H. specialize (H ["template.yml"]). vm_compute in H. discriminate.
Qed.

(** C8 as stated fails: when [.github] is a regular file the manifest does
    not exist, and the run stops at the [mkdir] of line 40 without creating
    it. *)
Lemma github_file_blocks_manifest :
  let run := inject demo_env demo_target "main" false (init fs_github_is_file) in
  is_dir_at fs_github_is_file (demo_target ++ [".git"]) = true /\
  fs_github_is_file (template_path demo_target) = None /\
  fst run = Raise FileExistsError /\
  files (snd run) (template_path demo_target) = None.
Proof.
  cbv zeta.
  split; [vm_compute; reflexivity|].
  split; [vm_compute; reflexivity|].
  split; [vm_compute; reflexivity|].
  vm_compute. reflexivity.
Qed.


(** C7 as stated fails, in two ways.  The first forced run replaces the
    manifest by upstream's, which also lists [Makefile]; the second run,
    against the same upstream, therefore adds [Makefile].  And with
    [include: [/home/u/proj/a, a]] the first run finds nothing at the
    absolute path and copies [a]; the second finds [a] there, source and
    destination at once, removes it and fails. *)
Lemma forced_rerun_differs :
  let first := inject demo_env demo_target "main" true (init fs_github) in
  let second :=
    inject demo_env demo_target "main" true (init (files (snd first))) in
  let first' := inject demo_env demo_target "main" true (init fs_inside) in
  let second' :=
    inject demo_env demo_target "main" true (init (files (snd first'))) in
  (fst first = Ok tt /\
   fst second = Ok tt /\
   files (snd first) (demo_target ++ ["Makefile"]) = None /\
   files (snd second) (demo_target ++ ["Makefile"])
     = Some (File "all: upstream") /\
   ~ (forall q, files (snd second) q = files (snd first) q)) /\
  (fst first' = Ok tt /\
   fst second' = Raise FileNotFoundError /\
   files (snd first') (template_path demo_target)
     = fs_inside (template_path demo_target) /\
   files (snd first') (demo_target ++ ["a"]) = Some Dir /\
   files (snd second') (demo_target ++ ["a"]) = None /\
   ~ (forall q, files (snd second') q = files (snd first') q)).
Proof.
  cbv zeta. split.
  - split; [vm_compute; reflexivity|].
    split; [vm_compute; reflexivity|].
    split; [vm_compute; reflexivity|].
    split; [vm_compute; reflexivity|].
    intros H. specialize (H (demo_target ++ ["Makefile"])).
    vm_compute in H. discriminate.
  - split; [vm_compute; reflexivity|].
    split; [vm_compute; reflexivity|].
    split; [vm_compute; reflexivity|].
    split; [vm_compute; reflexivity|].
    split; [vm_compute; reflexivity|].
    intros H. specialize (H (demo_target ++ ["a"])).
    vm_compute in H. discriminate.
Qed.

(* ================================================================== *)
(** ** The theorems at concrete inputs                                 *)
(* ================================================================== *)

Lemma pair_of (A B : Type) (x : A * B) (a : A) : fst x = a -> x = (a, snd x).
Proof. intros <-. now destruct x. Qed.

Lemma demo_fs_wf (entries : list (string * tree)) : wf (demo_fs entries).
Proof. apply fs_of_wf. Qed.

(** [/home/u/proj] without a [.git] directory. *)
Lemma not_a_repository_aborts_witness :
  is_dir_at fs_not_a_repo (demo_target ++ [".git"]) = false /\
  inject demo_env demo_target "main" true (mkState fs_not_a_repo [])
  = (Raise (SystemExit 1),
     mkState fs_not_a_repo ([] ++ [not_a_repository demo_target])).
Proof.
  split; [reflexivity|].
  apply (not_a_repository_aborts demo_env demo_target "main" true
           fs_not_a_repo []).
  reflexivity.
Defined.

(** A repository whose manifest has [include: []]. *)
Lemma empty_manifest_aborts_witness :
  include (demo_manifest []) = Some [] /\
  inject demo_env demo_target "main" true (mkState fs_empty_manifest [])
  = (Raise (SystemExit 1),
     mkState fs_empty_manifest
       ([] ++ intro_log demo_target "main"
           ++ [Info "Using existing .github/template.yml"; empty_manifest])).
Proof.
  split; [reflexivity|].
  apply (empty_manifest_aborts demo_env demo_target "main" true
           fs_empty_manifest [] "empty" (demo_manifest [])).
  - apply demo_fs_wf.
  - reflexivity.
  - reflexivity.
  - reflexivity.
  - right. reflexivity.
Defined.

(** A repository with nothing but its [.git]. *)
Lemma default_manifest_created_witness :
  exists f1,
    let s1 := mkState f1
      ([] ++ intro_log demo_target "main"
          ++ [Info "Creating default .github/template.yml";
              Success ".github/template.yml created"]
          ++ include_log default_include) in
    load_config demo_env demo_target "main" (mkState fs_fresh [])
      = (Ok (Some "jebel-quant/rhiza", "main", default_include), s1)
    /\ f1 (template_path demo_target)
       = Some (File (yaml_dump demo_env (default_manifest "main")))
    /\ f1 (demo_target ++ [".github"]) = Some Dir
    /\ (forall q, q <> template_path demo_target ->
                  q <> demo_target ++ [".github"] -> f1 q = fs_fresh q)
    /\ inject demo_env demo_target "main" true (mkState fs_fresh [])
       = (materialize demo_env demo_target true
            (Some "jebel-quant/rhiza", "main", default_include) ;;
          emit (Success "Rhiza templates materialized successfully") ;;
          emit (Info next_steps)) s1.
Proof.
  apply (default_manifest_created demo_env demo_target "main" true fs_fresh []).
  - apply demo_fs_wf.
  - reflexivity.
  - reflexivity.
  - intros d H. vm_compute in H. discriminate.
  - reflexivity.
Defined.

(** A manifest that only has [include: [Makefile]]; the clone of
    [https://github.com/None.git] fails. *)
Lemma missing_repository_reaches_clone_witness :
  template_repository (mkManifest None None (Some ["Makefile"])) = None /\
  let br := manifest_branch (mkManifest None None (Some ["Makefile"])) "main" in
  exists r s' tail,
    inject demo_env demo_target "main" true (init fs_no_repository_field)
      = (r, s') /\
    log s' = intro_log demo_target "main"
             ++ [Info "Using existing .github/template.yml"]
             ++ include_log ["Makefile"]
             ++ [Mkdtemp (scratch demo_env);
                 Info ("Cloning None@" +++ br +++ " into temporary directory");
                 Exec ["git"; "clone"; "--depth"; "1"; "--filter=blob:none";
                       "--sparse"; "--branch"; br;
                       "https://github.com/None.git";
                       path_str (scratch demo_env)]
                      None]
             ++ tail /\
    (fst (git_clone demo_env br "https://github.com/None.git") = false ->
     r = Raise CalledProcessError /\ tail = [] /\
     forall q, is_prefix (scratch demo_env) q = true -> files s' q = None).
Proof.
  split; [reflexivity|].
  apply (missing_repository_reaches_clone demo_env demo_target "main" true
           fs_no_repository_field "norepo"
           (mkManifest None None (Some ["Makefile"])) "Makefile" []).
  - apply demo_fs_wf.
  - reflexivity.
  - reflexivity.
  - reflexivity.
  - reflexivity.
  - reflexivity.
  - reflexivity.
  - reflexivity.
Defined.


(** A forced run that completes. *)
Lemma scratch_removed_witness :
  let run := inject demo_env demo_target "main" true (init fs_plain) in
  In (Mkdtemp (scratch demo_env)) (log (snd run)) /\
  forall q, is_prefix (scratch demo_env) q = true -> files (snd run) q = None.
Proof.
  cbv zeta.
  assert (H : In (Mkdtemp (scratch demo_env))
                (log (snd (inject demo_env demo_target "main" true
                             (init fs_plain))))).
  { vm_compute. tauto. }
  split; [exact H|].
  apply (scratch_removed demo_env demo_target "main" true fs_plain
           (fst (inject demo_env demo_target "main" true (init fs_plain)))
           (snd (inject demo_env demo_target "main" true (init fs_plain)))).
  - apply demo_fs_wf.
  - apply pair_of. reflexivity.
  - exact H.
Defined.


(* ================================================================== *)
(** ** Further properties: errors before and during the fetch          *)
(* ================================================================== *)



(** X2.  When one of the three [git] commands exits non-zero, the run ends
    in [CalledProcessError]: the [git] calls in the log are exactly those up
    to and including the first one that fails, the scratch directory is
    removed and every other path is as the manifest stage left it - nothing
    is copied. *)
Theorem git_failure_copies_nothing (E : env) (target : path)
    (branch : string) (force : bool) (s s1 : state)
    (repo : option string) (br : string) (incl : list string) :
  load_config E target branch s = (Ok (repo, br, incl), s1) ->
  files s1 (scratch E) = None ->
  is_dir_at (files s1) (parent (scratch E)) = true ->
  fst (cloned E repo br) && fst (sparse_ready E repo br)
    && fst (checked_out E repo br incl) = false ->
  exists s',
    inject E target branch force s = (Raise CalledProcessError, s') /\
    log s' = log s1 ++ [Mkdtemp (scratch E); cloning repo br]
                    ++ firstn (failing_call E repo br incl)
                         (git_calls E repo br incl) /\
    (forall q, is_prefix (scratch E) q = true -> files s' q = None) /\
    (forall q, is_prefix (scratch E) q = false -> files s' q = files s1 q).
Proof.
  intros Hl Hs Hp Hg. rewrite inject_eq, Hl. destruct s1 as [f1 l1].
  unfold failing_call.
  cbn [files log] in *. rewrite materialize_eq, Hs, Hp. unfold try_finally.
  rewrite fetch_and_copy_eq. cbv zeta.
  assert (Hout : forall w g q, is_prefix (scratch E) q = false ->
            remove_tree (scratch E) (graft (scratch E) w g) q = g q).
  { intros w g q Hq. now rewrite remove_tree_outside, graft_outside. }
  assert (Hupd : forall q, is_prefix (scratch E) q = false ->
            upd (scratch E) (Some Dir) f1 q = f1 q).
  { intros q Hq. apply upd_other. intros <-. now rewrite is_prefix_refl in Hq. }
  destruct (fst (cloned E repo br)).
  2:{ rewrite run_rmtree. cbn [files log]. rewrite graft_root.
      eexists. split; [reflexivity|]. cbn [files log].
      split; [now rewrite <- app_assoc|]. split.
      - intros q Hq. unfold remove_tree. now rewrite Hq.
      - intros q Hq. now rewrite Hout, Hupd. }
  destruct (fst (sparse_ready E repo br)).
  2:{ rewrite run_rmtree. cbn [files log]. rewrite graft_root.
      eexists. split; [reflexivity|]. cbn [files log].
      split; [now rewrite <- app_assoc|]. split.
      - intros q Hq. unfold remove_tree. now rewrite Hq.
      - intros q Hq. rewrite Hout by assumption.
        now rewrite graft_outside, Hupd. }
  destruct (fst (checked_out E repo br incl)); [discriminate|].
  rewrite run_rmtree. cbn [files log]. unfold fetched at 1.
  rewrite graft_root. eexists. split; [reflexivity|]. cbn [files log].
  split; [now rewrite <- app_assoc|]. split.
  - intros q Hq. unfold remove_tree. now rewrite Hq.
  - intros q Hq. rewrite remove_tree_outside by assumption.
    now rewrite fetched_outside.
Qed.

(** The clone of [https://github.com/None.git] fails. *)
Lemma git_failure_copies_nothing_witness :
  let s := init fs_no_repository_field in
  let s1 := snd (load_config demo_env demo_target "main" s) in
  fst (cloned demo_env None "main") = false /\
  exists s',
    inject demo_env demo_target "main" true s = (Raise CalledProcessError, s') /\
    log s' = log s1 ++ [Mkdtemp (scratch demo_env); cloning None "main"]
                    ++ firstn (failing_call demo_env None "main" ["Makefile"])
                         (git_calls demo_env None "main" ["Makefile"]) /\
    (forall q, is_prefix (scratch demo_env) q = true -> files s' q = None) /\
    (forall q, is_prefix (scratch demo_env) q = false ->
               files s' q = files s1 q).
Proof.
  cbv zeta. split; [reflexivity|].
  apply (git_failure_copies_nothing demo_env demo_target "main" true
           (init fs_no_repository_field)
           (snd (load_config demo_env demo_target "main"
                   (init fs_no_repository_field)))
           None "main" ["Makefile"]).
  - apply pair_of. vm_compute. reflexivity.
  - vm_compute. reflexivity.
  - vm_compute. reflexivity.
  - reflexivity.
Defined.

(** X3.  A clash on the manifest path stops the run before anything is
    written or fetched: [.github] being a regular file raises
    [FileExistsError] at the [mkdir], and [.github/template.yml] being a
    directory raises [IsADirectoryError] at the [open]. *)
Theorem manifest_path_clash (E : env) (target : path) (branch : string)
    (force : bool) (f : fs) (l : list event) :
  wf f ->
  is_dir_at f (target ++ [".git"]) = true ->
  ((exists d, f (target ++ [".github"]) = Some (File d)) ->
   inject E target branch force (mkState f l)
   = (Raise FileExistsError, mkState f (l ++ intro_log target branch))) /\
  (f (template_path target) = Some Dir ->
   inject E target branch force (mkState f l)
   = (Raise IsADirectoryError,
      mkState f (l ++ intro_log target branch
                   ++ [Info "Using existing .github/template.yml"]))).
Proof.
  intros W Hg. split.
  - intros [d Hd]. rewrite inject_eq, load_config_eq, Hg.
    assert (Hm : mkdir_rev (rev (target ++ [".github"])) f = Raise FileExistsError).
    { rewrite rev_unit. simpl. rewrite rev_involutive. now rewrite Hd. }
    now rewrite Hm.
  - intros Ht.
    assert (Hd : f (target ++ [".github"]) = Some Dir).
    { apply template_dir_exists; [assumption | congruence]. }
    rewrite inject_eq, load_config_eq, Hg, (mkdir_rev_existing _ _ Hd).
    cbv zeta. unfold ensured, ensure_log. rewrite Ht. cbv iota.
    now rewrite Ht.
Qed.

Lemma manifest_path_clash_witness :
  (inject demo_env demo_target "main" true (mkState fs_github_is_file [])
   = (Raise FileExistsError,
      mkState fs_github_is_file ([] ++ intro_log demo_target "main"))) /\
  (inject demo_env demo_target "main" true (mkState fs_manifest_is_dir [])
   = (Raise IsADirectoryError,
      mkState fs_manifest_is_dir
        ([] ++ intro_log demo_target "main"
            ++ [Info "Using existing .github/template.yml"]))).
Proof.
  split.
  - apply (manifest_path_clash demo_env demo_target "main" true
             fs_github_is_file []).
    + apply demo_fs_wf.
    + reflexivity.
    + exists "oops". reflexivity.
  - apply (manifest_path_clash demo_env demo_target "main" true
             fs_manifest_is_dir []).
    + apply demo_fs_wf.
    + reflexivity.
    + reflexivity.
Defined.

(* ================================================================== *)
(** ** Further properties: the events of a run                         *)
(* ================================================================== *)

Lemma path_line_logger (force : bool) (p : string) (e : event) :
  path_line force p e -> logger_line e.
Proof. intros [-> | [[_ ->] | ->]]; exact I. Qed.

Lemma copy_step_line (tmp_dir target : path) (force : bool) (p : string)
    (s s' : state) :
  copy_step tmp_dir target force p s (Ok tt) s' ->
  exists e, log s' = log s ++ [e] /\ path_line force p e.
Proof.
  intros H. inversion H; subst; cbn [log]; eexists; (split; [reflexivity|]);
    unfold path_line; auto.
Qed.

Lemma copy_step_raise (tmp_dir target : path) (force : bool) (p : string)
    (s s' : state) (e : exn) :
  copy_step tmp_dir target force p s (Raise e) s' -> log s' = log s.
Proof. intros H. inversion H; subst; reflexivity. Qed.

Lemma copy_loop_lines (tmp_dir target : path) (force : bool)
    (xs : list string) (s : state) r (s' : state) :
  for_each xs (copy_path tmp_dir target force) s = (r, s') ->
  exists lines, log s' = log s ++ lines /\ Forall logger_line lines /\
    (r = Ok tt -> Forall2 (path_line force) xs lines).
Proof.
  revert s. induction xs as [|x xs IH]; intros s H; simpl in H.
  - inversion H; subst. exists []. rewrite app_nil_r. auto.
  - apply bind_inv in H as [(u & s1 & H1 & H2)|(e & H1 & Hr)].
    2:{ subst r. apply copy_path_step, copy_step_raise in H1.
        exists []. rewrite app_nil_r. split; [assumption|].
        split; [constructor | discriminate]. }
    destruct u. apply copy_path_step, copy_step_line in H1 as (e & He & Hp).
    apply IH in H2 as (lines & Hl & Hf & Hr).
    exists (e :: lines). rewrite Hl, He, <- app_assoc. split; [reflexivity|].
    split; [constructor; eauto using path_line_logger|].
    intros Hok. constructor; auto.
Qed.

Lemma execs_app (l1 l2 : list event) : execs (l1 ++ l2) = execs l1 ++ execs l2.
Proof. apply filter_app. Qed.

Lemma execs_lines (l : list event) : Forall logger_line l -> execs l = [].
Proof.
  induction 1 as [|e l He _ IH]; [reflexivity|].
  unfold execs in *. destruct e; simpl in *; try contradiction; assumption.
Qed.

Lemma execs_firstn (E : env) (repo : option string) (br : string)
    (incl : list string) (n : nat) :
  execs (firstn n (git_calls E repo br incl)) = firstn n (git_calls E repo br incl).
Proof.
  unfold execs, git_calls, clone_call, init_call, set_call.
  destruct n as [|[|[|n]]]; try reflexivity.
  simpl. now rewrite firstn_nil.
Qed.

(** X4.  The only programs a run starts are the three [git] commands of the
    fetch - clone, sparse-checkout init, sparse-checkout set - each at most
    once and in this order; in particular nothing is committed or pushed. *)
Theorem git_calls_only (E : env) (target : path) (branch : string)
    (force : bool) (f : fs) (r : result unit) (s' : state) :
  inject E target branch force (init f) = (r, s') ->
  exists repo br incl n,
    execs (log s') = firstn n (git_calls E repo br incl).
Proof.
  rewrite inject_eq. unfold init.
  destruct (load_config E target branch (mkState f [])) as [[cfg|e] [f1 l1]] eqn:Hl;
    apply load_config_props in Hl as (_ & _ & t & Ht & Hlines);
    cbn [log] in Ht; simpl in Ht; subst l1.
  2:{ intros [= <- <-]. exists None, "", [], 0. cbn [log firstn].
      now apply execs_lines. }
  destruct cfg as [[repo br] incl]. rewrite materialize_eq.
  destruct (f1 (scratch E)) as [x|].
  { intros [= <- <-]. exists repo, br, incl, 0. cbn [log firstn].
    apply execs_lines. assumption. }
  destruct (is_dir_at f1 (parent (scratch E))).
  2:{ intros [= <- <-]. exists repo, br, incl, 0. cbn [log firstn].
      apply execs_lines. assumption. }
  destruct (try_finally _ _ _) as [rt st] eqn:Hm.
  apply try_finally_inv in Hm as (rb & sb & rf & Hb & Hf & _).
  apply rmtree_log in Hf. rewrite fetch_and_copy_eq in Hb. cbv zeta in Hb.
  assert (Hpre : execs (t ++ [Mkdtemp (scratch E); cloning repo br]) = []).
  { rewrite execs_app, (execs_lines _ Hlines). reflexivity. }
  assert (Hshape : exists n lines,
            log sb = (t ++ [Mkdtemp (scratch E); cloning repo br])
                     ++ firstn n (git_calls E repo br incl) ++ lines /\
            Forall logger_line lines).
  { destruct (fst (cloned E repo br)).
    2:{ inversion Hb; subst. exists 1, []. cbn [log]. auto. }
    destruct (fst (sparse_ready E repo br)).
    2:{ inversion Hb; subst. exists 2, []. cbn [log]. auto. }
    destruct (fst (checked_out E repo br incl)).
    2:{ inversion Hb; subst. exists 3, []. cbn [log]. auto. }
    apply copy_loop_lines in Hb as (lines & Hlog & Hfl & _).
    exists 3, lines. cbn [log] in Hlog. rewrite Hlog.
    rewrite <- app_assoc. auto. }
  destruct Hshape as (n & lines & Hlog & Hfl).
  assert (Hex : execs (log st) = firstn n (git_calls E repo br incl)).
  { rewrite Hf, Hlog, execs_app, Hpre, execs_app, execs_firstn.
    rewrite (execs_lines _ Hfl). simpl. now rewrite app_nil_r. }
  destruct rt as [[]|e]; intros [= <- <-]; exists repo, br, incl, n;
    cbn [log]; [|exact Hex].
  rewrite execs_app, Hex. simpl. now rewrite app_nil_r.
Qed.

(** X5.  The events of a run that completes: after the manifest stage come
    the scratch creation, the "Cloning" line, the three [git] calls, then
    exactly one line per include path, in manifest order - "not found",
    "already exists" (only without [force]) or "[ADD]" - and the two closing
    lines. *)
Theorem completed_run_events (E : env) (target : path) (branch : string)
    (force : bool) (s s1 s' : state) (repo : option string) (br : string)
    (incl : list string) :
  load_config E target branch s = (Ok (repo, br, incl), s1) ->
  inject E target branch force s = (Ok tt, s') ->
  exists lines,
    Forall2 (path_line force) incl lines /\
    log s' = log s1 ++ [Mkdtemp (scratch E); cloning repo br]
                    ++ git_calls E repo br incl
                    ++ lines
                    ++ [Success "Rhiza templates materialized successfully";
                        Info next_steps].
Proof.
  intros Hl. rewrite inject_eq, Hl. destruct s1 as [f1 l1]. cbn [log].
  rewrite materialize_eq.
  destruct (f1 (scratch E)) as [x|]; [discriminate|].
  destruct (is_dir_at f1 (parent (scratch E))); [|discriminate].
  destruct (try_finally _ _ _) as [rt st] eqn:Hm.
  destruct rt as [[]|e]; [|discriminate]. intros [= <-]. cbn [log].
  apply try_finally_inv in Hm as (rb & sb & rf & Hb & Hf & Hr).
  destruct rf as [[]|e]; [subst rb | discriminate].
  apply rmtree_log in Hf. rewrite fetch_and_copy_eq in Hb. cbv zeta in Hb.
  destruct (fst (cloned E repo br)); [|discriminate].
  destruct (fst (sparse_ready E repo br)); [|discriminate].
  destruct (fst (checked_out E repo br incl)); [|discriminate].
  apply copy_loop_lines in Hb as (lines & Hlog & _ & Hok).
  exists lines. split; [now apply Hok|].
  rewrite Hf, Hlog. cbn [log]. unfold git_calls.
  rewrite <- !app_assoc. reflexivity.
Qed.

Lemma completed_run_events_witness :
  let s := init fs_nested in
  let s1 := snd (load_config demo_env demo_target "main" s) in
  let repo := Some "acme/templates" in
  exists lines,
    Forall2 (path_line false) ["a"; "a/b"] lines /\
    log (snd (inject demo_env demo_target "main" false s))
    = log s1 ++ [Mkdtemp (scratch demo_env); cloning repo "main"]
             ++ git_calls demo_env repo "main" ["a"; "a/b"]
             ++ lines
             ++ [Success "Rhiza templates materialized successfully";
                 Info next_steps].
Proof.
  cbv zeta.
  apply (completed_run_events demo_env demo_target "main" false
           (init fs_nested)
           (snd (load_config demo_env demo_target "main" (init fs_nested)))
           (snd (inject demo_env demo_target "main" false (init fs_nested)))
           (Some "acme/templates") "main" ["a"; "a/b"]).
  - apply pair_of. vm_compute. reflexivity.
  - apply pair_of. vm_compute. reflexivity.
Defined.

(* ================================================================== *)
(** ** Further properties: what a run does to the file system          *)
(* ================================================================== *)

(** X7.  With or without [force], and whatever the outcome, a run whose
    include entries have no [..] component changes no existing entry that
    is outside the destinations of the manifest's include paths. *)
Theorem untouched_outside_destinations (E : env) (target : path)
    (branch : string) (force : bool) (f : fs) (r : result unit) (s' : state)
    (q : path) (e : entry) :
  wf f ->
  f q = Some e ->
  (forall repo br incl sl,
     load_config E target branch (init f) = (Ok (repo, br, incl), sl) ->
     forall p, In p incl ->
       plain p = true /\ is_prefix (joinpath target p) q = false) ->
  inject E target branch force (init f) = (r, s') ->
  files s' q = Some e.
Proof.
  intros W Hq Hp. rewrite inject_eq. unfold init in *.
  assert (Hp' : forall repo br incl sl,
            load_config E target branch (mkState f []) = (Ok (repo, br, incl), sl) ->
            forall p, In p incl -> is_prefix (joinpath target p) q = false).
  { intros repo br incl sl Hl p Hin. now destruct (Hp repo br incl sl Hl p Hin). }
  clear Hp. rename Hp' into Hp.
  destruct (load_config E target branch (mkState f [])) as [[cfg|x] [f1 l1]] eqn:Hl.
  2:{ apply load_config_props in Hl as (_ & G & _).
      intros [= <- <-]. now apply G. }
  destruct cfg as [[repo br] incl]. specialize (Hp repo br incl _ eq_refl).
  apply load_config_props in Hl as (W1 & G & _). cbn [files] in *.
  destruct (materialize E target force (repo, br, incl) (mkState f1 l1))
    as [rm sm] eqn:Em.
  apply materialize_keeps with (q := q) (e := e) in Em; auto.
  destruct rm as [[]|x]; now intros [= <- <-].
Qed.

(** The repository's own [.git] under a forced run. *)
Lemma untouched_outside_destinations_witness :
  fs_plain (demo_target ++ [".git"]) = Some Dir /\
  files (snd (inject demo_env demo_target "main" true (init fs_plain)))
    (demo_target ++ [".git"]) = Some Dir.
Proof.
  assert (H : fs_plain (demo_target ++ [".git"]) = Some Dir) by reflexivity.
  split; [exact H|].
  apply (untouched_outside_destinations demo_env demo_target "main" true
           fs_plain
           (fst (inject demo_env demo_target "main" true (init fs_plain)))).
  - apply demo_fs_wf.
  - exact H.
  - intros repo br incl sl Hl. vm_compute in Hl. injection Hl as _ _ <- _.
    intros p [<-|[<-|[<-|[]]]]; split; vm_compute; reflexivity.
  - apply pair_of. reflexivity.
Defined.

(** X8.  Without [force] a run whose include entries have no [..]
    component only adds: every entry of the file system it started from is
    still there, unchanged, when it returns or raises. *)
Theorem force_off_only_adds (E : env) (target : path) (branch : string)
    (f : fs) (r : result unit) (s' : state) :
  wf f ->
  (forall repo br incl sl,
     load_config E target branch (init f) = (Ok (repo, br, incl), sl) ->
     forall p, In p incl -> plain p = true) ->
  inject E target branch false (init f) = (r, s') ->
  forall q e, f q = Some e -> files s' q = Some e.
Proof.
  intros W _ H. exact (inject_force_off_grows E target branch f r s' W H).
Qed.

Lemma force_off_only_adds_witness :
  fs_nested (demo_target ++ ["a"; "x"]) = Some (File "mine") /\
  files (snd (inject demo_env demo_target "main" false (init fs_nested)))
    (demo_target ++ ["a"; "x"]) = Some (File "mine").
Proof.
  assert (H : fs_nested (demo_target ++ ["a"; "x"]) = Some (File "mine"))
    by reflexivity.
  split; [exact H|].
  apply (force_off_only_adds demo_env demo_target "main" fs_nested
           (fst (inject demo_env demo_target "main" false (init fs_nested)))).
  - apply demo_fs_wf.
  - intros repo br incl sl Hl. vm_compute in Hl. injection Hl as _ _ <- _.
    intros p [<-|[<-|[]]]; reflexivity.
  - apply pair_of. reflexivity.
  - exact H.
Defined.

(** [Makefile], replaced by upstream's under [force]. *)
Lemma forced_copy_matches_upstream_witness :
  let run := inject demo_env demo_target "main" true (init fs_plain) in
  let incl := ["Makefile"; "a"; "docs/missing.md"] in
  fst run = Ok tt /\
  forall x, files (snd run) (demo_target ++ parts "Makefile" ++ x)
            = fs_of (snd (checked_out demo_env (Some "acme/templates") "main"
                            incl)) (parts "Makefile" ++ x).
Proof.
  cbv zeta.
  assert (H : fst (inject demo_env demo_target "main" true (init fs_plain))
              = Ok tt).
  { vm_compute. reflexivity. }
  split; [exact H|].
  apply (forced_copy_matches_upstream demo_env demo_target "main" fs_plain
           (Some "acme/templates") "main" ["Makefile"; "a"; "docs/missing.md"]
           (snd (load_config demo_env demo_target "main" (init fs_plain)))).
  - apply demo_fs_wf.
  - apply pair_of. vm_compute. reflexivity.
  - intros p [<-|[<-|[<-|[]]]]; split; reflexivity.
  - reflexivity.
  - apply pair_of. exact H.
  - left. reflexivity.
  - vm_compute. discriminate.
Defined.

(* ================================================================== *)
(** ** Running again without [force]                                   *)
(* ================================================================== *)

Section ForceOffAgain.

Variables (tmp_dir target : path).

Lemma copy_path_existing (p : string) (s : state) :
  files s (joinpath tmp_dir p) <> None ->
  files s (joinpath target p) <> None ->
  copy_path tmp_dir target false p s
  = (Ok tt, mkState (files s) (log s ++ [skip_existing p])).
Proof.
  intros Hs Hd. unfold copy_path.
  rewrite bind_unfold, run_path_exists. unfold exists_at.
  destruct (files s (joinpath tmp_dir p)) eqn:Es; [|contradiction].
  cbn [negb]. rewrite bind_unfold, run_path_exists. unfold exists_at.
  destruct (files s (joinpath target p)) eqn:Ed; [|contradiction].
  cbn [negb andb]. apply run_emit.
Qed.

(** When every source that exists has its destination, the loop copies
    nothing. *)
Lemma copy_loop_all_skip (xs : list string) (f : fs) (l : list event) :
  (forall p, In p xs ->
     f (joinpath tmp_dir p) <> None -> f (joinpath target p) <> None) ->
  exists lines,
    Forall2 skipped xs lines /\
    for_each xs (copy_path tmp_dir target false) (mkState f l)
    = (Ok tt, mkState f (l ++ lines)).
Proof.
  revert l. induction xs as [|p xs IH]; intros l H; simpl.
  - exists []. split; [constructor | now rewrite app_nil_r].
  - destruct (f (joinpath tmp_dir p)) eqn:Es.
    + destruct (IH (l ++ [skip_existing p])) as (t & Ht & Hrun);
        [intros q Hq; apply H; now right|].
      exists (skip_existing p :: t). split; [constructor; [now right | exact Ht]|].
      rewrite bind_unfold, copy_path_existing; cbn [files log].
      * rewrite Hrun, <- app_assoc. reflexivity.
      * congruence.
      * apply H; [now left | congruence].
    + destruct (IH (l ++ [skip_missing p])) as (t & Ht & Hrun);
        [intros q Hq; apply H; now right|].
      exists (skip_missing p :: t). split; [constructor; [now left | exact Ht]|].
      rewrite bind_unfold, copy_path_missing by exact Es. cbn [files log].
      rewrite Hrun, <- app_assoc. reflexivity.
Qed.

Lemma copy_step_present (p : string) (s : state) r (s' : state) :
  copy_step tmp_dir target false p s r s' -> r = Ok tt ->
  files s (joinpath tmp_dir p) <> None ->
  files s' (joinpath target p) <> None.
Proof.
  intros H.
  destruct H as [Hm | Hs Hd _ | e ? ? ? | f2 ? ? ? ? ?
                | f2 Hs Hc Hmk Hsrc Hdst | f2 d Hs Hc Hmk Hsrc Hdst];
    intros Hr Hx; cbn [files]; try discriminate; try contradiction.
  - assumption.
  - unfold graft. rewrite strip_prefix_nil. unfold subtree.
    rewrite app_nil_r, Hsrc. discriminate.
  - rewrite upd_same. discriminate.
Qed.

(** After a completed loop every source that existed has its destination. *)
Lemma copy_loop_present (xs : list string) (s s' : state) :
  wf (files s) ->
  for_each xs (copy_path tmp_dir target false) s = (Ok tt, s') ->
  forall p, In p xs ->
    files s (joinpath tmp_dir p) <> None ->
    files s' (joinpath target p) <> None.
Proof.
  revert s. induction xs as [|x xs IH]; intros s W H p Hin Hs; [contradiction|].
  simpl in H. apply bind_inv in H as [(a & s1 & H1 & H2)|(e & _ & He)];
    [|discriminate].
  pose proof H1 as Hstep. apply copy_path_step in Hstep.
  assert (W1 : wf (files s1)) by (eapply copy_step_wf; eauto).
  destruct a. destruct Hin as [->|Hin].
  - pose proof (copy_step_present _ _ _ _ Hstep eq_refl Hs) as Hd.
    apply copy_loop_grows in H2 as [_ G]; [|assumption].
    destruct (files s1 (joinpath target p)) eqn:Ex; [|contradiction].
    rewrite (G _ _ Ex). discriminate.
  - apply (IH s1); auto.
    pose proof (copy_step_grows _ _ _ _ _ _ W Hstep) as G.
    destruct (files s (joinpath tmp_dir p)) eqn:Ex; [|contradiction].
    rewrite (G _ _ Ex). discriminate.
Qed.

End ForceOffAgain.

(** A manifest stage that succeeded succeeds again, with the same
    configuration, on any file system that kept what it left. *)
Lemma load_config_again (E : env) (target : path) (branch : string)
    (f : fs) (l : list event) cfg (s1 : state) (f' : fs) (l' : list event) :
  load_config E target branch (mkState f l) = (Ok cfg, s1) ->
  wf f' -> grows (files s1) f' ->
  load_config E target branch (mkState f' l')
  = (Ok cfg,
     mkState f' (l' ++ intro_log target branch
                    ++ [Info "Using existing .github/template.yml"]
                    ++ include_log (snd cfg))).
Proof.
  intros H W' G. rewrite load_config_eq in H.
  destruct (is_dir_at f (target ++ [".git"])) eqn:Hg; [|discriminate].
  destruct (mkdir_rev (rev (target ++ [".github"])) f) as [f1|e] eqn:Hm;
    [|discriminate].
  cbv zeta in H.
  destruct (ensured E target branch f1 (template_path target))
    as [[text|]|] eqn:Ht; try discriminate.
  destruct (yaml_safe_load E text) as [config|] eqn:Hy; [|discriminate].
  destruct (manifest_include config) as [|p ps] eqn:Hi; [discriminate|].
  injection H as <- <-. cbn [files] in G.
  assert (Ht' : f' (template_path target) = Some (File text)) by now apply G.
  assert (Hg' : is_dir_at f' (target ++ [".git"]) = true).
  { unfold is_dir_at in *.
    destruct (f (target ++ [".git"])) as [[d|]|] eqn:Ex; try discriminate.
    apply (grows_mkdir _ _ _ Hm) in Ex. apply grows_ensured with (E := E)
      (target := target) (branch := branch) in Ex.
    now rewrite (G _ _ Ex). }
  rewrite load_config_eq, Hg'.
  rewrite mkdir_rev_existing
    by (apply template_dir_exists; [assumption | congruence]).
  cbv zeta. unfold ensured, ensure_log. rewrite Ht'. cbv iota.
  rewrite Ht', Hy, Hi. cbn [snd]. now rewrite <- !app_assoc.
Qed.

(** What a completed run without [force] leaves behind. *)
Lemma force_off_completed (E : env) (target : path)
    (repo : option string) (br : string) (incl : list string)
    (fl : fs) (ll : list event) (sm : state) :
  wf fl -> fl target <> None -> is_prefix target (scratch E) = false ->
  materialize E target false (repo, br, incl) (mkState fl ll) = (Ok tt, sm) ->
  is_dir_at fl (parent (scratch E)) = true /\
  fst (cloned E repo br) = true /\
  fst (sparse_ready E repo br) = true /\
  fst (checked_out E repo br incl) = true /\
  wf (files sm) /\ grows fl (files sm) /\ files sm (scratch E) = None /\
  forall p, In p incl ->
    fetched E repo br incl (upd (scratch E) (Some Dir) (files sm))
      (joinpath (scratch E) p) <> None ->
    fetched E repo br incl (upd (scratch E) (Some Dir) (files sm))
      (joinpath target p) <> None.
Proof.
  intros W Htar Hout. rewrite materialize_eq.
  destruct (fl (scratch E)) as [x|] eqn:Es; [discriminate|].
  destruct (is_dir_at fl (parent (scratch E))) eqn:Ep; [|discriminate].
  intros H. apply try_finally_inv in H as (rb & sb & rf & Hb & Hf & Hr).
  destruct rf as [[]|e]; [|discriminate]. subst rb.
  rewrite fetch_and_copy_eq in Hb. cbv zeta in Hb.
  destruct (fst (cloned E repo br)); [|discriminate].
  destruct (fst (sparse_ready E repo br)); [|discriminate].
  destruct (fst (checked_out E repo br incl)); [|discriminate].
  set (f0 := upd (scratch E) (Some Dir) fl) in *.
  assert (W1 : wf (fetched E repo br incl f0)).
  { apply wf_fetched; [now apply wf_mkdtemp | apply upd_same]. }
  assert (Hin : is_prefix (scratch E) target = false).
  { now apply (not_under_missing fl). }
  pose proof (fun Wx => copy_loop_present _ _ _ _ _ Wx Hb) as Hpres.
  cbn [files] in Hpres. specialize (Hpres W1).
  apply copy_loop_grows in Hb as [Wb Gb]; [|exact W1].
  cbn [files] in Gb, Hpres.
  rewrite run_rmtree in Hf.
  destruct (files sb (scratch E)) as [[d|]|]; try discriminate.
  inversion Hf; subst sm; clear Hf. cbn [files].
  split; [reflexivity|]. split; [reflexivity|]. split; [reflexivity|].
  split; [reflexivity|]. split; [now apply wf_remove_tree|].
  split; [|split].
  - intros q e Hq.
    assert (Ho : is_prefix (scratch E) q = false).
    { apply (not_under_missing fl); [auto | auto | congruence]. }
    rewrite remove_tree_outside by exact Ho. apply Gb.
    unfold f0. now rewrite fetched_outside.
  - unfold remove_tree. now rewrite is_prefix_refl.
  - intros p Hp.
    destruct (joinpath_cases (scratch E) target p)
      as [(_ & -> & ->)|(_ & Hsrc & Hdst)]; [auto|].
    specialize (Hpres p Hp). rewrite Hsrc, Hdst in *.
    intros Hx.
    rewrite fetched_outside
      by (apply (scratch_not_above (scratch E) target Hin Hout _ []) ||
          (rewrite <- (app_nil_r (scratch E));
           apply (scratch_not_above (scratch E) target Hin Hout))).
    rewrite remove_tree_outside
      by (rewrite <- (app_nil_r (scratch E));
          apply (scratch_not_above (scratch E) target Hin Hout)).
    apply Hpres. unfold fetched in *. rewrite graft_inside in *. exact Hx.
Qed.

(** A run in which every source that exists already has its destination. *)
Lemma materialize_all_skip (E : env) (target : path)
    (repo : option string) (br : string) (incl : list string)
    (f : fs) (l : list event) :
  wf f -> f (scratch E) = None ->
  is_dir_at f (parent (scratch E)) = true ->
  fst (cloned E repo br) = true ->
  fst (sparse_ready E repo br) = true ->
  fst (checked_out E repo br incl) = true ->
  (forall p, In p incl ->
     fetched E repo br incl (upd (scratch E) (Some Dir) f)
       (joinpath (scratch E) p) <> None ->
     fetched E repo br incl (upd (scratch E) (Some Dir) f)
       (joinpath target p) <> None) ->
  exists lines s',
    Forall2 skipped incl lines /\
    materialize E target false (repo, br, incl) (mkState f l) = (Ok tt, s') /\
    (forall q, files s' q = f q) /\
    log s' = l ++ [Mkdtemp (scratch E); cloning repo br]
               ++ git_calls E repo br incl ++ lines.
Proof.
  intros W Es Ep G1 G2 G3 H.
  destruct (copy_loop_all_skip (scratch E) target incl _
              ((l ++ [Mkdtemp (scratch E); cloning repo br])
                 ++ git_calls E repo br incl) H)
    as (lines & Hlines & Hloop).
  exists lines. eexists. split; [exact Hlines|].
  rewrite materialize_eq, Es, Ep. unfold try_finally.
  rewrite fetch_and_copy_eq. cbv zeta. rewrite G1, G2, G3.
  unfold git_calls in Hloop. rewrite Hloop.
  rewrite run_rmtree. cbn [files log].
  unfold fetched at 1. rewrite graft_root.
  split; [reflexivity|]. cbn [files log]. split.
  - intros q. unfold remove_tree.
    destruct (is_prefix (scratch E) q) eqn:Hq.
    + destruct (f q) eqn:Ex; [|reflexivity].
      rewrite (not_under_missing f (scratch E) q) in Hq;
        [discriminate | auto | auto | congruence].
    + now apply fetched_outside.
  - unfold git_calls. now rewrite <- !app_assoc.
Qed.

Lemma skipped_not_added (xs : list string) (lines : list event) (p : string) :
  Forall2 skipped xs lines -> ~ In (added p) lines.
Proof.
  induction 1 as [|x e xs lines Hx _ IH]; intros Hin; [contradiction|].
  destruct Hin as [He|Hin]; [|now apply IH].
  destruct Hx as [->| ->]; discriminate He.
Qed.

(** X10.  Idempotence without [force].  After a run without [force] that
    completed, with include entries that have no [..] component and the
    scratch directory not created inside the target, running [inject] again
    against the same upstream completes too and leaves the file system entry
    for entry as the first run left it.  Its log is the manifest lines, the
    scratch creation, the three [git] calls, one skip line per include path
    (not found upstream, or already there) and the closing lines: no path
    is reported as added. *)
Theorem force_off_rerun_changes_nothing (E : env) (target : path)
    (branch : string) (f : fs) (repo : option string) (br : string)
    (incl : list string) (sl s1 : state) (r2 : result unit) (s2 : state) :
  wf f ->
  load_config E target branch (init f) = (Ok (repo, br, incl), sl) ->
  (forall p, In p incl -> plain p = true) ->
  is_prefix target (scratch E) = false ->
  inject E target branch false (init f) = (Ok tt, s1) ->
  inject E target branch false (init (files s1)) = (r2, s2) ->
  r2 = Ok tt /\
  (forall q, files s2 q = files s1 q) /\
  (exists lines,
     Forall2 skipped incl lines /\
     log s2 = intro_log target branch
                ++ [Info "Using existing .github/template.yml"]
                ++ include_log incl
                ++ [Mkdtemp (scratch E); cloning repo br]
                ++ git_calls E repo br incl ++ lines
                ++ [Success "Rhiza templates materialized successfully";
                    Info next_steps]) /\
  forall p, ~ In (added p) (log s2).
Proof.
  intros W Hl _ Hout H1 H2.
  destruct sl as [fl ll]. unfold init in *.
  pose proof Hl as Hp. apply load_config_props in Hp as (Wl & Gl & _).
  cbn [files] in *. specialize (Wl W).
  pose proof Hl as Hk. apply load_config_ok in Hk as (Hgit & _).
  assert (Htar : fl target <> None).
  { assert (f target = Some Dir) as Hd.
    { apply (W target ".git"). unfold is_dir_at in Hgit.
      destruct (f (target ++ [".git"])); [discriminate | discriminate]. }
    rewrite (Gl _ _ Hd). discriminate. }
  rewrite inject_eq, Hl in H1.
  destruct (materialize E target false (repo, br, incl) (mkState fl ll))
    as [[[]|e] sm] eqn:Hm; [|discriminate].
  inversion H1; subst s1; clear H1. cbn [files] in *.
  apply force_off_completed in Hm
    as (Hpar & G1 & G2 & G3 & Wm & Gm & Hgone & Hpres); auto.
  pose proof (load_config_again _ _ _ _ _ _ _ (files sm) [] Hl Wm Gm) as Hl2.
  cbn [snd] in Hl2.
  assert (Hpar' : is_dir_at (files sm) (parent (scratch E)) = true).
  { unfold is_dir_at in *.
    destruct (fl (parent (scratch E))) as [[d|]|] eqn:Ex; try discriminate.
    now rewrite (Gm _ _ Ex). }
  destruct (materialize_all_skip E target repo br incl (files sm)
              ([] ++ intro_log target branch
                 ++ [Info "Using existing .github/template.yml"]
                 ++ include_log incl)
              Wm Hgone Hpar' G1 G2 G3 Hpres)
    as (lines & s' & Hlines & Hm2 & Hsame & Hlog).
  rewrite inject_eq, Hl2, Hm2 in H2. inversion H2; subst; clear H2.
  cbn [files log]. split; [reflexivity|]. split; [exact Hsame|].
  assert (Hlog' :
    log s' ++ [Success "Rhiza templates materialized successfully";
               Info next_steps]
    = intro_log target branch
        ++ [Info "Using existing .github/template.yml"]
        ++ include_log incl
        ++ [Mkdtemp (scratch E); cloning repo br]
        ++ git_calls E repo br incl ++ lines
        ++ [Success "Rhiza templates materialized successfully";
            Info next_steps]).
  { rewrite Hlog. rewrite app_nil_l. now rewrite <- !app_assoc. }
  split; [exists lines; split; [exact Hlines | exact Hlog']|].
  intros p. rewrite Hlog'. rewrite !in_app_iff.
  unfold intro_log, include_log, git_calls, clone_call, init_call, set_call,
    cloning, added.
  cbn [In]. rewrite in_map_iff.
  intros [H|[H|[H|[H|[H|[H|H]]]]]].
  - destruct H as [H|[H|[]]]; discriminate H.
  - destruct H as [H|[]]; discriminate H.
  - destruct H as [H|(x & H & _)]; discriminate H.
  - destruct H as [H|[H|[]]]; discriminate H.
  - destruct H as [H|[H|[H|[]]]]; discriminate H.
  - now apply (skipped_not_added incl lines p Hlines).
  - destruct H as [H|[H|[]]]; [|discriminate H].
    injection H as H. simpl in H. discriminate H.
Qed.

Lemma force_off_rerun_changes_nothing_witness :
  let run1 := inject demo_env demo_target "main" false (init fs_nested) in
  let run2 := inject demo_env demo_target "main" false
                (init (files (snd run1))) in
  fst run2 = Ok tt /\
  (forall q, files (snd run2) q = files (snd run1) q) /\
  (exists lines,
     Forall2 skipped ["a"; "a/b"] lines /\
     log (snd run2)
     = intro_log demo_target "main"
         ++ [Info "Using existing .github/template.yml"]
         ++ include_log ["a"; "a/b"]
         ++ [Mkdtemp (scratch demo_env); cloning (Some "acme/templates") "main"]
         ++ git_calls demo_env (Some "acme/templates") "main" ["a"; "a/b"]
         ++ lines ++ [Success "Rhiza templates materialized successfully";
                      Info next_steps]) /\
  forall p, ~ In (added p) (log (snd run2)).
Proof.
  cbv zeta.
  apply (force_off_rerun_changes_nothing demo_env demo_target "main" fs_nested
           (Some "acme/templates") "main" ["a"; "a/b"]
           (snd (load_config demo_env demo_target "main" (init fs_nested)))
           (snd (inject demo_env demo_target "main" false (init fs_nested)))).
  - apply demo_fs_wf.
  - apply pair_of. vm_compute. reflexivity.
  - intros p [<-|[<-|[]]]; reflexivity.
  - reflexivity.
  - apply pair_of. vm_compute. reflexivity.
  - apply pair_of. reflexivity.
Defined.

(* ================================================================== *)
(** ** The branch argument after the manifest exists                   *)
(* ================================================================== *)

(** What the manifest stage leaves when it had to create the manifest. *)
Lemma load_config_created (E : env) (target : path) (b1 : string)
    (f : fs) (l : list event) cfg (s1 : state) :
  f (template_path target) = None ->
  load_config E target b1 (mkState f l) = (Ok cfg, s1) ->
  files s1 (template_path target)
    = Some (File (yaml_dump E (default_manifest b1))) /\
  files s1 (target ++ [".github"]) = Some Dir /\
  files s1 (target ++ [".git"]) = Some Dir.
Proof.
  intros Hno H. rewrite load_config_eq in H.
  destruct (is_dir_at f (target ++ [".git"])) eqn:Hg; [|discriminate].
  destruct (mkdir_rev (rev (target ++ [".github"])) f) as [f1|e] eqn:Hm;
    [|discriminate].
  cbv zeta in H.
  assert (Hno1 : f1 (template_path target) = None).
  { apply (mkdir_parent_keeps _ f); [assumption|].
    now rewrite parent_template_path. }
  assert (He : ensured E target b1 f1
               = upd (template_path target)
                   (Some (File (yaml_dump E (default_manifest b1)))) f1).
  { unfold ensured. now rewrite Hno1. }
  rewrite He, upd_same in H.
  destruct (yaml_safe_load E (yaml_dump E (default_manifest b1)))
    as [config|]; [|discriminate].
  destruct (manifest_include config); [discriminate|].
  injection H as _ <-. cbn [files]. split; [apply upd_same|].
  split.
  - rewrite upd_other
      by (intros Hx; symmetry in Hx; revert Hx; apply template_path_neq).
    apply mkdir_rev_spec in Hm as (D & _). now rewrite rev_involutive in D.
  - unfold is_dir_at in Hg.
    destruct (f (target ++ [".git"])) as [[d|]|] eqn:Ex; try discriminate.
    apply (grows_mkdir _ _ _ Hm) in Ex.
    now rewrite (grows_upd _ _ _ Hno1 _ _ Ex).
Qed.

(** X11.  The manifest a run creates records that run's branch, and the
    manifest's [template-branch] wins over the argument.  Take a repository
    without a manifest and a run without [force] on branch [b1] whose
    manifest stage succeeds, with a YAML reader that reads back what was
    dumped.  However that run ends, the manifest stage of a later run
    called with any branch [b2] resolves to [jebel-quant/rhiza] at [b1]
    with the default include list, logs "Using existing", and writes
    nothing. *)
Theorem created_manifest_pins_branch (E : env) (target : path)
    (b1 b2 : string) (f : fs) cfg (sl : state) (r1 : result unit)
    (s1 : state) (l2 : list event) :
  wf f ->
  f (template_path target) = None ->
  yaml_safe_load E (yaml_dump E (default_manifest b1))
    = Some (default_manifest b1) ->
  load_config E target b1 (init f) = (Ok cfg, sl) ->
  inject E target b1 false (init f) = (r1, s1) ->
  load_config E target b2 (mkState (files s1) l2)
  = (Ok (Some "jebel-quant/rhiza", b1, default_include),
     mkState (files s1)
       (l2 ++ intro_log target b2
           ++ [Info "Using existing .github/template.yml"]
           ++ include_log default_include)).
Proof.
  intros W Hno Hy Hl H1. unfold init in *.
  destruct (load_config_created _ _ _ _ _ _ _ Hno Hl) as (Ht & Hd & Hg).
  pose proof (inject_force_off_grows E target b1 f r1 s1 W H1) as G.
  assert (Gl : grows (files sl) (files s1)).
  { rewrite inject_eq in H1. unfold init in H1. rewrite Hl in H1.
    destruct cfg as [[repo br] incl]. destruct sl as [fl ll].
    pose proof Hl as Hp. apply load_config_props in Hp as (Wl & _).
    destruct (materialize E target false (repo, br, incl) (mkState fl ll))
      as [rm sm] eqn:Hm.
    apply materialize_force_off in Hm as [Gm _]; [|auto].
    destruct rm as [[]|e]; inversion H1; subst; exact Gm. }
  apply Gl in Ht. apply Gl in Hd. apply Gl in Hg.
  rewrite load_config_eq. unfold is_dir_at. rewrite Hg.
  rewrite (mkdir_rev_existing _ _ Hd).
  cbv zeta. unfold ensured, ensure_log. rewrite Ht. cbv iota.
  rewrite Ht, Hy. cbn. rewrite <- !app_assoc. reflexivity.
Qed.

(** A fresh repository, first run on [main], second run called with [dev]. *)
Lemma created_manifest_pins_branch_witness :
  let first := inject demo_env demo_target "main" false (init fs_fresh) in
  load_config demo_env demo_target "dev" (mkState (files (snd first)) [])
  = (Ok (Some "jebel-quant/rhiza", "main", default_include),
     mkState (files (snd first))
       ([] ++ intro_log demo_target "dev"
           ++ [Info "Using existing .github/template.yml"]
           ++ include_log default_include)).
Proof.
  cbv zeta.
  apply (created_manifest_pins_branch demo_env demo_target "main" "dev"
           fs_fresh
           (Some "jebel-quant/rhiza", "main", default_include)
           (snd (load_config demo_env demo_target "main" (init fs_fresh)))
           (fst (inject demo_env demo_target "main" false (init fs_fresh)))).
  - apply demo_fs_wf.
  - reflexivity.
  - reflexivity.
  - apply pair_of. vm_compute. reflexivity.
  - apply pair_of. reflexivity.
Defined.

(** A forced run on [/home/u/proj]. *)
Lemma git_calls_only_witness :
  exists repo br incl n,
    execs (log (snd (inject demo_env demo_target "main" true (init fs_plain))))
    = firstn n (git_calls demo_env repo br incl).
Proof.
  apply (git_calls_only demo_env demo_target "main" true fs_plain
           (fst (inject demo_env demo_target "main" true (init fs_plain)))).
  apply pair_of. reflexivity.
Defined.

(* ================================================================== *)
(** ** A destination that is absent                                    *)
(* ================================================================== *)

Section Relative.

Variables (tmp_dir target : path).
Hypothesis target_outside : is_prefix tmp_dir target = false.
Hypothesis scratch_outside : is_prefix target tmp_dir = false.
Variable T : fs.
Hypothesis wf_T : wf T.

(** One successful iteration for a relative path [p], with or without
    [force]: nothing changes, or the destination now holds the checkout's
    [p] and the only other change is the directories made above it. *)
Lemma relative_step (force : bool) (p : string) (s s' : state) :
  is_absolute p = false ->
  wf (files s) -> scratch_intact tmp_dir T (files s) ->
  copy_step tmp_dir target force p s (Ok tt) s' ->
  files s' = files s \/
  (T (parts p) <> None /\
   (forall r, files s' (target ++ parts p ++ r) = T (parts p ++ r)) /\
   (forall q, is_prefix (target ++ parts p) q = false ->
      files s' q = files s q \/
      (files s q = None /\ files s' q = Some Dir /\
       is_prefix q (parent (target ++ parts p)) = true))).
Proof.
  intros Hrel W S H.
  assert (Es : joinpath tmp_dir p = tmp_dir ++ parts p).
  { unfold joinpath. now rewrite Hrel. }
  assert (Ed : joinpath target p = target ++ parts p).
  { unfold joinpath. now rewrite Hrel. }
  set (dst := target ++ parts p) in *.
  set (src := tmp_dir ++ parts p) in *.
  assert (HT : files s src = T (parts p)) by apply S.
  assert (Hmk : forall f2,
    mkdir_rev (rev (parent dst)) (cleared dst (files s)) = Ok f2 ->
    (forall r, f2 (tmp_dir ++ r) = T r) /\
    (forall r, r <> [] -> f2 (dst ++ r) = None) /\
    (forall q, is_prefix dst q = false ->
       f2 q = files s q \/
       (files s q = None /\ f2 q = Some Dir /\ is_prefix q (parent dst) = true))).
  { intros f2 Hm. apply mkdir_rev_spec in Hm as (_ & C & _).
    rewrite rev_involutive in C.
    assert (Q : forall q, is_prefix dst q = false ->
       f2 q = files s q \/
       (files s q = None /\ f2 q = Some Dir /\ is_prefix q (parent dst) = true)).
    { intros q Hq. destruct (C q) as [->|(N & D & P)].
      - left. now apply cleared_outside.
      - right. rewrite cleared_outside in N by assumption. auto. }
    split; [|split; [|exact Q]].
    - intros r. destruct (Q (tmp_dir ++ r)) as [->|(_ & _ & P)].
      + now apply scratch_not_under.
      + apply S.
      + apply is_prefix_parent in P. unfold dst in P.
        now rewrite scratch_not_above in P.
    - intros r Hr. destruct (C (dst ++ r)) as [->|(_ & _ & P)].
      + now apply cleared_below.
      + exfalso. apply is_prefix_length in P.
        pose proof (parent_length dst) as L. rewrite length_app in P.
        destruct r; [congruence | simpl in P; lia]. }
  unfold src, dst in *. clear src dst.
  inversion H; subst; clear H; rewrite ?Es, ?Ed in *.
  - now left.
  - now left.
  - (* a directory *)
    right.
    match goal with Hm : mkdir_rev _ _ = Ok ?f2 |- _ =>
      destruct (Hmk f2 Hm) as (A & B & C) end.
    split; [congruence|]. cbn [files]. split.
    + intros r. rewrite app_assoc. rewrite graft_inside.
      unfold subtree. rewrite <- app_assoc. apply A.
    + intros q Hq. rewrite graft_outside by assumption. now apply C.
  - (* a file *)
    right.
    match goal with Hm : mkdir_rev _ _ = Ok ?f2 |- _ =>
      destruct (Hmk f2 Hm) as (A & B & C) end.
    assert (Hd : T (parts p) = Some (File d)).
    { rewrite <- (A (parts p)). assumption. }
    split; [congruence|]. cbn [files]. split.
    + intros r. rewrite app_assoc. destruct r as [|c r].
      * rewrite !app_nil_r, upd_same. congruence.
      * rewrite upd_other by (apply not_eq_sym, app_neq_self; discriminate).
        rewrite B by discriminate. symmetry.
        apply wf_below; [assumption | congruence | discriminate].
    + intros q Hq. rewrite upd_other; [now apply C|].
      intros <-. now rewrite is_prefix_refl in Hq.
Qed.

(** Without [force] an absolute entry changes no file. *)
Lemma absolute_step_off (p : string) (s s' : state) r :
  is_absolute p = true ->
  copy_step tmp_dir target false p s r s' -> files s' = files s.
Proof.
  intros Ha H.
  assert (Es : joinpath tmp_dir p = joinpath target p).
  { unfold joinpath. now rewrite Ha. }
  destruct H as [ | | e Hs [Hd|Hd] Hm | f2 Hs [Hd|Hd] Hm ? ?
                | f2 Hs [Hd|Hd] Hm ? ? | f2 d Hs [Hd|Hd] Hm ? ? ];
    try reflexivity; try discriminate; rewrite Es in Hs; contradiction.
Qed.

Variable p0 : string.
Hypothesis p0_relative : is_absolute p0 = false.
Hypothesis p0_upstream : T (parts p0) <> None.

Lemma pending_step (q : string) (s s' : state) :
  (is_absolute q = false -> forall r, parts q = parts p0 ++ r -> r = []) ->
  wf (files s) -> scratch_intact tmp_dir T (files s) ->
  pending target T p0 (files s) ->
  copy_path tmp_dir target false q s = (Ok tt, s') ->
  wf (files s') /\ scratch_intact tmp_dir T (files s') /\
  pending target T p0 (files s').
Proof.
  unfold pending. intros Hbelow W S J H. apply copy_path_step in H.
  pose proof (copy_step_wf _ _ _ _ _ _ _ W H) as W'.
  split; [exact W'|].
  destruct (is_absolute q) eqn:Hq.
  { rewrite (absolute_step_off _ _ _ _ Hq H). auto. }
  specialize (Hbelow eq_refl).
  destruct (relative_step false q s s' Hq W S H) as [->|(HT & Hin & Hout)];
    [auto|].
  split.
  - intros r. destruct (Hout (tmp_dir ++ r)) as [->|(_ & _ & P)].
    + now apply scratch_not_under.
    + apply S.
    + apply is_prefix_parent in P. now rewrite scratch_not_above in P.
  - destruct J as [J|J].
    + destruct (is_prefix (target ++ parts q) (target ++ parts p0)) eqn:Ep.
      * right. intros x. apply is_prefix_true in Ep as [r' Er].
        rewrite <- app_assoc in Er. apply app_inv_head in Er.
        rewrite Er, <- !app_assoc. apply Hin.
      * destruct (Hout _ Ep) as [->|(_ & _ & P)]; [now left|].
        exfalso. apply is_prefix_parent, is_prefix_true in P as [z Hz].
        rewrite <- !app_assoc in Hz. apply app_inv_head in Hz.
        rewrite (Hbelow z Hz), app_nil_r in Hz.
        rewrite Hz, is_prefix_refl in Ep. discriminate.
    + right. intros x.
      destruct (is_prefix (target ++ parts q) (target ++ parts p0 ++ x)) eqn:Ep.
      * apply is_prefix_true in Ep as [r' Er]. rewrite Er.
        rewrite <- app_assoc in Er. apply app_inv_head in Er.
        rewrite <- app_assoc, Hin. now rewrite Er.
      * destruct (Hout _ Ep) as [->|(N & _ & P)]; [apply J|].
        exfalso. rewrite (J x) in N.
        apply is_prefix_parent, is_prefix_true in P as [z Hz].
        rewrite <- !app_assoc in Hz. apply app_inv_head in Hz.
        rewrite app_assoc in Hz. rewrite Hz in HT.
        destruct z as [|c z].
        -- rewrite app_nil_r in HT. contradiction.
        -- rewrite (wf_ancestor T _ (c :: z)) in N;
             [discriminate | assumption | assumption | discriminate].
Qed.

Lemma pending_loop (xs : list string) (s s' : state) :
  (forall q, In q xs -> is_absolute q = false ->
     forall r, parts q = parts p0 ++ r -> r = []) ->
  wf (files s) -> scratch_intact tmp_dir T (files s) ->
  pending target T p0 (files s) ->
  for_each xs (copy_path tmp_dir target false) s = (Ok tt, s') ->
  pending target T p0 (files s').
Proof.
  revert s. induction xs as [|x xs IH]; intros s Hb W S J H; simpl in H.
  - inversion H; subst. exact J.
  - apply bind_inv in H as [([] & s1 & H1 & H2)|(e & _ & He)]; [|discriminate].
    destruct (pending_step x s s1) as (W1 & S1 & J1); auto.
    { apply Hb. now left. }
    apply (IH s1); auto. intros q Hq. apply Hb. now right.
Qed.

(** After a completed loop that had [p0] on its list, the destination of
    [p0] holds the checkout's [p0]. *)
Lemma absent_filled (xs : list string) (s s' : state) :
  (forall q, In q xs -> is_absolute q = false ->
     forall r, parts q = parts p0 ++ r -> r = []) ->
  In p0 xs ->
  wf (files s) -> scratch_intact tmp_dir T (files s) ->
  files s (target ++ parts p0) = None ->
  for_each xs (copy_path tmp_dir target false) s = (Ok tt, s') ->
  forall x, files s' (target ++ parts p0 ++ x) = T (parts p0 ++ x).
Proof.
  intros Hb Hin W S Hd H.
  pose proof (copy_loop_present tmp_dir target xs s s' W H p0 Hin) as Hp.
  unfold joinpath in Hp. rewrite p0_relative in Hp.
  rewrite S in Hp. specialize (Hp p0_upstream).
  destruct (pending_loop xs s s' Hb W S (or_introl Hd) H) as [J|J];
    [contradiction | exact J].
Qed.

End Relative.

(** X12.  Without [force], when no include entry has a [..] component, a
    relative include path that the checkout has and whose destination is
    absent once the manifest is in place ends up, after a completed run, as
    an entry-for-entry copy of the checkout's - provided no other include
    entry names something inside it. *)
Theorem absent_destination_gets_upstream (E : env) (target : path)
    (branch : string) (f : fs) (repo : option string) (br : string)
    (incl : list string) (sl s1 : state) (p : string) :
  wf f ->
  load_config E target branch (init f) = (Ok (repo, br, incl), sl) ->
  is_prefix target (scratch E) = false ->
  inject E target branch false (init f) = (Ok tt, s1) ->
  (forall q, In q incl -> plain q = true) ->
  In p incl -> is_absolute p = false ->
  fs_of (snd (checked_out E repo br incl)) (parts p) <> None ->
  files sl (target ++ parts p) = None ->
  (forall q, In q incl -> is_absolute q = false ->
     forall r, parts q = parts p ++ r -> r = []) ->
  forall x, files s1 (target ++ parts p ++ x)
            = fs_of (snd (checked_out E repo br incl)) (parts p ++ x).
Proof.
  intros W Hl Hout H1 _ Hin Hrel HT Hd Hb x.
  destruct sl as [fl ll]. unfold init in *.
  pose proof Hl as Hp. apply load_config_props in Hp as (Wl & Gl & _).
  cbn [files] in *. specialize (Wl W).
  pose proof Hl as Hk. apply load_config_ok in Hk as (Hgit & _).
  assert (Htar : fl target <> None).
  { assert (f target = Some Dir) as Hx.
    { apply (W target ".git"). unfold is_dir_at in Hgit.
      destruct (f (target ++ [".git"])); [discriminate | discriminate]. }
    rewrite (Gl _ _ Hx). discriminate. }
  rewrite inject_eq, Hl in H1.
  destruct (materialize E target false (repo, br, incl) (mkState fl ll))
    as [[[]|e] sm] eqn:Hm; [|discriminate].
  inversion H1; subst s1; clear H1. cbn [files].
  rewrite materialize_eq in Hm.
  destruct (fl (scratch E)) as [y|] eqn:Es; [discriminate|].
  destruct (is_dir_at fl (parent (scratch E))) eqn:Ep; [|discriminate].
  apply try_finally_inv in Hm as (rb & sb & rf & Hb' & Hf & Hr).
  destruct rf as [[]|e]; [|discriminate]. subst rb.
  rewrite fetch_and_copy_eq in Hb'. cbv zeta in Hb'.
  destruct (fst (cloned E repo br)); [|discriminate].
  destruct (fst (sparse_ready E repo br)); [|discriminate].
  destruct (fst (checked_out E repo br incl)); [|discriminate].
  assert (Hins : is_prefix (scratch E) target = false).
  { now apply (not_under_missing fl). }
  assert (Ho : is_prefix (scratch E) (target ++ parts p ++ x) = false).
  { rewrite <- (app_nil_r (scratch E)).
    apply (scratch_not_above (scratch E) target Hins Hout). }
  rewrite (rmtree_outside _ _ _ _ _ Hf Ho).
  refine (absent_filled (scratch E) target Hins Hout _ (fs_of_wf _) p Hrel HT
            incl _ sb Hb Hin _ _ _ Hb' x); cbn [files].
  - apply wf_fetched; [now apply wf_mkdtemp | apply upd_same].
  - apply fetched_scratch.
  - rewrite fetched_outside; [exact Hd|].
    rewrite <- (app_nil_r (scratch E)), <- (app_nil_r (parts p)).
    apply (scratch_not_above (scratch E) target Hins Hout).
Qed.

(** Directory [a], which [/home/u/proj] does not have. *)
Lemma absent_destination_gets_upstream_witness :
  let run := inject demo_env demo_target "main" false (init fs_plain) in
  let incl := ["Makefile"; "a"; "docs/missing.md"] in
  fs_plain (demo_target ++ parts "a") = None /\
  files (snd run) (demo_target ++ parts "a" ++ ["b"])
  = fs_of (snd (checked_out demo_env (Some "acme/templates") "main" incl))
      (parts "a" ++ ["b"]).
Proof.
  cbv zeta. split; [reflexivity|].
  apply (absent_destination_gets_upstream demo_env demo_target "main" fs_plain
           (Some "acme/templates") "main" ["Makefile"; "a"; "docs/missing.md"]
           (snd (load_config demo_env demo_target "main" (init fs_plain)))).
  - apply demo_fs_wf.
  - apply pair_of. vm_compute. reflexivity.
  - reflexivity.
  - apply pair_of. vm_compute. reflexivity.
  - intros q [<-|[<-|[<-|[]]]]; reflexivity.
  - simpl. tauto.
  - reflexivity.
  - vm_compute. discriminate.
  - vm_compute. reflexivity.
  - intros q [<-|[<-|[<-|[]]]] _ r Hr; vm_compute in Hr.
    + discriminate.
    + destruct r; [reflexivity | discriminate].
    + discriminate.
Defined.

(* ================================================================== *)
(** ** Where [sys.exit] comes from                                     *)
(* ================================================================== *)

Lemma mkdir_rev_no_exit (rp : list string) (f : fs) (e : exn) :
  mkdir_rev rp f = Raise e -> is_exit e = false.
Proof.
  induction rp as [|c rp IH]; simpl.
  - destruct (f []) as [[d|]|]; intros H; inversion H; reflexivity.
  - destruct (f (rev rp ++ [c])) as [[d|]|];
      try (intros H; inversion H; reflexivity).
    destruct (f (rev rp)) as [[d|]|];
      try (intros H; inversion H; reflexivity).
    destruct (mkdir_rev rp f) as [f'|e']; [discriminate|].
    intros [= <-]. now apply IH.
Qed.

Lemma copy_loop_no_exit (tmp_dir target : path) (force : bool)
    (xs : list string) (s s' : state) (e : exn) :
  for_each xs (copy_path tmp_dir target force) s = (Raise e, s') ->
  is_exit e = false.
Proof.
  revert s. induction xs as [|x xs IH]; intros s H; simpl in H; [discriminate|].
  apply bind_inv in H as [(u & s1 & _ & H2)|(e' & H1 & [= <-])]; [eauto|].
  apply copy_path_step in H1. inversion H1; subst; [|reflexivity].
  eapply mkdir_rev_no_exit; eauto.
Qed.

Lemma materialize_no_exit (E : env) (target : path) (force : bool)
    (repo : option string) (br : string) (incl : list string)
    (s s' : state) (e : exn) :
  materialize E target force (repo, br, incl) s = (Raise e, s') ->
  is_exit e = false.
Proof.
  destruct s as [f l]. rewrite materialize_eq.
  destruct (f (scratch E)) as [x|]; [now intros [= <-]|].
  destruct (is_dir_at f (parent (scratch E))); [|now intros [= <-]].
  intros H. apply try_finally_inv in H as (rb & sb & rf & Hb & Hf & Hr).
  destruct rf as [[]|e'].
  - subst rb. rewrite fetch_and_copy_eq in Hb. cbv zeta in Hb.
    destruct (fst (cloned E repo br)); [|now inversion Hb].
    destruct (fst (sparse_ready E repo br)); [|now inversion Hb].
    destruct (fst (checked_out E repo br incl)); [|now inversion Hb].
    eapply copy_loop_no_exit; eauto.
  - injection Hr as ->. rewrite run_rmtree in Hf.
    destruct (files sb (scratch E)) as [[d|]|]; now inversion Hf.
Qed.

(** X13.  The exit status 1 has two sources only, both before anything is
    fetched: the target has no [.git] directory (nothing was written and
    the error line is all that was logged), or the manifest parsed to an
    empty or missing include list.  In both cases no scratch directory was
    made and no [git] was run; nothing after the manifest stage ever calls
    [sys.exit]. *)
Theorem exit_only_from_manifest_stage (E : env) (target : path)
    (branch : string) (force : bool) (f : fs) (n : nat) (s' : state) :
  inject E target branch force (init f) = (Raise (SystemExit n), s') ->
  n = 1 /\ Forall logger_line (log s') /\
  ((is_dir_at f (target ++ [".git"]) = false /\
    files s' = f /\ log s' = [not_a_repository target]) \/
   (is_dir_at f (target ++ [".git"]) = true /\
    (exists t, log s' = t ++ [empty_manifest]) /\
    exists text config,
      files s' (template_path target) = Some (File text) /\
      yaml_safe_load E text = Some config /\
      manifest_include config = [])).
Proof.
  rewrite inject_eq. unfold init.
  destruct (load_config E target branch (mkState f [])) as [[cfg|e] s1] eqn:Hl.
  { destruct cfg as [[repo br] incl].
    destruct (materialize E target force (repo, br, incl) s1)
      as [[[]|e] sm] eqn:Hm; [discriminate|].
    intros [= -> <-]. apply materialize_no_exit in Hm. discriminate. }
  intros [= -> <-].
  pose proof Hl as Hp. apply load_config_props in Hp as (_ & _ & t & Ht & Hlines).
  change ([] ++ t) with t in Ht. rewrite Ht.
  rewrite load_config_eq in Hl.
  destruct (is_dir_at f (target ++ [".git"])) eqn:Hg.
  2:{ injection Hl as <- <-. split; [reflexivity|]. split; [assumption|].
      left. cbn [files log] in *. rewrite <- Ht. repeat split. }
  destruct (mkdir_rev (rev (target ++ [".github"])) f) as [f1|e] eqn:Hm.
  2:{ injection Hl as -> _. apply mkdir_rev_no_exit in Hm. discriminate. }
  cbv zeta in Hl.
  destruct (ensured E target branch f1 (template_path target))
    as [[text|]|] eqn:Hx; try discriminate.
  destruct (yaml_safe_load E text) as [config|] eqn:Hy; [|discriminate].
  destruct (manifest_include config) as [|p ps] eqn:Hi; [|discriminate].
  injection Hl as <- <-. split; [reflexivity|]. split; [assumption|].
  right. split; [reflexivity|]. cbn [files log] in *. split.
  - rewrite <- Ht. exists (intro_log target branch ++ ensure_log target f1).
    reflexivity.
  - exists text, config. auto.
Qed.

(** A repository whose manifest lists nothing. *)
Lemma exit_only_from_manifest_stage_witness :
  let run := inject demo_env demo_target "main" true (init fs_empty_manifest) in
  Forall logger_line (log (snd run)) /\
  exists t, log (snd run) = t ++ [empty_manifest].
Proof.
  cbv zeta.
  destruct (exit_only_from_manifest_stage demo_env demo_target "main" true
              fs_empty_manifest 1
              (snd (inject demo_env demo_target "main" true
                      (init fs_empty_manifest))))
    as (_ & Hlines & [(Hg & _)|(_ & Ht & _)]).
  - apply pair_of. reflexivity.
  - vm_compute in Hg. discriminate.
  - split; [exact Hlines | exact Ht].
Defined.

(* ================================================================== *)
(** ** Where a run creates entries                                     *)
(* ================================================================== *)

(** The manifest stage creates the manifest and the directories above it,
    and nothing else. *)
Lemma load_config_creates (E : env) (target : path) (branch : string)
    (f : fs) (l : list event) r (s1 : state) (q : path) :
  load_config E target branch (mkState f l) = (r, s1) ->
  f q = None -> is_prefix q (template_path target) = false ->
  files s1 q = None.
Proof.
  intros H Hq Hp. rewrite load_config_eq in H.
  destruct (is_dir_at f (target ++ [".git"])); [|now inversion H].
  destruct (mkdir_rev (rev (target ++ [".github"])) f) as [f1|e] eqn:Hm;
    [|now inversion H].
  cbv zeta in H.
  assert (H1 : f1 q = None).
  { apply mkdir_rev_spec in Hm as (_ & C & _). rewrite rev_involutive in C.
    destruct (C q) as [->|(_ & _ & P)]; [assumption|].
    apply (is_prefix_snoc _ _ "template.yml") in P.
    unfold template_path in Hp. rewrite <- app_assoc in P. cbn [app] in P.
    congruence. }
  assert (H2 : ensured E target branch f1 q = None).
  { unfold ensured. destruct (f1 (template_path target)); [assumption|].
    rewrite upd_other; [assumption|].
    intros <-. now rewrite is_prefix_refl in Hp. }
  destruct (ensured E target branch f1 (template_path target)) as [[text|]|];
    try now inversion H.
  destruct (yaml_safe_load E text) as [config|]; [|now inversion H].
  destruct (manifest_include config); now inversion H.
Qed.

(** One iteration creates entries only at, below and above its
    destination. *)
Lemma copy_step_creates (tmp_dir target : path) (force : bool) (p : string)
    (s : state) r (s' : state) (q : path) :
  copy_step tmp_dir target force p s r s' ->
  files s q = None ->
  is_prefix (joinpath target p) q = false ->
  is_prefix q (joinpath target p) = false ->
  files s' q = None.
Proof.
  intros H Hq Hbelow Habove.
  assert (Hc : cleared (joinpath target p) (files s) q = None).
  { destruct (cleared_cases (joinpath target p) (files s) q) as [->|[-> _]];
      auto. }
  assert (Hmk : forall f2,
            mkdir_rev (rev (parent (joinpath target p)))
              (cleared (joinpath target p) (files s)) = Ok f2 -> f2 q = None).
  { intros f2 Hm. apply mkdir_rev_spec in Hm as (_ & C & _).
    rewrite rev_involutive in C.
    destruct (C q) as [->|(_ & _ & P)]; [assumption|].
    apply is_prefix_parent in P. congruence. }
  destruct H; cbn [files]; auto.
  - rewrite graft_outside by assumption. auto.
  - rewrite upd_other; auto. intros <-. now rewrite is_prefix_refl in Hbelow.
Qed.

(** X14.  A run whose include entries have no [..] component creates
    nothing elsewhere: a path that does not exist before the run, and is
    neither the manifest or a directory above it, nor inside the scratch
    directory, nor at, below or above the destination of an include path,
    does not exist after it. *)
Theorem nothing_created_elsewhere (E : env) (target : path)
    (branch : string) (force : bool) (f : fs) (r : result unit) (s' : state)
    (q : path) :
  f q = None ->
  is_prefix q (template_path target) = false ->
  is_prefix (scratch E) q = false ->
  (forall repo br incl sl,
     load_config E target branch (init f) = (Ok (repo, br, incl), sl) ->
     forall p, In p incl ->
       plain p = true /\
       is_prefix (joinpath target p) q = false /\
       is_prefix q (joinpath target p) = false) ->
  inject E target branch force (init f) = (r, s') ->
  files s' q = None.
Proof.
  intros Hq Hman Hscr Hdst. rewrite inject_eq. unfold init in *.
  destruct (load_config E target branch (mkState f [])) as [[cfg|x] [f1 l1]] eqn:Hl.
  2:{ intros [= <- <-].
      exact (load_config_creates _ _ _ _ _ _ _ q Hl Hq Hman). }
  destruct cfg as [[repo br] incl]. specialize (Hdst repo br incl _ eq_refl).
  pose proof (load_config_creates _ _ _ _ _ _ _ q Hl Hq Hman) as H1.
  cbn [files] in H1.
  assert (Hm : forall rm sm,
            materialize E target force (repo, br, incl) (mkState f1 l1) = (rm, sm) ->
            files sm q = None).
  { intros rm sm. rewrite materialize_eq.
    destruct (f1 (scratch E)) as [y|]; [now intros [= <- <-]|].
    destruct (is_dir_at f1 (parent (scratch E))); [|now intros [= <- <-]].
    intros H. apply try_finally_inv in H as (rb & sb & rf & Hb & Hf & _).
    assert (H0 : upd (scratch E) (Some Dir) f1 q = None).
    { rewrite upd_other; [assumption|].
      intros <-. now rewrite is_prefix_refl in Hscr. }
    assert (Hsb : files sb q = None).
    { rewrite fetch_and_copy_eq in Hb. cbv zeta in Hb.
      destruct (fst (cloned E repo br)).
      2:{ inversion Hb; subst. cbn [files]. now rewrite graft_outside. }
      destruct (fst (sparse_ready E repo br)).
      2:{ inversion Hb; subst. cbn [files]. now rewrite !graft_outside. }
      assert (H3 : fetched E repo br incl (upd (scratch E) (Some Dir) f1) q
                   = None).
      { unfold fetched. now rewrite !graft_outside. }
      destruct (fst (checked_out E repo br incl)).
      2:{ inversion Hb; subst. exact H3. }
      revert Hb.
      apply (for_each_inv string (fun t => files t q = None)); [|exact H3].
      intros p s0 r0 s2 Hin J Hstep. apply copy_path_step in Hstep.
      destruct (Hdst p Hin) as (_ & Hbelow & Habove).
      eapply copy_step_creates; eauto. }
    rewrite run_rmtree in Hf.
    destruct (files sb (scratch E)) as [[d|]|]; inversion Hf; subst;
      cbn [files]; auto.
    unfold remove_tree. now rewrite Hscr. }
  destruct (materialize E target force (repo, br, incl) (mkState f1 l1))
    as [rm sm] eqn:Em.
  specialize (Hm _ _ eq_refl). destruct rm as [[]|x]; now intros [= <- <-].
Qed.

(** No [README.md] appears in [/home/u/proj] under a forced run. *)
Lemma nothing_created_elsewhere_witness :
  files (snd (inject demo_env demo_target "main" true (init fs_plain)))
    (demo_target ++ ["README.md"]) = None.
Proof.
  apply (nothing_created_elsewhere demo_env demo_target "main" true fs_plain
           (fst (inject demo_env demo_target "main" true (init fs_plain)))).
  - reflexivity.
  - reflexivity.
  - reflexivity.
  - intros repo br incl sl Hl. vm_compute in Hl. injection Hl as _ _ <- _.
    intros p [<-|[<-|[<-|[]]]]; (split; [|split]); vm_compute; reflexivity.
  - apply pair_of. reflexivity.
Defined.

(* ================================================================== *)
(** ** A destination that exists, without [force]                      *)
(* ================================================================== *)

(** Without [force], an iteration adds nothing at or below a destination
    [dst] that exists, unless its own destination lies strictly inside. *)
Lemma copy_step_adds_nothing (tmp_dir target dst q : path) (p : string)
    (s : state) r (s' : state) :
  wf (files s) -> files s dst <> None -> files s q = None ->
  is_prefix dst q = true ->
  (forall y, joinpath target p = dst ++ y -> y = []) ->
  copy_step tmp_dir target false p s r s' ->
  files s' q = None.
Proof.
  intros W Hd Hq Hdq Hnest H.
  destruct (files s (joinpath target p)) as [e|] eqn:Ed.
  - destruct H as [ | | e0 ? [Hx|Hx] ? | f2 ? [Hx|Hx] ? ? ?
                  | f2 ? [Hx|Hx] ? ? ? | f2 d ? [Hx|Hx] ? ? ? ];
      cbn [files]; try assumption; congruence.
  - assert (Hneq : joinpath target p <> dst) by congruence.
    assert (Hno : forall y, joinpath target p <> dst ++ y).
    { intros y Hy. pose proof (Hnest y Hy) as ->.
      rewrite app_nil_r in Hy. contradiction. }
    eapply copy_step_creates; eauto.
    + destruct (is_prefix (joinpath target p) q) eqn:Ep; [|reflexivity].
      exfalso.
      destruct (prefix_comparable _ _ _ Ep Hdq) as [Hc|Hc];
        apply is_prefix_true in Hc as [z Hz].
      * destruct z as [|c z]; [rewrite app_nil_r in Hz; congruence|].
        rewrite Hz in Hd.
        rewrite (wf_ancestor _ _ (c :: z) W Hd) in Ed; discriminate.
      * exact (Hno z Hz).
    + destruct (is_prefix q (joinpath target p)) eqn:Ep; [|reflexivity].
      exfalso. apply is_prefix_true in Hdq as [x ->].
      apply is_prefix_true in Ep as [z Hz]. rewrite <- app_assoc in Hz.
      exact (Hno _ Hz).
Qed.

Lemma copy_loop_adds_nothing (tmp_dir target dst q : path)
    (xs : list string) (s : state) r (s' : state) :
  wf (files s) -> files s dst <> None -> files s q = None ->
  is_prefix dst q = true ->
  (forall p y, In p xs -> joinpath target p = dst ++ y -> y = []) ->
  for_each xs (copy_path tmp_dir target false) s = (r, s') ->
  files s' q = None.
Proof.
  intros W Hd Hq Hdq Hnest H.
  cut (wf (files s') /\ files s' dst <> None /\ files s' q = None);
    [tauto|].
  revert H.
  apply (for_each_inv string
           (fun t => wf (files t) /\ files t dst <> None /\ files t q = None));
    [|auto].
  intros p s0 r0 s2 Hin (W0 & Hd0 & Hq0) Hstep. apply copy_path_step in Hstep.
  split; [eapply copy_step_wf; eauto|]. split.
  - pose proof (copy_step_grows _ _ _ _ _ _ W0 Hstep) as G.
    destruct (files s0 dst) eqn:Ex; [|contradiction].
    rewrite (G _ _ Ex). discriminate.
  - eapply copy_step_adds_nothing; eauto.
Qed.

(** C1 (as amended).  Without [force] and with include entries that have
    no [..] component, take an include path present in the fetched checkout
    and in the target before the run.  Every entry at or below its
    destination that existed before the run is still there, unchanged,
    after it, and a run that completes has logged the "already exists"
    warning for that path.  If moreover no include entry names a path
    strictly inside the destination, and the run does not write a new
    manifest into it (the manifest exists already, or the destination is
    not [.github] or a directory above it), then nothing is added either:
    the destination is entry for entry what it was. *)
Theorem existing_destination_kept (E : env) (target : path) (branch : string)
    (f : fs) (s1 : state) (repo : option string) (br : string)
    (incl : list string) (p : string) (r : result unit) (s' : state) :
  wf f ->
  load_config E target branch (init f) = (Ok (repo, br, incl), s1) ->
  (forall q, In q incl -> plain q = true) ->
  In p incl ->
  fetched E repo br incl (upd (scratch E) (Some Dir) (files s1))
    (joinpath (scratch E) p) <> None ->
  f (joinpath target p) <> None ->
  inject E target branch false (init f) = (r, s') ->
  (forall x e, f (joinpath target p ++ x) = Some e ->
               files s' (joinpath target p ++ x) = Some e) /\
  (r = Ok tt -> In (skip_existing p) (log s')) /\
  ((forall q y, In q incl -> joinpath target q = joinpath target p ++ y ->
                y = []) ->
   f (template_path target) <> None \/
   is_prefix (joinpath target p) (template_path target) = false ->
   forall x, files s' (joinpath target p ++ x) = f (joinpath target p ++ x)).
Proof.
  intros W Hl _ Hin Hs Hd H.
  assert (Hkeep : forall x e, f (joinpath target p ++ x) = Some e ->
                    files s' (joinpath target p ++ x) = Some e).
  { intros x e Hx. eapply inject_force_off_grows; eauto. }
  split; [exact Hkeep|].
  rewrite inject_eq, Hl in H. destruct s1 as [f1 l1]. cbn [files] in *.
  pose proof Hl as Hp. unfold init in Hp.
  apply load_config_props in Hp as (W1 & G & _). cbn [files] in *.
  specialize (W1 W).
  assert (Hd1 : f1 (joinpath target p) <> None).
  { destruct (f (joinpath target p)) eqn:Ex; [|contradiction].
    rewrite (G _ _ Ex). discriminate. }
  destruct (materialize E target false (repo, br, incl) (mkState f1 l1))
    as [rm sm] eqn:Hm.
  split.
  - apply materialize_force_off in Hm as [_ Rm]; [|auto].
    destruct rm as [[]|e]; inversion H; subst; clear H; [|discriminate].
    intros _. cbn [log]. rewrite in_app_iff. left. apply Rm; auto.
  - intros Hnest Hman x.
    destruct (f (joinpath target p ++ x)) as [e|] eqn:Ex; [now apply Hkeep|].
    set (q := joinpath target p ++ x) in *.
    assert (Hdq : is_prefix (joinpath target p) q = true)
      by apply is_prefix_app.
    assert (Hq1 : f1 q = None).
    { unfold init in Hl.
      apply (load_config_creates _ _ _ _ _ _ _ q Hl Ex).
      destruct (is_prefix q (template_path target)) eqn:Et; [|reflexivity].
      exfalso. destruct Hman as [Hman|Hman].
      - apply is_prefix_true in Et as [z Hz].
        destruct z as [|c z]; [rewrite app_nil_r in Hz; congruence|].
        rewrite Hz in Hman.
        rewrite (wf_ancestor _ _ (c :: z) W Hman) in Ex; discriminate.
      - unfold q in Et. apply is_prefix_app_l in Et. congruence. }
    assert (Hsm : files sm q = None).
    { rewrite materialize_eq in Hm.
      destruct (f1 (scratch E)) as [y|] eqn:Es; [now inversion Hm|].
      destruct (is_dir_at f1 (parent (scratch E))) eqn:Ep; [|now inversion Hm].
      apply try_finally_inv in Hm as (rb & sb & rf & Hb & Hf & _).
      destruct (is_prefix (scratch E) q) eqn:Eq.
      { apply fetch_and_copy_scratch in Hb;
          [|now apply wf_mkdtemp | apply upd_same].
        exact (rmtree_scratch_gone _ _ _ _ Hb Hf q Eq). }
      rewrite (rmtree_outside _ _ _ _ q Hf Eq).
      assert (H0 : upd (scratch E) (Some Dir) f1 q = None).
      { rewrite upd_other; [assumption|].
        intros <-. now rewrite is_prefix_refl in Eq. }
      rewrite fetch_and_copy_eq in Hb. cbv zeta in Hb.
      destruct (fst (cloned E repo br)).
      2:{ inversion Hb; subst. cbn [files]. now rewrite graft_outside. }
      destruct (fst (sparse_ready E repo br)).
      2:{ inversion Hb; subst. cbn [files]. now rewrite !graft_outside. }
      assert (H3 : fetched E repo br incl (upd (scratch E) (Some Dir) f1) q
                   = None).
      { unfold fetched. now rewrite !graft_outside. }
      destruct (fst (checked_out E repo br incl)).
      2:{ inversion Hb; subst. exact H3. }
      match type of Hb with for_each _ _ ?s0 = _ =>
        pose proof (copy_loop_adds_nothing (scratch E) target
                      (joinpath target p) q incl s0 rb sb) as L end.
      cbn [files] in L.
      apply L; [ | | exact H3 | exact Hdq | | exact Hb ].
      - apply wf_fetched; [now apply wf_mkdtemp | apply upd_same].
      - rewrite fetched_outside; [exact Hd1|].
        now apply (not_under_missing f1).
      - intros p' y Hp'. now apply Hnest. }
    destruct rm as [[]|e]; inversion H; subst; exact Hsm.
Qed.

(** [Makefile] of the run with [include: [Makefile, a, docs/missing.md]]:
    it exists on both sides, is reported as skipped and keeps its content;
    nothing is listed inside it and the manifest exists. *)
Lemma existing_destination_kept_witness :
  let run := inject demo_env demo_target "main" false (init fs_plain) in
  let dst := joinpath demo_target "Makefile" in
  fs_plain dst <> None /\
  (forall x e, fs_plain (dst ++ x) = Some e ->
               files (snd run) (dst ++ x) = Some e) /\
  (fst run = Ok tt -> In (skip_existing "Makefile") (log (snd run))) /\
  forall x, files (snd run) (dst ++ x) = fs_plain (dst ++ x).
Proof.
  cbv zeta.
  assert (H : fs_plain (joinpath demo_target "Makefile") <> None).
  { vm_compute. discriminate. }
  split; [exact H|].
  destruct (existing_destination_kept demo_env demo_target "main" fs_plain
           (snd (load_config demo_env demo_target "main" (init fs_plain)))
           (Some "acme/templates") "main" ["Makefile"; "a"; "docs/missing.md"]
           "Makefile"
           (fst (inject demo_env demo_target "main" false (init fs_plain)))
           (snd (inject demo_env demo_target "main" false (init fs_plain))))
    as (K1 & K2 & K3).
  - apply demo_fs_wf.
  - apply pair_of. vm_compute. reflexivity.
  - intros q [<-|[<-|[<-|[]]]]; reflexivity.
  - left. reflexivity.
  - vm_compute. discriminate.
  - exact H.
  - apply pair_of. reflexivity.
  - split; [exact K1|]. split; [exact K2|]. apply K3.
    + intros q y [<-|[<-|[<-|[]]]] Hy; vm_compute in Hy.
      * destruct y; [reflexivity | discriminate].
      * discriminate.
      * discriminate.
    + left. vm_compute. discriminate.
Defined.

(* ================================================================== *)
(** ** Running again with [force]                                      *)
(* ================================================================== *)

(** [mkdir] fails alike on file systems that agree entry for entry. *)
Lemma mkdir_rev_ext (rp : list string) (f g : fs) (e : exn) :
  (forall q, f q = g q) -> mkdir_rev rp f = Raise e -> mkdir_rev rp g = Raise e.
Proof.
  intros Hfg. induction rp as [|c rp IH]; simpl; rewrite <- !Hfg.
  - destruct (f []) as [[d|]|]; auto; discriminate.
  - destruct (f (rev rp ++ [c])) as [[d|]|]; auto; try discriminate.
    destruct (f (rev rp)) as [[d|]|]; auto; try discriminate.
    destruct (mkdir_rev rp f) as [f'|e']; [discriminate|].
    intros [= <-]. now rewrite (IH eq_refl).
Qed.

Lemma for_each_app (A : Type) (body : A -> M unit) (xs ys : list A)
    (s : state) r (s' : state) :
  for_each (xs ++ ys) body s = (r, s') ->
  (exists s1, for_each xs body s = (Ok tt, s1) /\
              for_each ys body s1 = (r, s')) \/
  (exists e, for_each xs body s = (Raise e, s') /\ r = Raise e).
Proof.
  revert s. induction xs as [|x xs IH]; intros s H; simpl in *.
  - left. exists s. auto.
  - apply bind_inv in H as [([] & s1 & H1 & H2)|(e & H1 & ->)].
    + rewrite bind_unfold, H1. now apply IH.
    + right. exists e. rewrite bind_unfold, H1. auto.
Qed.

Section Replay.

Variables (tmp_dir target : path).
Hypothesis target_outside : is_prefix tmp_dir target = false.
Hypothesis scratch_outside : is_prefix target tmp_dir = false.
Variable T : fs.
Hypothesis wf_T : wf T.

(** A forced iteration for a relative path raises only at the [mkdir],
    with the destination absent, and then it has changed nothing. *)
Lemma forced_raise (p : string) (s s' : state) (e : exn) :
  is_absolute p = false ->
  wf (files s) -> scratch_intact tmp_dir T (files s) ->
  copy_step tmp_dir target true p s (Raise e) s' ->
  files s' = files s /\ stuck target T p (files s).
Proof.
  intros Hrel W S H.
  assert (Es : joinpath tmp_dir p = tmp_dir ++ parts p).
  { unfold joinpath. now rewrite Hrel. }
  assert (Ed : joinpath target p = target ++ parts p).
  { unfold joinpath. now rewrite Hrel. }
  assert (Hne : target ++ parts p <> []).
  { assert (target <> []) by (intros ->; discriminate scratch_outside).
    destruct target; [congruence | discriminate]. }
  inversion H; subst; clear H; rewrite ?Es, ?Ed in *.
  - (* the mkdir fails *)
    match goal with X : files s (tmp_dir ++ parts p) <> None |- _ =>
      rename X into Hsrc end.
    match goal with X : mkdir_rev _ _ = Raise _ |- _ => rename X into Hm end.
    assert (Hd : files s (target ++ parts p) = None).
    { destruct (files s (target ++ parts p)) as [x|] eqn:Ex; [|reflexivity].
      exfalso.
      assert (Hp : cleared (target ++ parts p) (files s)
                     (parent (target ++ parts p)) = Some Dir).
      { rewrite cleared_outside.
        - apply wf_parent; [assumption | congruence | assumption].
        - destruct (is_prefix (target ++ parts p)
                      (parent (target ++ parts p))) eqn:Ep; [|reflexivity].
          exfalso. apply is_prefix_length in Ep. unfold parent in Ep.
          destruct (exists_last Hne) as (d & c & Hdc).
          rewrite Hdc, removelast_last, length_app in Ep. simpl in Ep. lia. }
      rewrite (mkdir_rev_existing _ _ Hp) in Hm. discriminate. }
    rewrite (cleared_absent _ _ Hd) in *. cbn [files].
    split; [reflexivity|]. split; [now rewrite <- S|].
    split; [assumption|]. now exists e.
  - (* the source cannot vanish *)
    exfalso.
    match goal with X : mkdir_rev _ _ = Ok _ |- _ =>
      apply mkdir_rev_spec in X as (_ & C & _) end.
    destruct (C (tmp_dir ++ parts p)) as [Hq|(_ & Hq & _)]; [|congruence].
    rewrite cleared_outside in Hq by (now apply scratch_not_under).
    congruence.
Qed.

(** The first run's loop: a prefix of the list was copied, and the run
    either finished the list or is stuck at the next entry. *)
Lemma forced_loop_any (xs done : list string) (s : state) r (s' : state) :
  (forall p, In p xs -> is_absolute p = false) ->
  forced_inv tmp_dir target T done (files s) ->
  for_each xs (copy_path tmp_dir target true) s = (r, s') ->
  exists pre post,
    xs = pre ++ post /\
    forced_inv tmp_dir target T (done ++ pre) (files s') /\
    (post = [] \/
     exists p post', post = p :: post' /\ stuck target T p (files s')).
Proof.
  revert done s. induction xs as [|x xs IH]; intros done s Hrel J H;
    simpl in H.
  - inversion H; subst. exists [], []. rewrite !app_nil_r. auto.
  - apply bind_inv in H as [([] & s1 & H1 & H2)|(e & H1 & ->)].
    + assert (J1 : forced_inv tmp_dir target T (done ++ [x]) (files s1)).
      { apply (forced_step_inv tmp_dir target target_outside scratch_outside
                 T wf_T done x s s1); auto. apply Hrel. now left. }
      destruct (IH (done ++ [x]) s1) as (pre & post & -> & J2 & Hpost); auto.
      { intros q Hq. apply Hrel. now right. }
      exists (x :: pre), post. rewrite <- app_assoc in J2. auto.
    + apply copy_path_step in H1. destruct J as (W & S & C).
      destruct (forced_raise x s s' e) as [Hf Hst]; auto.
      { apply Hrel. now left. }
      exists [], (x :: xs). rewrite app_nil_r, Hf.
      split; [reflexivity|]. split; [now repeat split|].
      right. exists x, xs. now rewrite Hf in *.
Qed.

(** [F]: the state the first loop ended in. *)
Variable F : fs.
Hypothesis wf_F : wf F.
Hypothesis F_scratch : scratch_intact tmp_dir T F.

(** On a state that agrees with [F], an entry [F] is stuck at raises again
    and changes nothing. *)
Lemma stuck_again (p : string) (t : state) r (t' : state) :
  is_absolute p = false ->
  stuck target T p F ->
  (forall q, files t q = F q) ->
  copy_path tmp_dir target true p t = (r, t') ->
  (exists e, r = Raise e) /\ forall q, files t' q = F q.
Proof.
  intros Hrel (HT & Hd & e & Hm) I H. apply copy_path_step in H.
  assert (Es : joinpath tmp_dir p = tmp_dir ++ parts p).
  { unfold joinpath. now rewrite Hrel. }
  assert (Ed : joinpath target p = target ++ parts p).
  { unfold joinpath. now rewrite Hrel. }
  assert (Hdt : files t (target ++ parts p) = None) by now rewrite I.
  assert (Hmt : mkdir_rev (rev (parent (target ++ parts p)))
                  (cleared (target ++ parts p) (files t)) = Raise e).
  { rewrite (cleared_absent _ _ Hdt).
    apply (mkdir_rev_ext _ F); [intros q; now rewrite I | exact Hm]. }
  inversion H; subst; clear H; rewrite ?Es, ?Ed in *; try congruence;
    try (exfalso;
         match goal with X : files t (tmp_dir ++ parts p) = None |- _ =>
           rewrite I, F_scratch in X; contradiction end).
  split; [eauto|]. cbn [files]. intros q.
  rewrite (cleared_absent _ _ Hdt). apply I.
Qed.

(** The second run's loop. *)
Lemma again_loop_any (xs pre post : list string) (t : state) r
    (t' : state) :
  xs = pre ++ post ->
  (forall p, In p xs -> is_absolute p = false) ->
  copied target T pre F ->
  (post = [] \/ exists p post', post = p :: post' /\ stuck target T p F) ->
  (forall q, files t q = F q) ->
  for_each xs (copy_path tmp_dir target true) t = (r, t') ->
  forall q, files t' q = F q.
Proof.
  intros -> Hrel HC Hpost I H.
  assert (Hpre : forall p, In p pre -> is_absolute p = false).
  { intros p Hp. apply Hrel, in_or_app. now left. }
  apply for_each_app in H as [(t1 & H1 & H2)|(e & H1 & _)].
  2:{ exact (again_loop tmp_dir target target_outside scratch_outside T wf_T
               F wf_F F_scratch pre t _ t' Hpre HC I H1). }
  pose proof (again_loop tmp_dir target target_outside scratch_outside T wf_T
                F wf_F F_scratch pre t _ t1 Hpre HC I H1) as I1.
  destruct Hpost as [->|(p & post' & -> & Hst)].
  - inversion H2; subst. exact I1.
  - simpl in H2.
    apply bind_inv in H2 as [(u & t2 & Hp & _)|(e & Hp & _)].
    + apply stuck_again in Hp as [[e He] _]; auto; [discriminate|].
      apply Hrel, in_or_app. right. now left.
    + apply stuck_again in Hp as [_ I2]; auto.
      apply Hrel, in_or_app. right. now left.
Qed.

End Replay.

(** The manifest stage run again on the state it left: the same outcome,
    and nothing written. *)
Lemma load_config_twice (E : env) (target : path) (branch : string)
    (f : fs) (l : list event) r (sl : state) (l' : list event) :
  load_config E target branch (mkState f l) = (r, sl) ->
  exists l'',
    load_config E target branch (mkState (files sl) l')
    = (r, mkState (files sl) l'').
Proof.
  intros H. rewrite load_config_eq in H.
  destruct (is_dir_at f (target ++ [".git"])) eqn:Hg.
  2:{ inversion H; subst; clear H. cbn [files].
      rewrite load_config_eq, Hg. eauto. }
  destruct (mkdir_rev (rev (target ++ [".github"])) f) as [f1|e] eqn:Hm.
  2:{ inversion H; subst; clear H. cbn [files].
      rewrite load_config_eq, Hg, Hm. eauto. }
  cbv zeta in H.
  set (g := ensured E target branch f1) in *.
  assert (Hgit : is_dir_at g (target ++ [".git"]) = true).
  { unfold is_dir_at in *.
    destruct (f (target ++ [".git"])) as [[d|]|] eqn:Ex; try discriminate.
    apply (grows_mkdir _ _ _ Hm) in Ex.
    unfold g. now rewrite (grows_ensured E target branch f1 _ _ Ex). }
  assert (Hdir : g (target ++ [".github"]) = Some Dir).
  { apply mkdir_rev_spec in Hm as (D & _). rewrite rev_involutive in D.
    unfold g. now rewrite (grows_ensured E target branch f1 _ _ D). }
  assert (Hsome : g (template_path target) <> None).
  { unfold g, ensured. destruct (f1 (template_path target)) eqn:Ex.
    - congruence.
    - rewrite upd_same. discriminate. }
  assert (Hens : ensured E target branch g = g).
  { unfold ensured at 1. destruct (g (template_path target));
      [reflexivity | contradiction]. }
  assert (Hrun :
    load_config E target branch (mkState g l') =
    match g (template_path target) with
    | None => (Raise FileNotFoundError, mkState g l')
    | Some Dir =>
        (Raise IsADirectoryError,
         mkState g (l' ++ intro_log target branch ++ ensure_log target g))
    | Some (File text) =>
        match yaml_safe_load E text with
        | None =>
            (Raise LoadError,
             mkState g (l' ++ intro_log target branch ++ ensure_log target g))
        | Some config =>
            match manifest_include config with
            | [] =>
                (Raise (SystemExit 1),
                 mkState g ((l' ++ intro_log target branch
                               ++ ensure_log target g) ++ [empty_manifest]))
            | p :: ps =>
                (Ok (template_repository config,
                     manifest_branch config branch, p :: ps),
                 mkState g ((l' ++ intro_log target branch
                               ++ ensure_log target g)
                              ++ include_log (p :: ps)))
            end
        end
    end).
  { rewrite load_config_eq, Hgit, (mkdir_rev_existing _ _ Hdir).
    cbv zeta. rewrite Hens.
    destruct (g (template_path target)) as [[text|]|]; try reflexivity.
    contradiction. }
  destruct (g (template_path target)) as [[text|]|] eqn:Et;
    [| inversion H; subst; cbn [files]; rewrite Hrun; eauto
     | contradiction].
  destruct (yaml_safe_load E text) as [config|];
    [| inversion H; subst; cbn [files]; rewrite Hrun; eauto].
  destruct (manifest_include config);
    inversion H; subst; cbn [files]; rewrite Hrun; eauto.
Qed.

(** [materialize] keeps the file system well formed. *)
Lemma materialize_wf (E : env) (target : path) (force : bool)
    (repo : option string) (br : string) (incl : list string)
    (f1 : fs) (l1 : list event) r (sm : state) :
  wf f1 ->
  materialize E target force (repo, br, incl) (mkState f1 l1) = (r, sm) ->
  wf (files sm).
Proof.
  intros W. rewrite materialize_eq.
  destruct (f1 (scratch E)) as [x|] eqn:Es; [now intros [= <- <-]|].
  destruct (is_dir_at f1 (parent (scratch E))) eqn:Ep;
    [|now intros [= <- <-]].
  intros H. apply try_finally_inv in H as (rb & sb & rf & Hb & Hf & _).
  apply fetch_and_copy_scratch in Hb as [Wb _];
    [|now apply wf_mkdtemp | apply upd_same].
  rewrite run_rmtree in Hf.
  destruct (files sb (scratch E)) as [[d|]|]; inversion Hf; subst;
    cbn [files]; auto using wf_remove_tree.
Qed.

(** Two forced fetch-and-copy stages in a row, from the same manifest. *)
Lemma materialize_forced_twice (E : env) (target : path)
    (repo : option string) (br : string) (incl : list string)
    (f1 : fs) (l1 : list event) r1 (sm : state)
    (l2 : list event) r2 (sm2 : state) :
  wf f1 -> f1 target <> None ->
  is_prefix target (scratch E) = false ->
  (forall p, In p incl -> is_absolute p = false) ->
  materialize E target true (repo, br, incl) (mkState f1 l1) = (r1, sm) ->
  materialize E target true (repo, br, incl) (mkState (files sm) l2)
    = (r2, sm2) ->
  forall q, files sm2 q = files sm q.
Proof.
  intros W Htar Hout Hrel H1 H2.
  rewrite materialize_eq in H1.
  destruct (f1 (scratch E)) as [x|] eqn:Es.
  { inversion H1; subst; clear H1. cbn [files] in *.
    rewrite materialize_eq, Es in H2. now inversion H2. }
  destruct (is_dir_at f1 (parent (scratch E))) eqn:Ep.
  2:{ inversion H1; subst; clear H1. cbn [files] in *.
      rewrite materialize_eq, Es, Ep in H2. now inversion H2. }
  assert (Hin : is_prefix (scratch E) target = false)
    by now apply (not_under_missing f1).
  set (f0 := upd (scratch E) (Some Dir) f1) in *.
  assert (W0 : wf f0) by now apply wf_mkdtemp.
  assert (D0 : f0 (scratch E) = Some Dir) by apply upd_same.
  set (T := fs_of (snd (checked_out E repo br incl))) in *.
  apply try_finally_inv in H1 as (rb & sb & rf & Hb & Hf & _).
  rewrite fetch_and_copy_eq in Hb. cbv zeta in Hb. fold f0 in Hb.
  (* the second run, up to its loop *)
  assert (Hsecond : forall g,
    (forall q, is_prefix (scratch E) q = true -> g q = None) ->
    files sm = g ->
    forall (K : forall sb2 rb2 l3,
              fst (cloned E repo br) = true ->
              fst (sparse_ready E repo br) = true ->
              fst (checked_out E repo br incl) = true ->
              for_each incl (copy_path (scratch E) target true)
                (mkState (fetched E repo br incl
                            (upd (scratch E) (Some Dir) g)) l3)
              = (rb2, sb2) ->
              (forall q, is_prefix (scratch E) q = false ->
                         files sb2 q = g q) /\
              files sb2 (scratch E) = Some Dir),
    forall q, files sm2 q = g q).
  { intros g Hgone Hg K. rewrite Hg in H2. rewrite materialize_eq in H2.
    rewrite (Hgone _ (is_prefix_refl _)) in H2.
    destruct (is_dir_at g (parent (scratch E))); [|now inversion H2].
    apply try_finally_inv in H2 as (rb2 & sb2 & rf2 & Hb2 & Hf2 & _).
    rewrite fetch_and_copy_eq in Hb2. cbv zeta in Hb2.
    assert (Hupd : forall q, is_prefix (scratch E) q = false ->
              upd (scratch E) (Some Dir) g q = g q).
    { intros q Hq. apply upd_other. intros <-.
      now rewrite is_prefix_refl in Hq. }
    assert (Hend : (forall q, is_prefix (scratch E) q = false ->
                              files sb2 q = g q) /\
                   files sb2 (scratch E) = Some Dir).
    { destruct (fst (cloned E repo br)) eqn:G1.
      2:{ inversion Hb2; subst. cbn [files]. split; [|apply graft_root].
          intros q Hq. now rewrite graft_outside, Hupd. }
      destruct (fst (sparse_ready E repo br)) eqn:G2.
      2:{ inversion Hb2; subst. cbn [files]. split; [|apply graft_root].
          intros q Hq. now rewrite !graft_outside, Hupd. }
      destruct (fst (checked_out E repo br incl)) eqn:G3.
      2:{ inversion Hb2; subst. cbn [files]. split.
          - intros q Hq. now rewrite fetched_outside.
          - unfold fetched. apply graft_root. }
      eapply K; eauto. }
    destruct Hend as [Hsame Hdir].
    rewrite run_rmtree, Hdir in Hf2. inversion Hf2; subst; clear Hf2.
    cbn [files]. intros q. unfold remove_tree.
    destruct (is_prefix (scratch E) q) eqn:Eq.
    - symmetry. now apply Hgone.
    - now apply Hsame. }
  assert (Hrm : forall h, h (scratch E) = Some Dir ->
            files sb = h -> files sm = remove_tree (scratch E) h).
  { intros h Hd Hh. rewrite run_rmtree, Hh, Hd in Hf.
    inversion Hf; subst. reflexivity. }
  assert (Hgone : forall h q, is_prefix (scratch E) q = true ->
            remove_tree (scratch E) h q = None).
  { intros h q Hq. unfold remove_tree. now rewrite Hq. }
  assert (Hupd0 : forall q, is_prefix (scratch E) q = false -> f0 q = f1 q).
  { intros q Hq. apply upd_other. intros <-.
    now rewrite is_prefix_refl in Hq. }
  assert (Hf1 : forall q, is_prefix (scratch E) q = true -> f1 q = None).
  { intros q Hq. destruct (f1 q) eqn:Ex; [|reflexivity].
    rewrite (not_under_missing f1 (scratch E) q) in Hq;
      [discriminate | auto | auto | congruence]. }
  (* a failing git command: both runs end where the manifest stage left *)
  assert (Hfail : forall w,
            fst (cloned E repo br) && fst (sparse_ready E repo br)
              && fst (checked_out E repo br incl) = false ->
            files sb = graft (scratch E) (fs_of w) f0 \/
            files sb = graft (scratch E) (fs_of w)
                         (graft (scratch E)
                            (fs_of (snd (cloned E repo br))) f0) \/
            files sb = fetched E repo br incl f0 ->
            forall q, files sm2 q = files sm q).
  { intros w Hg Hsb.
    assert (Hsm : files sm = remove_tree (scratch E) (files sb)).
    { apply Hrm; [|reflexivity].
      destruct Hsb as [->|[->| ->]]; apply graft_root. }
    assert (Hout0 : forall q, is_prefix (scratch E) q = false ->
              files sb q = f1 q).
    { intros q Hq. destruct Hsb as [->|[->| ->]].
      - now rewrite graft_outside, Hupd0.
      - now rewrite !graft_outside, Hupd0.
      - unfold f0. now rewrite fetched_outside. }
    apply (Hsecond (files sm)); [| reflexivity |].
    - intros q Hq. rewrite Hsm. now apply Hgone.
    - intros sb2 rb2 l3 G1 G2 G3 _. rewrite G1, G2, G3 in Hg. discriminate. }
  destruct (fst (cloned E repo br)) eqn:G1.
  2:{ inversion Hb; subst sb. apply (Hfail (snd (cloned E repo br)));
        [reflexivity | now left]. }
  destruct (fst (sparse_ready E repo br)) eqn:G2.
  2:{ inversion Hb; subst sb.
      apply (Hfail (snd (sparse_ready E repo br))); [reflexivity|].
      right. now left. }
  destruct (fst (checked_out E repo br incl)) eqn:G3.
  2:{ inversion Hb; subst sb. apply (Hfail []); [reflexivity|].
      right. now right. }
  clear Hfail.
  (* the copy loop of the first run *)
  assert (J0 : forced_inv (scratch E) target T []
                 (fetched E repo br incl f0)).
  { split; [now apply wf_fetched|].
    split; [apply fetched_scratch | intros p []]. }
  match type of Hb with for_each _ _ ?s0 = _ =>
    destruct (forced_loop_any (scratch E) target Hin Hout T (fs_of_wf _)
                incl [] s0 rb sb Hrel J0 Hb)
      as (pre & post & Hsplit & (Wb & Sb & Cb) & Hpost) end.
  cbn [app] in Cb.
  assert (Hdir : files sb (scratch E) = Some Dir).
  { rewrite <- (app_nil_r (scratch E)), Sb. reflexivity. }
  assert (Hsm : files sm = remove_tree (scratch E) (files sb))
    by now apply Hrm.
  apply (Hsecond (files sm)); [| reflexivity |].
  { intros q Hq. rewrite Hsm. now apply Hgone. }
  intros sb2 rb2 l3 _ _ _ Hb2.
  assert (I : forall q,
            fetched E repo br incl (upd (scratch E) (Some Dir) (files sm)) q
            = files sb q).
  { intros q. destruct (is_prefix (scratch E) q) eqn:Eq.
    - apply is_prefix_true in Eq as [x ->].
      rewrite Sb. apply fetched_scratch.
    - rewrite fetched_outside by assumption.
      rewrite Hsm. now apply remove_tree_outside. }
  pose proof (again_loop_any (scratch E) target Hin Hout T (fs_of_wf _)
                (files sb) Wb Sb incl pre post
                (mkState (fetched E repo br incl
                            (upd (scratch E) (Some Dir) (files sm))) l3)
                rb2 sb2 Hsplit Hrel Cb Hpost I Hb2)
    as I2.
  split.
  - intros q Hq. rewrite I2, Hsm. symmetry. now apply remove_tree_outside.
  - now rewrite I2.
Qed.

(** C7 (as amended).  Take a forced run whose include entries are all
    relative and have no [..] component, whose scratch directory is not
    created inside the target, and which leaves the manifest file as it
    read it.  However that run ends, running [inject] again with [force],
    against the same upstream, ends in a file system that is entry for
    entry the one the first run left. *)
Theorem forced_rerun_changes_nothing (E : env) (target : path)
    (branch : string) (f : fs) (r1 : result unit) (s1 : state)
    (r2 : result unit) (s2 : state) :
  wf f ->
  is_prefix target (scratch E) = false ->
  (forall repo br incl sl,
     load_config E target branch (init f) = (Ok (repo, br, incl), sl) ->
     (forall p, In p incl -> is_absolute p = false /\ plain p = true) /\
     files s1 (template_path target) = files sl (template_path target)) ->
  inject E target branch true (init f) = (r1, s1) ->
  inject E target branch true (init (files s1)) = (r2, s2) ->
  forall q, files s2 q = files s1 q.
Proof.
  intros W Hout Hyp H1 H2. unfold init in *.
  rewrite inject_eq in H1.
  destruct (load_config E target branch (mkState f [])) as [[cfg|e] sl] eqn:Hl.
  2:{ (* the manifest stage fails, twice *)
      inversion H1; subst; clear H1.
      destruct (load_config_twice _ _ _ _ _ _ _ [] Hl) as (l'' & Hl2).
      rewrite inject_eq, Hl2 in H2. now inversion H2. }
  destruct cfg as [[repo br] incl].
  destruct (Hyp repo br incl sl eq_refl) as [Hrp Hman].
  assert (Hrel : forall p, In p incl -> is_absolute p = false).
  { intros p Hp. now destruct (Hrp p Hp). }
  destruct sl as [fl ll].
  pose proof Hl as Hp. apply load_config_props in Hp as (Wl & Gl & _).
  cbn [files] in *. specialize (Wl W).
  pose proof Hl as Hk.
  apply load_config_ok in Hk as (Hgit & text & config & Htext & Hy & Hcfg).
  cbn [files] in Htext.
  assert (Htar : fl target <> None).
  { assert (f target = Some Dir) as Hd.
    { apply (W target ".git"). unfold is_dir_at in Hgit.
      destruct (f (target ++ [".git"])); [discriminate | discriminate]. }
    rewrite (Gl _ _ Hd). discriminate. }
  destruct (materialize E target true (repo, br, incl) (mkState fl ll))
    as [rm sm] eqn:Hm.
  assert (Hs1 : files s1 = files sm).
  { destruct rm as [[]|e]; inversion H1; subst; reflexivity. }
  rewrite Hs1 in *. clear H1.
  pose proof (materialize_wf _ _ _ _ _ _ _ _ _ _ Wl Hm) as Wm.
  rewrite inject_eq in H2.
  destruct (load_config E target branch (mkState (files sm) []))
    as [[cfg2|e] [f2 l2]] eqn:Hl2;
    apply (load_config_existing _ _ _ _ _ text _ _ Wm) in Hl2 as [Hf2 Hc2];
    try congruence; cbn [files] in Hf2; subst f2.
  destruct (Hc2 cfg2 eq_refl) as (config2 & Hy2 & ->).
  rewrite Hy in Hy2. injection Hy2 as <-. rewrite <- Hcfg in H2.
  destruct (materialize E target true (repo, br, incl) (mkState (files sm) l2))
    as [rm2 sm2] eqn:Hm2.
  pose proof (materialize_forced_twice _ _ _ _ _ _ _ _ _ _ _ _
                Wl Htar Hout Hrel Hm Hm2) as Hsame.
  destruct rm2 as [[]|e]; inversion H2; subst; cbn [files]; assumption.
Qed.

(** Two forced runs with [include: [Makefile, a, docs/missing.md]]. *)
Lemma forced_rerun_changes_nothing_witness :
  let first := inject demo_env demo_target "main" true (init fs_plain) in
  let second :=
    inject demo_env demo_target "main" true (init (files (snd first))) in
  fst first = Ok tt /\
  forall q, files (snd second) q = files (snd first) q.
Proof.
  cbv zeta. split; [vm_compute; reflexivity|].
  apply (forced_rerun_changes_nothing demo_env demo_target "main" fs_plain
           (fst (inject demo_env demo_target "main" true (init fs_plain)))
           (snd (inject demo_env demo_target "main" true (init fs_plain)))
           (fst (inject demo_env demo_target "main" true
                   (init (files (snd (inject demo_env demo_target "main" true
                                        (init fs_plain)))))))).
  - apply demo_fs_wf.
  - reflexivity.
  - intros repo br incl sl Hl. vm_compute in Hl.
    injection Hl as _ _ <- <-. split.
    + intros p [<-|[<-|[<-|[]]]]; split; reflexivity.
    + vm_compute. reflexivity.
  - apply pair_of. reflexivity.
  - apply pair_of. reflexivity.
Defined.
